(** * AICoverGen-Mod: the staged cover pipeline of [src/main.py]

  A shallow embedding of the orchestration code of [src/main.py]
  (video-id extraction, content hashing, artifact naming, the staged
  pipeline with its cache checks, and the removal of intermediate
  files), followed by the properties that the design document states
  about it.

  Conventions of the embedding.
  - A Python [str] is a Rocq [string]; a character is one [ascii]
    (text outside ASCII is carried as its UTF-8 bytes).
  - A Python [int] is a [Z]; [str(n)] is stdpp's [pretty].
  - A Python [float] is an element of an abstract type [pyfloat]
    rendered by [float_str] (Python's [repr]).
  - [None] is [option]'s [None]; a raised exception is [Raise].
  - The file system is the list of the paths that exist, in directory
    order; the external engines (downloader, separator, voice
    conversion, effects, mixer) are calls recorded in a log whose
    failures are decided by the environment. *)

From Stdlib Require Import ZArith Ascii String List Lia.
From stdpp Require Import base strings pretty list numbers.

Local Open Scope Z_scope.

(** ** Python strings *)

Module Str.

Definition to_list : string → list ascii := list_ascii_of_string.
Definition of_list : list ascii → string := string_of_list_ascii.

Definition len (s : string) : nat := String.length s.

(** [s.startswith(p)] *)
Fixpoint startswith (s p : string) : bool :=
  match p, s with
  | EmptyString, _ => true
  | String a p', String b s' => if decide (a = b) then startswith s' p' else false
  | String _ _, EmptyString => false
  end.

(** [s.endswith(p)] *)
Definition endswith (s p : string) : bool :=
  startswith (String.rev s) (String.rev p).

(** [c in s] for a one-character [c] *)
Fixpoint contains (c : ascii) (s : string) : bool :=
  match s with
  | EmptyString => false
  | String a s' => if decide (a = c) then true else contains c s'
  end.

Fixpoint forallb (P : ascii → bool) (s : string) : bool :=
  match s with
  | EmptyString => true
  | String a s' => P a && forallb P s'
  end.

(** [s.partition(c)], [None] when [c] does not occur *)
Fixpoint partition (c : ascii) (s : string) : option (string * string) :=
  match s with
  | EmptyString => None
  | String a s' =>
      if decide (a = c) then Some (EmptyString, s')
      else match partition c s' with
           | Some (l, r) => Some (String a l, r)
           | None => None
           end
  end.

(** [s.rpartition(c)], [None] when [c] does not occur *)
Fixpoint rpartition (c : ascii) (s : string) : option (string * string) :=
  match s with
  | EmptyString => None
  | String a s' =>
      match rpartition c s' with
      | Some (l, r) => Some (String a l, r)
      | None => if decide (a = c) then Some (EmptyString, s') else None
      end
  end.

(** [s.split(c)] for a one-character separator *)
Fixpoint split (c : ascii) (s : string) : list string :=
  match s with
  | EmptyString => [EmptyString]
  | String a s' =>
      match split c s' with
      | w :: ws => if decide (a = c) then EmptyString :: w :: ws else String a w :: ws
      | [] => [String a EmptyString]
      end
  end.

(** [s.lstrip(chars)], the characters given as a predicate *)
Fixpoint lstrip (P : ascii → bool) (s : string) : string :=
  match s with
  | EmptyString => EmptyString
  | String a s' => if P a then lstrip P s' else s
  end.

Definition rstrip (P : ascii → bool) (s : string) : string :=
  String.rev (lstrip P (String.rev s)).

Definition strip (P : ascii → bool) (s : string) : string :=
  rstrip P (lstrip P s).

(** removal of every character that satisfies [P] *)
Fixpoint remove (P : ascii → bool) (s : string) : string :=
  match s with
  | EmptyString => EmptyString
  | String a s' => if P a then remove P s' else String a (remove P s')
  end.

Fixpoint drop (n : nat) (s : string) : string :=
  match n, s with
  | O, _ => s
  | S n', String _ s' => drop n' s'
  | S _, EmptyString => EmptyString
  end.

Fixpoint take (n : nat) (s : string) : string :=
  match n, s with
  | O, _ => EmptyString
  | S n', String a s' => String a (take n' s')
  | S _, EmptyString => EmptyString
  end.

(** [s.replace(old, new)] for a non-empty [old]: the occurrences are
    replaced from left to right and do not overlap; [skip] counts the
    characters of a matched occurrence that are still to be dropped. *)
Fixpoint replace_go (old new : string) (skip : nat) (s : string) : string :=
  match s with
  | EmptyString => EmptyString
  | String a s' =>
      match skip with
      | S k => replace_go old new k s'
      | O =>
          if startswith s old
          then new +:+ replace_go old new (Nat.pred (len old)) s'
          else String a (replace_go old new O s')
      end
  end.

Definition replace (s old new : string) : string := replace_go old new O s.

Definition is_upper (c : ascii) : bool :=
  (65 <=? nat_of_ascii c)%nat && (nat_of_ascii c <=? 90)%nat.
Definition is_lower (c : ascii) : bool :=
  (97 <=? nat_of_ascii c)%nat && (nat_of_ascii c <=? 122)%nat.
Definition is_alpha (c : ascii) : bool := is_upper c || is_lower c.
Definition is_digit (c : ascii) : bool :=
  (48 <=? nat_of_ascii c)%nat && (nat_of_ascii c <=? 57)%nat.
Definition is_ascii (c : ascii) : bool := (nat_of_ascii c <? 128)%nat.

Definition lower_char (c : ascii) : ascii :=
  if is_upper c then ascii_of_nat (nat_of_ascii c + 32) else c.

(** [s.lower()]; bytes outside ASCII are left as they are *)
Fixpoint lower (s : string) : string :=
  match s with
  | EmptyString => EmptyString
  | String a s' => String (lower_char a) (lower s')
  end.

Definition eqb (a b : string) : bool := bool_decide (a = b).

End Str.

(** The one-character tests used by [lstrip] and [strip]. *)
Definition is_char (c : ascii) : ascii → bool := λ a, bool_decide (a = c).

(** The double quote character. *)
Definition dquote : ascii := "034"%char.

(** ** Results of fallible code *)

(** Exceptions carry their message.  [raise_exception] raises a plain
    [Exception] or, in the web interface, a [gr.Error]; the exceptions of
    the libraries are plain exceptions here, since the handler of
    [song_cover_pipeline] turns every one of them into its message. *)
Inductive exn : Type :=
| PyException (msg : string)
| GrError (msg : string).

Definition exn_msg (e : exn) : string :=
  match e with PyException m => m | GrError m => m end.

Inductive result (A : Type) : Type :=
| Ok (a : A)
| Raise (e : exn).
Arguments Ok {A} a.
Arguments Raise {A} e.

Definition rbind {A B} (m : result A) (k : A → result B) : result B :=
  match m with Ok a => k a | Raise e => Raise e end.

(** ** [os.path] (POSIX) *)

Module Path.

(** [os.path.join(a, b)] *)
Definition join (a b : string) : string :=
  if Str.startswith b "/" then b
  else if bool_decide (a = EmptyString) || Str.endswith a "/" then a +:+ b
  else a +:+ "/" +:+ b.

(** [os.path.basename(p)]: what follows the last slash *)
Definition basename (p : string) : string :=
  match Str.rpartition "/" p with
  | Some (_, r) => r
  | None => p
  end.

(** The directory part of [p] with its last slash. *)
Definition dirpart (p : string) : string :=
  match Str.rpartition "/" p with
  | Some (l, _) => l +:+ "/"
  | None => EmptyString
  end.

(** [os.path.splitext(p)]: the extension starts at the last dot of the
    last component, unless only dots precede it there. *)
Definition splitext (p : string) : string * string :=
  match Str.rpartition "." (basename p) with
  | Some (l, r) =>
      if Str.forallb (is_char ".") l then (p, EmptyString)
      else (dirpart p +:+ l, String "." r)
  | None => (p, EmptyString)
  end.

End Path.

(** ** [urllib.parse]

    [urlsplit], [urlparse], the [hostname] property, [unquote] and
    [parse_qs], as far as [get_youtube_video_id] and the pipeline use
    them.  Three checks of the library are left to the environment:
    the validation of a bracketed host, the NFKC check of a netloc with
    characters outside ASCII, and the decoding, with replacement, of
    percent-escapes that produce bytes outside ASCII. *)

Record urllib_env : Type := {
  bracket_fault : string → option string;  (* message of the [ValueError], if any *)
  nfkc_fault : string → option string;
  utf8_replace : string → string;
}.

Record ParseResult : Type := {
  scheme : string;
  netloc : string;
  path : string;
  params : string;
  query : string;
  fragment : string;
}.

Module Url.

(** the characters that [urlsplit] strips from the front of the URL *)
Definition c0_control_or_space (c : ascii) : bool := (nat_of_ascii c <=? 32)%nat.

(** tab, line feed and carriage return are removed from the URL *)
Definition unsafe_byte (c : ascii) : bool :=
  bool_decide (c = "009"%char) || bool_decide (c = "010"%char)
  || bool_decide (c = "013"%char).

Definition scheme_char (c : ascii) : bool :=
  Str.is_alpha c || Str.is_digit c
  || bool_decide (c = "+"%char) || bool_decide (c = "-"%char)
  || bool_decide (c = "."%char).

Definition first_is_alpha (s : string) : bool :=
  match s with
  | String a _ => Str.is_ascii a && Str.is_alpha a
  | EmptyString => false
  end.

(** the scheme, when the text before the first colon is one *)
Definition split_scheme (url : string) : string * string :=
  match Str.partition ":" url with
  | Some (pre, rest) =>
      if negb (bool_decide (pre = EmptyString)) && first_is_alpha url
         && Str.forallb scheme_char pre
      then (Str.lower pre, rest)
      else (EmptyString, url)
  | None => (EmptyString, url)
  end.

(** [_splitnetloc(url, 2)] on the text after the two slashes: the
    netloc ends before the first of [/], [?] and [#] *)
Fixpoint splitnetloc (s : string) : string * string :=
  match s with
  | EmptyString => (EmptyString, EmptyString)
  | String a s' =>
      if bool_decide (a = "/"%char) || bool_decide (a = "?"%char)
         || bool_decide (a = "#"%char)
      then (EmptyString, s)
      else let '(n, r) := splitnetloc s' in (String a n, r)
  end.

Definition split_first (c : ascii) (s : string) : string * string :=
  match Str.partition c s with
  | Some (l, r) => (l, r)
  | None => (s, EmptyString)
  end.

Definition check_netloc (U : urllib_env) (nl : string) : result unit :=
  if Str.forallb Str.is_ascii nl then Ok tt
  else match nfkc_fault U nl with
       | Some m => Raise (PyException m)
       | None => Ok tt
       end.

Definition check_brackets (U : urllib_env) (nl : string) : result unit :=
  let o := Str.contains "["%char nl in
  let c := Str.contains "]"%char nl in
  if (o && negb c) || (c && negb o) then Raise (PyException "Invalid IPv6 URL")
  else if o && c then
    match bracket_fault U nl with
    | Some m => Raise (PyException m)
    | None => Ok tt
    end
  else Ok tt.

(** [urlsplit(url)]: scheme, netloc, path, query, fragment *)
Definition urlsplit (U : urllib_env) (url : string)
  : result (string * string * string * string * string) :=
  let url := Str.lstrip c0_control_or_space url in
  let url := Str.remove unsafe_byte url in
  let '(sch, url) := split_scheme url in
  rbind (if Str.startswith url "//"
         then let '(nl, rest) := splitnetloc (Str.drop 2 url) in
              rbind (check_brackets U nl) (λ _, Ok (nl, rest))
         else Ok (EmptyString, url))
    (λ '(nl, url),
      let '(url, frag) := split_first "#" url in
      let '(url, qry) := split_first "?" url in
      rbind (check_netloc U nl) (λ _, Ok (sch, nl, url, qry, frag))).

Definition uses_params : list string :=
  [EmptyString; "ftp"; "hdl"; "prospero"; "http"; "imap"; "https"; "shttp";
   "rtsp"; "rtspu"; "sip"; "sips"; "mms"; "sftp"; "tel"].

(** [_splitparams(url)]: the parameters follow the first semicolon of
    the last path segment *)
Definition splitparams (url : string) : string * string :=
  match Str.rpartition "/" url with
  | Some (l, r) =>
      match Str.partition ";" r with
      | Some (a, b) => (l +:+ "/" +:+ a, b)
      | None => (url, EmptyString)
      end
  | None => split_first ";" url
  end.

(** [urlparse(url)] *)
Definition urlparse (U : urllib_env) (url : string) : result ParseResult :=
  rbind (urlsplit U url) (λ '(sch, nl, url, qry, frag),
    let '(url, prm) :=
      if bool_decide (sch ∈ uses_params) && Str.contains ";"%char url
      then splitparams url else (url, EmptyString) in
    Ok {| scheme := sch; netloc := nl; path := url; params := prm;
          query := qry; fragment := frag |}).

(** the [hostname] property: the host of the netloc without user
    information and port, in lower case (a zone after [%] keeps its case) *)
Definition hostname (r : ParseResult) : option string :=
  let hostinfo :=
    match Str.rpartition "@" (netloc r) with
    | Some (_, h) => h
    | None => netloc r
    end in
  let host :=
    match Str.partition "[" hostinfo with
    | Some (_, bracketed) => fst (split_first "]" bracketed)
    | None => fst (split_first ":" hostinfo)
    end in
  if bool_decide (host = EmptyString) then None
  else match Str.partition "%" host with
       | Some (h, zone) => Some (Str.lower h +:+ "%" +:+ zone)
       | None => Some (Str.lower host)
       end.

Definition hex_value (c : ascii) : option nat :=
  let n := nat_of_ascii c in
  if Str.is_digit c then Some (n - 48)%nat
  else if (97 <=? n)%nat && (n <=? 102)%nat then Some (n - 87)%nat
  else if (65 <=? n)%nat && (n <=? 70)%nat then Some (n - 55)%nat
  else None.

(** percent-decoding; the flag tells whether a decoded byte is outside
    ASCII *)
Fixpoint percent_decode (s : string) : string * bool :=
  match s with
  | EmptyString => (EmptyString, false)
  | String a s' =>
      let plain := let '(t, h) := percent_decode s' in (String a t, h) in
      if bool_decide (a = "%"%char) then
        match s' with
        | String x (String y s'') =>
            match hex_value x, hex_value y with
            | Some hx, Some hy =>
                let b := ascii_of_nat (16 * hx + hy) in
                let '(t, h) := percent_decode s'' in
                (String b t, h || negb (Str.is_ascii b))
            | _, _ => plain
            end
        | _ => plain
        end
      else plain
  end.

(** [unquote(s)] with the default [utf-8] and [replace] *)
Definition unquote (U : urllib_env) (s : string) : string :=
  let '(t, high) := percent_decode s in
  if high then utf8_replace U t else t.

Definition plus_to_space (s : string) : string := Str.replace s "+" " ".

(** [parse_qsl(qs)] with its defaults: fields without [=] and fields
    with a blank value are dropped *)
Definition parse_qsl (U : urllib_env) (qs : string) : list (string * string) :=
  omap (λ name_value,
          match Str.partition "=" name_value with
          | Some (n, v) =>
              if bool_decide (v = EmptyString) then None
              else Some (unquote U (plus_to_space n), unquote U (plus_to_space v))
          | None => None
          end)
       (Str.split "&" qs).

(** [parse_qs(qs).get(key)]: the values of [key] in their order, [None]
    when the key is absent *)
Definition parse_qs_get (U : urllib_env) (qs key : string) : option (list string) :=
  match omap (λ '(n, v), if bool_decide (n = key) then Some v else None)
             (parse_qsl U qs) with
  | [] => None
  | vs => Some vs
  end.

End Url.

(** ** [get_youtube_video_id] *)

Definition youtube_hosts : list string :=
  ["www.youtube.com"; "youtube.com"; "music.youtube.com"].

(** [l[i]] with its [IndexError] *)
Definition index {A} (l : list A) (i : nat) : result A :=
  match l !! i with
  | Some x => Ok x
  | None => Raise (PyException "list index out of range")
  end.

(** [get_youtube_video_id(url, ignore_playlist)]; the result is the
    returned string, or [None]. *)
Definition get_youtube_video_id (U : urllib_env) (url : string)
    (ignore_playlist : bool) : result (option string) :=
  rbind (Url.urlparse U url) (λ parsed_url,
    let hostname := default EmptyString (Url.hostname parsed_url) in
    let path := path parsed_url in
    if bool_decide (Str.lower hostname = "youtu.be") then
      Ok (Some (Str.lstrip (is_char "/") path))
    else if bool_decide (Str.lower hostname ∈ youtube_hosts) then
      match (if ignore_playlist then None
             else Url.parse_qs_get U (query parsed_url) "list") with
      | Some vs => rbind (index vs 0) (λ v, Ok (Some v))
      | None =>
          if bool_decide (path = "/watch") then
            match Url.parse_qs_get U (query parsed_url) "v" with
            | Some vs => rbind (index vs 0) (λ v, Ok (Some v))
            | None => Ok None
            end
          else if Str.startswith path "/watch/" then
            rbind (index (Str.split "/" path) 1) (λ v, Ok (Some v))
          else if Str.startswith path "/embed/" then
            rbind (index (Str.split "/" path) 2) (λ v, Ok (Some v))
          else if Str.startswith path "/v/" then
            rbind (index (Str.split "/" path) 2) (λ v, Ok (Some v))
          else Ok None
      end
    else Ok None).

(** ** [hashlib.blake2b]

    BLAKE2b with a 64-byte digest and no key, after RFC 7693, on 64-bit
    words held in [Z]. *)

Module Blake2b.

Definition w64 (x : Z) : Z := x mod 2 ^ 64.
Definition add64 (a b : Z) : Z := w64 (a + b).
Definition rotr64 (x n : Z) : Z :=
  Z.lor (Z.shiftr x n) (w64 (Z.shiftl x (64 - n))).

Definition IV : list Z :=
  [0x6a09e667f3bcc908; 0xbb67ae8584caa73b; 0x3c6ef372fe94f82b; 0xa54ff53a5f1d36f1;
   0x510e527fade682d1; 0x9b05688c2b3e6c1f; 0x1f83d9abfb41bd6b; 0x5be0cd19137e2179].

Definition SIGMA : list (list nat) :=
  [[ 0;  1;  2;  3;  4;  5;  6;  7;  8;  9; 10; 11; 12; 13; 14; 15];
   [14; 10;  4;  8;  9; 15; 13;  6;  1; 12;  0;  2; 11;  7;  5;  3];
   [11;  8; 12;  0;  5;  2; 15; 13; 10; 14;  3;  6;  7;  1;  9;  4];
   [ 7;  9;  3;  1; 13; 12; 11; 14;  2;  6;  5; 10;  4;  0; 15;  8];
   [ 9;  0;  5;  7;  2;  4; 10; 15; 14;  1; 11; 12;  6;  8;  3; 13];
   [ 2; 12;  6; 10;  0; 11;  8;  3;  4; 13;  7;  5; 15; 14;  1;  9];
   [12;  5;  1; 15; 14; 13;  4; 10;  0;  7;  6;  3;  9;  2;  8; 11];
   [13; 11;  7; 14; 12;  1;  3;  9;  5;  0; 15;  4;  8;  6;  2; 10];
   [ 6; 15; 14;  9; 11;  3;  0;  8; 12;  2; 13;  7;  1;  4; 10;  5];
   [10;  2;  8;  4;  7;  6;  1;  5; 15; 11;  9; 14;  3; 12; 13;  0]]%nat.

Definition get (v : list Z) (i : nat) : Z := nth i v 0.
Definition set (v : list Z) (i : nat) (x : Z) : list Z := <[i:=x]> v.

(** the mixing function G *)
Definition G (v : list Z) (a b c d : nat) (x y : Z) : list Z :=
  let va := add64 (add64 (get v a) (get v b)) x in
  let vd := rotr64 (Z.lxor (get v d) va) 32 in
  let vc := add64 (get v c) vd in
  let vb := rotr64 (Z.lxor (get v b) vc) 24 in
  let va := add64 (add64 va vb) y in
  let vd := rotr64 (Z.lxor vd va) 16 in
  let vc := add64 vc vd in
  let vb := rotr64 (Z.lxor vb vc) 63 in
  set (set (set (set v a va) b vb) c vc) d vd.

Definition round (m : list Z) (v : list Z) (s : list nat) : list Z :=
  let mi (i : nat) := get m (nth i s 0%nat) in
  let v := G v 0 4 8 12 (mi 0%nat) (mi 1%nat) in
  let v := G v 1 5 9 13 (mi 2%nat) (mi 3%nat) in
  let v := G v 2 6 10 14 (mi 4%nat) (mi 5%nat) in
  let v := G v 3 7 11 15 (mi 6%nat) (mi 7%nat) in
  let v := G v 0 5 10 15 (mi 8%nat) (mi 9%nat) in
  let v := G v 1 6 11 12 (mi 10%nat) (mi 11%nat) in
  let v := G v 2 7 8 13 (mi 12%nat) (mi 13%nat) in
  G v 3 4 9 14 (mi 14%nat) (mi 15%nat).

(** the compression function F: [t] is the number of bytes fed so far *)
Definition compress (h m : list Z) (t : Z) (last : bool) : list Z :=
  let v := h ++ IV in
  let v := set v 12 (Z.lxor (get v 12) (w64 t)) in
  let v := set v 13 (Z.lxor (get v 13) (w64 (Z.shiftr t 64))) in
  let v := if last then set v 14 (Z.lxor (get v 14) (2 ^ 64 - 1)) else v in
  let v := fold_left (round m) (SIGMA ++ take 2 SIGMA) v in
  map (λ i, Z.lxor (Z.lxor (get h i) (get v i)) (get v (i + 8))) (seq 0 8).

Definition le_word (bs : list Z) : Z := fold_right (λ b acc, b + 256 * acc) 0 bs.

Fixpoint le_bytes (n : nat) (x : Z) : list Z :=
  match n with
  | O => []
  | S k => x mod 256 :: le_bytes k (x / 256)
  end.

(** the sixteen words of a block, which is padded with zeros *)
Definition words (block : list Z) : list Z :=
  map (λ i, le_word (take 8 (drop (8 * i) (block ++ replicate 128 0)))) (seq 0 16).

Fixpoint blocks (fuel : nat) (h : list Z) (t : Z) (data : list Z) : list Z :=
  match fuel with
  | O => h
  | S k =>
      if (length data <=? 128)%nat
      then compress h (words data) (t + Z.of_nat (length data)) true
      else blocks k (compress h (words (take 128 data)) (t + 128) false)
                  (t + 128) (drop 128 data)
  end.

Definition digest (data : list Byte.byte) : list Byte.byte :=
  let h0 := set IV 0 (Z.lxor (get IV 0) 0x01010040) in
  let h := blocks (S (length data)) h0 0 (map (λ b, Z.of_N (Byte.to_N b)) data) in
  omap (λ z, Byte.of_N (Z.to_N z)) (flat_map (le_bytes 8) h).

Definition hex_digit (n : Z) : ascii :=
  ascii_of_nat (Z.to_nat (if n <? 10 then 48 + n else 87 + n)).

Definition hex (bs : list Byte.byte) : string :=
  fold_right (λ b s, let z := Z.of_N (Byte.to_N b) in
                     String (hex_digit (z / 16)) (String (hex_digit (z mod 16)) s))
             EmptyString bs.

(** The hash object: the bytes fed so far.  Repeated calls of [update]
    are equivalent to one call with the concatenation of the arguments. *)
Record hasher : Type := { fed : list Byte.byte }.

Definition new : hasher := {| fed := [] |}.
Definition update (h : hasher) (chunk : list Byte.byte) : hasher :=
  {| fed := fed h ++ chunk |}.
Definition hexdigest (h : hasher) : string := hex (digest (fed h)).

End Blake2b.

(** ** The world of a run *)

(** The calls that leave the program: what [display_progress] shows and
    what is asked of the file system and of the engines. *)
Inductive call : Type :=
| Print (message : string)
| Progress (message : string)
| OpenRead (path : string)
| Makedirs (path : string)
| Remove (path : string)
| YtDownload (link : string)
| LibrosaLoad (path : string)
| Ffmpeg (src dst : string)
| Separate (model input : string)
| RvcInfer (model_path index_path src dst : string) (pitch : Z) (f0 : string)
| Effects (src dst : string)
| SoxPitch (src dst : string) (semitones : Z)
| Mix (lead backing inst out fmt : string).

(** [paths]: the paths that exist (files and directories), in the order
    in which a directory lists them; [log]: the calls made so far. *)
Record world : Type := World {
  paths : list string;
  log : list call;
}.

(** What the program cannot decide by itself. *)
Record env : Type := {
  urllib : urllib_env;
  BASE_DIR : string;
  file_bytes : string → list Byte.byte;   (* the bytes of an input file *)
  is_mono : string → bool;                (* [wave.ndim == 1] after [librosa.load] *)
  yt_filename : string → option string;   (* the file name yt-dlp prepares, if it has a result *)
  fault : call → option string;           (* the call raises, with this message *)
  err_missing : string → string;          (* message of a library for a missing input *)
  err_none : string;                      (* message of [librosa.load(None)] *)
}.

(** State and exceptions. *)
Definition M (A : Type) : Type := world → result A * world.

Definition ret {A} (a : A) : M A := λ w, (Ok a, w).
Definition raise {A} (e : exn) : M A := λ w, (Raise e, w).
Definition bind {A B} (m : M A) (k : A → M B) : M B :=
  λ w, match m w with
       | (Ok a, w') => k a w'
       | (Raise e, w') => (Raise e, w')
       end.
Definition lift {A} (r : result A) : M A := λ w, (r, w).

Global Instance M_ret : MRet M := @ret.
Global Instance M_bind : MBind M := λ A B k m, bind m k.

Definition when (b : bool) (m : M unit) : M unit := if b then m else ret tt.

(** [for x in l: f(x)] *)
Fixpoint for_each {A} (l : list A) (f : A → M unit) : M unit :=
  match l with
  | [] => ret tt
  | x :: l' => f x ;; for_each l' f
  end.

Definition record (c : call) : M unit :=
  λ w, (Ok tt, {| paths := paths w; log := log w ++ [c] |}).

(** [os.path.exists(p)] *)
Definition path_exists (p : string) : M bool :=
  λ w, (Ok (bool_decide (p ∈ paths w)), w).

Definition add_path (p : string) (l : list string) : list string :=
  if bool_decide (p ∈ l) then l else l ++ [p].

Definition create (ps : list string) : M unit :=
  λ w, (Ok tt, {| paths := fold_left (λ l p, add_path p l) ps (paths w); log := log w |}).

Definition unlink (p : string) : M unit :=
  λ w, (Ok tt, {| paths := filter (λ q, q ≠ p) (paths w); log := log w |}).

(** The name under which directory [d] lists [p]: the [n] without a
    slash for which [os.path.join(d, n)] is [p]. *)
Definition child_name (d p : string) : option string :=
  let d' := if bool_decide (d = EmptyString) || Str.endswith d "/" then d
            else d +:+ "/" in
  if Str.startswith p d' then
    let n := Str.drop (Str.len d') p in
    if bool_decide (n = EmptyString) || Str.contains "/"%char n then None else Some n
  else None.

(** [os.listdir(d)] *)
Definition listdir (d : string) : M (list string) :=
  λ w, (Ok (omap (child_name d) (paths w)), w).

Section Program.

Variable E : env.

(** An external call: it is logged; it raises when one of the files it
    reads is missing or when the environment makes it fail; otherwise
    the files it writes exist afterwards. *)
Definition external (c : call) (reads writes : list string) : M unit :=
  record c ;;
  for_each reads (λ p,
    ex ← path_exists p;
    when (negb ex) (raise (PyException (err_missing E p)))) ;;
  match fault E c with
  | Some m => raise (PyException m)
  | None => create writes
  end.

(** [os.remove(p)] *)
Definition os_remove (p : string) : M unit :=
  record (Remove p) ;;
  match fault E (Remove p) with
  | Some m => raise (PyException m)
  | None => unlink p
  end.

(** [os.makedirs(p)] *)
Definition os_makedirs (p : string) : M unit := external (Makedirs p) [] [p].

Definition mdxnet_models_dir : string := Path.join (BASE_DIR E) "mdxnet_models".
Definition rvc_models_dir : string := Path.join (BASE_DIR E) "rvc_models".
Definition output_dir : string := Path.join (BASE_DIR E) "song_output".

(** [yt_download(link)]: the audio is extracted to an mp3 file next to
    the name that yt-dlp prepares; the returned path is that name with
    [.webm] and [.m4a] replaced by [.mp3]. *)
Definition yt_download (link : string) : M (option string) :=
  match yt_filename E link with
  | Some name =>
      external (YtDownload link) [] [fst (Path.splitext name) +:+ ".mp3"] ;;
      let download_path := Str.replace (Str.replace name ".webm" ".mp3") ".m4a" ".mp3" in
      ret (Some download_path)
  | None =>
      external (YtDownload link) [] [] ;;
      ret None
  end.

(** [display_progress(message, percent, is_webui, progress)]; the
    percentage is not kept. *)
Definition display_progress (message : string) (is_webui : bool) : M unit :=
  if is_webui then record (Progress message) else record (Print message).

(** [raise_exception(error_msg, is_webui)] *)
Definition raise_exception {A} (error_msg : string) (is_webui : bool) : M A :=
  if is_webui then raise (GrError error_msg) else raise (PyException error_msg).

(** [get_rvc_model(voice_model, is_webui)] *)
Definition get_rvc_model (voice_model : string) (is_webui : bool) : M (string * string) :=
  let model_dir := Path.join rvc_models_dir voice_model in
  ex ← path_exists model_dir;
  when (negb ex)
    (raise_exception ("Model directory " +:+ model_dir +:+ " does not exist.") is_webui) ;;
  files ← listdir model_dir;
  let '(rvc_model_filename, rvc_index_filename) :=
    fold_left (λ '(m, i) file,
                 let ext := snd (Path.splitext file) in
                 (if bool_decide (ext = ".pth") then Some file else m,
                  if bool_decide (ext = ".index") then Some file else i))
              files (None, None) in
  match rvc_model_filename with
  | None => raise_exception ("No model file exists in " +:+ model_dir +:+ ".") is_webui
  | Some model_filename =>
      let model_path := Path.join model_dir model_filename in
      let index_path :=
        match rvc_index_filename with
        | Some f => Path.join model_dir f
        | None => EmptyString
        end in
      ret (model_path, index_path)
  end.

(** One pass of the separator: [load_model], [separate] and the two
    [os.rename] of its outputs to [first] and [second]. *)
Definition separate_pass (model input first second : string) : M unit :=
  external (Separate model input) [input] [first; second].

(** [separation_uvr(filename, output)] *)
Definition separation_uvr (filename output : string)
  : M (string * string * string * string) :=
  let base_name := fst (Path.splitext (Path.basename filename)) in
  let instrumental_path := Path.join output (base_name +:+ "_Instrumental.wav") in
  let initial_vocals := Path.join output (base_name +:+ "_Vocals.wav") in
  let vocals_no_reverb := Path.join output (base_name +:+ "_Vocals (No Reverb).wav") in
  let vocals_reverb := Path.join output (base_name +:+ "_Vocals (Reverb).wav") in
  let main_vocals_dereverb := Path.join output (base_name +:+ "_Vocals_Main_DeReverb.wav") in
  let backup_vocals := Path.join output (base_name +:+ "_Vocals_Backup.wav") in
  separate_pass "model_bs_roformer_ep_317_sdr_12.9755.ckpt" filename
    instrumental_path initial_vocals ;;
  separate_pass "UVR-DeEcho-DeReverb.pth" initial_vocals
    vocals_no_reverb vocals_reverb ;;
  separate_pass "mel_band_roformer_karaoke_aufr33_viperx_sdr_10.1956.ckpt" vocals_no_reverb
    backup_vocals main_vocals_dereverb ;;
  ex ← path_exists vocals_reverb;
  when ex (os_remove vocals_reverb) ;;
  ret (vocals_no_reverb, instrumental_path, main_vocals_dereverb, backup_vocals).

(** The loop body of [get_audio_paths]. *)
Definition audio_paths_step (song_dir : string)
    (acc : option string * option string * option string * option string)
    (file : string) : option string * option string * option string * option string :=
  let '(orig_song_path, instrumentals_path, main_vocals_dereverb_path, backup_vocals_path) := acc in
  if Str.endswith file "_Instrumental.wav" then
    let instrumentals_path := Path.join song_dir file in
    (Some (Str.replace instrumentals_path "_Instrumental" EmptyString),
     Some instrumentals_path, main_vocals_dereverb_path, backup_vocals_path)
  else if Str.endswith file "_Vocals_Main_DeReverb.wav" then
    (orig_song_path, instrumentals_path, Some (Path.join song_dir file), backup_vocals_path)
  else if Str.endswith file "_Vocals_Backup.wav" then
    (orig_song_path, instrumentals_path, main_vocals_dereverb_path, Some (Path.join song_dir file))
  else acc.

(** [get_audio_paths(song_dir)] *)
Definition get_audio_paths (song_dir : string)
  : M (option string * option string * option string * option string) :=
  files ← listdir song_dir;
  ret (fold_left (audio_paths_step song_dir) files (None, None, None, None)).

(** [convert_to_stereo(audio_path)] *)
Definition convert_to_stereo (audio_path : option string) : M string :=
  match audio_path with
  | None => raise (PyException (err_none E))
  | Some audio_path =>
      external (LibrosaLoad audio_path) [audio_path] [] ;;
      if is_mono E audio_path then
        let stereo_path := fst (Path.splitext audio_path) +:+ "_stereo.wav" in
        external (Ffmpeg audio_path stereo_path) [audio_path] [stereo_path] ;;
        ret stereo_path
      else ret audio_path
  end.

(** [pitch_shift(audio_path, pitch_change)] *)
Definition pitch_shift (audio_path : string) (pitch_change : Z) : M string :=
  let output_path :=
    fst (Path.splitext audio_path) +:+ "_p" +:+ pretty pitch_change +:+ ".wav" in
  ex ← path_exists output_path;
  when (negb ex) (external (SoxPitch audio_path output_path pitch_change)
                           [audio_path] [output_path]) ;;
  ret output_path.

(** the argument of [f.read] in [get_hash] *)
Definition chunk_size : nat := Z.to_nat 8192.

(** The reading loop of [get_hash], [while chunk := f.read(size)]: [f]
    is what is left of the file. *)
Fixpoint read_chunks (size fuel : nat) (f : list Byte.byte) (file_hash : Blake2b.hasher)
  : option Blake2b.hasher :=
  match fuel with
  | O => None
  | S k =>
      match take size f with
      | [] => Some file_hash
      | chunk => read_chunks size k (drop size f) (Blake2b.update file_hash chunk)
      end
  end.

(** [get_hash(filepath)] *)
Definition get_hash (filepath : string) : M string :=
  external (OpenRead filepath) [filepath] [] ;;
  let f := file_bytes E filepath in
  match read_chunks chunk_size (S (length f)) f Blake2b.new with
  | Some file_hash => ret (Str.take 11 (Blake2b.hexdigest file_hash))
  | None => raise (PyException "read did not reach the end of the file")
  end.

(** [preprocess_song(song_input, song_id, is_webui, input_type, progress)] *)
Definition preprocess_song (song_input song_id : string) (is_webui : bool)
    (input_type : string)
  : M (string * string * string * string * string * string) :=
  orig_song_path ←
    (if bool_decide (input_type = "yt") then
       display_progress "[~] Downloading song..." is_webui ;;
       let song_link := default EmptyString (head (Str.split "&" song_input)) in
       yt_download song_link
     else if bool_decide (input_type = "local") then ret (Some song_input)
     else ret None);
  let song_output_dir := Path.join output_dir song_id in
  ex ← path_exists song_output_dir;
  when (negb ex) (os_makedirs song_output_dir) ;;
  orig_song_path ← convert_to_stereo orig_song_path;
  display_progress "[~] Separating Vocals from Instrumental..." is_webui ;;
  '(vocals_no_reverb, instrumental_path, main_vocals_dereverb, backup_vocals) ←
    separation_uvr orig_song_path song_output_dir;
  ret (orig_song_path, vocals_no_reverb, instrumental_path, main_vocals_dereverb,
       backup_vocals, main_vocals_dereverb).

(** [voice_change(...)]: the model files are looked up, then the
    inference writes [output_path]. *)
Definition voice_change (voice_model vocals_path output_path : string)
    (pitch_change : Z) (f0_method : string) (is_webui : bool) : M unit :=
  '(rvc_model_path, rvc_index_path) ← get_rvc_model voice_model is_webui;
  external (RvcInfer rvc_model_path rvc_index_path vocals_path output_path
                     pitch_change f0_method)
           [vocals_path] [output_path].

(** [add_audio_effects(audio_path, ...)] *)
Definition add_audio_effects (audio_path : string) : M string :=
  let output_path := fst (Path.splitext audio_path) +:+ "_mixed.wav" in
  external (Effects audio_path output_path) [audio_path] [output_path] ;;
  ret output_path.

(** [combine_audio(audio_paths, output_path, ..., output_format)] *)
Definition combine_audio (main backup inst output_path output_format : string) : M unit :=
  external (Mix main backup inst output_path output_format)
           [main; backup; inst] [output_path].

End Program.

(** ** [song_cover_pipeline] *)

Section Pipeline.

(** Python floats and their [repr]. *)
Context {pyfloat : Type}.
Variable float_str : pyfloat → string.
Variable E : env.

(** The arguments of [song_cover_pipeline]. *)
Record args : Type := {
  song_input : string;
  voice_model : string;
  pitch_change : Z;
  keep_files : bool;
  is_webui : bool;
  main_gain : Z;
  backup_gain : Z;
  inst_gain : Z;
  index_rate : pyfloat;
  filter_radius : Z;
  rms_mix_rate : pyfloat;
  f0_method : string;
  crepe_hop_length : Z;
  protect : pyfloat;
  pitch_change_all : Z;
  reverb_rm_size : pyfloat;
  reverb_wet : pyfloat;
  reverb_dry : pyfloat;
  reverb_damping : pyfloat;
  output_format : string;
}.

(** The six paths bound by lines 346-362: [vocals_path] and
    [main_vocals_path] may be [None]. *)
Record discovery : Type := {
  orig_song_path : string;
  vocals_path : option string;
  instrumentals_path : string;
  main_vocals_path : option string;
  backup_vocals_path : string;
  main_vocals_dereverb_path : string;
}.

(** The four output paths computed by lines 366-379. *)
Record artifacts : Type := {
  ai_vocals_path : string;
  ai_backing_path : string;
  ai_cover_path : string;
  ai_cover_backing_path : string;
}.

(** The paths held by the variables of a run when it returns;
    [mix_instrumentals_path] and [mix_backup_vocals_path] are
    [instrumentals_path] and [backup_vocals_path] as they stand after
    the overall pitch change. *)
Record locals : Type := {
  song_dir : string;
  found : discovery;
  names : artifacts;
  ai_vocals_mixed_path : string;
  ai_backing_mixed_path : string;
  mix_instrumentals_path : string;
  mix_backup_vocals_path : string;
}.

(** Lines 331-342: the kind of input, the input path and the song id. *)
Definition resolve_input (a : args) : M (string * string * string) :=
  parsed ← lift (Url.urlparse (urllib E) (song_input a));
  if bool_decide (scheme parsed = "https") then
    song_id ← lift (get_youtube_video_id (urllib E) (song_input a) true);
    match song_id with
    | None => raise_exception "Invalid YouTube url." (is_webui a)
    | Some song_id => ret ("yt", song_input a, song_id)
    end
  else
    let song_input := Str.strip (is_char dquote) (song_input a) in
    ex ← path_exists song_input;
    if ex : bool then
      song_id ← get_hash E song_input;
      ret ("local", song_input, song_id)
    else raise_exception (song_input +:+ " does not exist.") (is_webui a).

Definition preprocessed (r : string * string * string * string * string * string)
  : discovery :=
  let '(orig_song_path, vocals_path, instrumentals_path, main_vocals_path,
        backup_vocals_path, main_vocals_dereverb_path) := r in
  {| orig_song_path := orig_song_path; vocals_path := Some vocals_path;
     instrumentals_path := instrumentals_path; main_vocals_path := Some main_vocals_path;
     backup_vocals_path := backup_vocals_path;
     main_vocals_dereverb_path := main_vocals_dereverb_path |}.

(** Lines 344-362: preprocess the song, or take the paths found in the
    song directory. *)
Definition resolve_discovery (a : args) (input_type song_input song_id song_dir : string)
  : M discovery :=
  ex ← path_exists song_dir;
  if negb ex then
    os_makedirs E song_dir ;;
    r ← preprocess_song E song_input song_id (is_webui a) input_type;
    ret (preprocessed r)
  else
    paths ← get_audio_paths song_dir;
    match paths with
    | (Some orig_song_path, Some instrumentals_path,
       Some main_vocals_dereverb_path, Some backup_vocals_path) =>
        if keep_files a then
          r ← preprocess_song E song_input song_id (is_webui a) input_type;
          ret (preprocessed r)
        else
          ret {| orig_song_path := orig_song_path; vocals_path := None;
                 instrumentals_path := instrumentals_path;
                 main_vocals_path := Some main_vocals_dereverb_path;
                 backup_vocals_path := backup_vocals_path;
                 main_vocals_dereverb_path := main_vocals_dereverb_path |}
    | _ =>
        r ← preprocess_song E song_input song_id (is_webui a) input_type;
        ret (preprocessed r)
    end.

(** Lines 366-379: the names of the conversion artifacts and of the
    covers; [pitch_change] is the sum of line 364. *)
Definition artifact_paths (a : args) (song_dir orig_song_path : string) (pitch_change : Z)
  : artifacts :=
  let base_song_name := fst (Path.splitext (Path.basename orig_song_path)) in
  let algo_suffix :=
    if bool_decide (f0_method a = "mangio-crepe")
    then "_" +:+ pretty (crepe_hop_length a) else EmptyString in
  {| ai_vocals_path :=
       Path.join song_dir
         (base_song_name +:+ "_lead_" +:+ voice_model a +:+ "_p" +:+ pretty pitch_change
          +:+ "_i" +:+ float_str (index_rate a) +:+ "_fr" +:+ pretty (filter_radius a)
          +:+ "_rms" +:+ float_str (rms_mix_rate a) +:+ "_pro" +:+ float_str (protect a)
          +:+ "_" +:+ f0_method a +:+ algo_suffix +:+ ".wav");
     ai_backing_path :=
       Path.join song_dir
         (base_song_name +:+ "_backing_" +:+ voice_model a +:+ "_p" +:+ pretty pitch_change
          +:+ "_i" +:+ float_str (index_rate a) +:+ "_fr" +:+ pretty (filter_radius a)
          +:+ "_rms" +:+ float_str (rms_mix_rate a) +:+ "_pro" +:+ float_str (protect a)
          +:+ "_" +:+ f0_method a +:+ algo_suffix +:+ ".wav");
     ai_cover_path :=
       Path.join song_dir
         (base_song_name +:+ " (" +:+ voice_model a +:+ " Ver)." +:+ output_format a);
     ai_cover_backing_path :=
       Path.join song_dir
         (base_song_name +:+ " (" +:+ voice_model a +:+ " Ver With Backing)."
          +:+ output_format a) |}.

(** Lines 381-388: the two voice conversions, under one test. *)
Definition convert_stage (a : args) (d : discovery) (n : artifacts) (pitch_change : Z)
  : M unit :=
  ex ← path_exists (ai_vocals_path n);
  when (negb ex)
    (display_progress "[~] Converting lead voice using RVC..." (is_webui a) ;;
     voice_change E (voice_model a) (main_vocals_dereverb_path d) (ai_vocals_path n)
                  pitch_change (f0_method a) (is_webui a) ;;
     display_progress "[~] Converting backing voice using RVC..." (is_webui a) ;;
     voice_change E (voice_model a) (backup_vocals_path d) (ai_backing_path n)
                  pitch_change (f0_method a) (is_webui a)).

(** Lines 390-392. *)
Definition effects_stage (a : args) (n : artifacts) : M (string * string) :=
  display_progress "[~] Applying audio effects to Vocals..." (is_webui a) ;;
  ai_vocals_mixed_path ← add_audio_effects E (ai_vocals_path n);
  ai_backing_mixed_path ← add_audio_effects E (ai_backing_path n);
  ret (ai_vocals_mixed_path, ai_backing_mixed_path).

(** Lines 394-397: the overall pitch change rebinds [instrumentals_path]
    and [backup_vocals_path]. *)
Definition shift_stage (a : args) (d : discovery) : M (string * string) :=
  if bool_decide (pitch_change_all a ≠ 0) then
    display_progress "[~] Applying overall pitch change" (is_webui a) ;;
    instrumentals_path ← pitch_shift E (instrumentals_path d) (pitch_change_all a);
    backup_vocals_path ← pitch_shift E (backup_vocals_path d) (pitch_change_all a);
    ret (instrumentals_path, backup_vocals_path)
  else ret (instrumentals_path d, backup_vocals_path d).

(** Lines 399-403. *)
Definition mix_stage (a : args) (n : artifacts)
    (ai_vocals_mixed_path ai_backing_mixed_path instrumentals_path backup_vocals_path : string)
  : M unit :=
  display_progress "[~] Combining AI Vocals and Instrumentals..." (is_webui a) ;;
  combine_audio E ai_vocals_mixed_path backup_vocals_path instrumentals_path
                (ai_cover_path n) (output_format a) ;;
  combine_audio E ai_vocals_mixed_path ai_backing_mixed_path instrumentals_path
                (ai_cover_backing_path n) (output_format a).

(** Line 407-409: the files that the last step removes. *)
Definition intermediate_files (a : args) (l : locals) : list (option string) :=
  [vocals_path (found l); main_vocals_path (found l);
   Some (ai_vocals_mixed_path l); Some (ai_backing_mixed_path l)]
  ++ (if bool_decide (pitch_change_all a ≠ 0)
      then [Some (mix_instrumentals_path l); Some (mix_backup_vocals_path l)]
      else []).

(** Lines 410-412: [if file and os.path.exists(file): os.remove(file)] *)
Definition remove_if_exists (file : option string) : M unit :=
  match file with
  | Some file =>
      if bool_decide (file = EmptyString) then ret tt
      else ex ← path_exists file; when ex (os_remove E file)
  | None => ret tt
  end.

(** Lines 405-412. *)
Definition cleanup_stage (a : args) (l : locals) : M unit :=
  when (negb (keep_files a))
    (display_progress "[~] Removing intermediate audio files..." (is_webui a) ;;
     for_each (intermediate_files a l) remove_if_exists).

(** Lines 344-403: the stages before the removal of intermediate files. *)
Definition run_stages (a : args) (input_type song_input song_id : string) : M locals :=
  let song_dir := Path.join (output_dir E) song_id in
  d ← resolve_discovery a input_type song_input song_id song_dir;
  let pitch_change := pitch_change a + pitch_change_all a in
  let n := artifact_paths a song_dir (orig_song_path d) pitch_change in
  convert_stage a d n pitch_change ;;
  '(ai_vocals_mixed_path, ai_backing_mixed_path) ← effects_stage a n;
  '(instrumentals_path, backup_vocals_path) ← shift_stage a d;
  mix_stage a n ai_vocals_mixed_path ai_backing_mixed_path
            instrumentals_path backup_vocals_path ;;
  ret {| song_dir := song_dir; found := d; names := n;
         ai_vocals_mixed_path := ai_vocals_mixed_path;
         ai_backing_mixed_path := ai_backing_mixed_path;
         mix_instrumentals_path := instrumentals_path;
         mix_backup_vocals_path := backup_vocals_path |}.

(** Lines 326-403: the checks of the input and the stages. *)
Definition resolve_and_run (a : args) : M locals :=
  when (bool_decide (song_input a = EmptyString) || bool_decide (voice_model a = EmptyString))
    (raise_exception "Ensure that the song input field and voice model field is filled."
                     (is_webui a)) ;;
  display_progress "[~] Starting AI Cover Generation Pipeline..." (is_webui a) ;;
  '(input_type, song_input, song_id) ← resolve_input a;
  run_stages a input_type song_input song_id.

(** The body of the [try] block, lines 326-414. *)
Definition song_cover_body (a : args) : M locals :=
  l ← resolve_and_run a;
  cleanup_stage a l ;;
  ret l.

(** [song_cover_pipeline]: the body under [try], every exception raised
    again with its message by [raise_exception]. *)
Definition song_cover_pipeline (a : args) : M (string * string) :=
  λ w, match song_cover_body a w with
       | (Ok l, w') => (Ok (ai_cover_path (names l), ai_cover_backing_path (names l)), w')
       | (Raise e, w') => raise_exception (exn_msg e) (is_webui a) w'
       end.

End Pipeline.

(** ** Vocabulary of the properties *)

(** [s] starts with [p]; [s] ends with [p]. *)
Definition starts (s p : string) : Prop := ∃ k, s = p +:+ k.
Definition ends (s p : string) : Prop := ∃ k, s = k +:+ p.

(** The spelling of directory [d] in front of the names it holds. *)
Definition as_dir (d : string) : string :=
  if bool_decide (d = EmptyString) || Str.endswith d "/" then d else d +:+ "/".

Definition digit (c : ascii) : Prop :=
  c ∈ ["0"; "1"; "2"; "3"; "4"; "5"; "6"; "7"; "8"; "9"]%char.

(** The parameters of a run that the names of the conversion artifacts
    embed. *)
Inductive param : Type :=
| PVoiceModel | PPitchChange | PIndexRate | PFilterRadius | PRmsMixRate
| PProtect | PF0Method | PHopLength.

Section Params.

Context {pyfloat : Type}.
Implicit Types a : @args pyfloat.

(** [a] and [a'] give different values to parameter [x]. *)
Definition differ (x : param) a a' : Prop :=
  match x with
  | PVoiceModel => voice_model a ≠ voice_model a'
  | PPitchChange => pitch_change a ≠ pitch_change a'
  | PIndexRate => index_rate a ≠ index_rate a'
  | PFilterRadius => filter_radius a ≠ filter_radius a'
  | PRmsMixRate => rms_mix_rate a ≠ rms_mix_rate a'
  | PProtect => protect a ≠ protect a'
  | PF0Method => f0_method a ≠ f0_method a'
  | PHopLength => crepe_hop_length a ≠ crepe_hop_length a'
  end.

(** [a] and [a'] give the same value to every parameter of the names
    but [x]; the overall pitch change and the output format are the
    same too. *)
Definition same_except (x : param) a a' : Prop :=
  (x ≠ PVoiceModel → voice_model a = voice_model a') ∧
  (x ≠ PPitchChange → pitch_change a = pitch_change a') ∧
  (x ≠ PIndexRate → index_rate a = index_rate a') ∧
  (x ≠ PFilterRadius → filter_radius a = filter_radius a') ∧
  (x ≠ PRmsMixRate → rms_mix_rate a = rms_mix_rate a') ∧
  (x ≠ PProtect → protect a = protect a') ∧
  (x ≠ PF0Method → f0_method a = f0_method a') ∧
  (x ≠ PHopLength → crepe_hop_length a = crepe_hop_length a') ∧
  pitch_change_all a = pitch_change_all a' ∧
  output_format a = output_format a'.

End Params.

(** What a piece of the program may do to the world: it appends calls
    to the log, all of which satisfy [P], and a path that existed
    disappears only through a logged [Remove]. *)
Definition evolves (P : call → Prop) (w w' : world) : Prop :=
  ∃ l, log w' = log w ++ l ∧ Forall P l ∧
       ∀ p, p ∈ paths w → Remove p ∉ l → p ∈ paths w'.

Definition respects {A} (P : call → Prop) (m : M A) : Prop :=
  ∀ w r w', m w = (r, w') → evolves P w w'.

(** The calls of [display_progress]. *)
Definition is_message (c : call) : Prop :=
  match c with Print _ | Progress _ => True | _ => False end.

(** The calls of the stages that follow the discovery of the stems:
    messages, voice conversion, effects, pitch shift and mix. *)
Definition is_late_call (c : call) : Prop :=
  match c with
  | Print _ | Progress _ | RvcInfer _ _ _ _ _ _ | Effects _ _ | SoxPitch _ _ _
  | Mix _ _ _ _ _ => True
  | _ => False
  end.

(** The calls of preprocessing: download, stereo conversion and
    separation. *)
Definition is_preprocessing_call (c : call) : Prop :=
  match c with
  | YtDownload _ | LibrosaLoad _ | Ffmpeg _ _ | Separate _ _ => True
  | _ => False
  end.

(** The paths after [create]. *)
Definition created (ps : list string) (l : list string) : list string :=
  fold_left (λ l p, add_path p l) ps l.

(** The world after an external call that succeeds. *)
Definition after_call (c : call) (writes : list string) (w : world) : world :=
  {| paths := created writes (paths w); log := log w ++ [c] |}.

(** The calls of the discovery of the stems (lines 344-362): messages,
    creation of the song directory, download, stereo conversion,
    separation, and the removal of the reverb residual. *)
Definition is_discovery_call (c : call) : Prop :=
  match c with
  | Print _ | Progress _ | Makedirs _ | YtDownload _ | LibrosaLoad _ | Ffmpeg _ _
  | Separate _ _ => True
  | Remove p => ends p "_Vocals (Reverb).wav"
  | _ => False
  end.

(** The calls of the last step: its message and the removal of files
    among [files]. *)
Definition is_cleanup_call (files : list (option string)) (c : call) : Prop :=
  match c with
  | Print _ | Progress _ => True
  | Remove p => Some p ∈ files
  | _ => False
  end.

(** The call made by [display_progress]. *)
Definition message_call (message : string) (is_webui : bool) : call :=
  if is_webui then Progress message else Print message.

(** The three models of [separation_uvr], in the order of the passes. *)
Definition separation_models : list string :=
  ["model_bs_roformer_ep_317_sdr_12.9755.ckpt"; "UVR-DeEcho-DeReverb.pth";
   "mel_band_roformer_karaoke_aufr33_viperx_sdr_10.1956.ckpt"].

(** The calls [l] show a whole preprocessing: the download when the
    input is a link, the loading for the stereo conversion, and the
    three separation passes. *)
Definition preprocessing_calls (input_type : string) (l : list call) : Prop :=
  (input_type = "yt" → ∃ link, YtDownload link ∈ l) ∧
  (∃ p, LibrosaLoad p ∈ l) ∧
  ∀ model, model ∈ separation_models → ∃ input, Separate model input ∈ l.

(** The song directory [d] lists the three stems that
    [get_audio_paths] looks for. *)
Definition holds_stems (d : string) (w : world) : Prop :=
  ∀ suffix, suffix ∈ ["_Instrumental.wav"; "_Vocals_Main_DeReverb.wav"; "_Vocals_Backup.wav"] →
    ∃ p file, p ∈ paths w ∧ child_name d p = Some file ∧ Str.endswith file suffix = true.

(** The directory of voice model [vm] exists and lists a [.pth] file. *)
Definition model_available (E : env) (vm : string) (w : world) : Prop :=
  Path.join (rvc_models_dir E) vm ∈ paths w ∧
  ∃ p file, p ∈ paths w ∧ child_name (Path.join (rvc_models_dir E) vm) p = Some file ∧
            snd (Path.splitext file) = ".pth".

(** No call fails. *)
Definition no_fault (E : env) : Prop := ∀ c, fault E c = None.

(** Every path of [w] is a path of [w']. *)
Definition paths_kept (w w' : world) : Prop := ∀ p, p ∈ paths w → p ∈ paths w'.

(** What holds of the paths bound by lines 346-362 in the world [w]
    that they leave: the three stems exist and have their endings, the
    file bound to [main_vocals_path] is the main dereverbed vocals, and
    [vocals_path] is unset or the vocals without reverb. *)
Definition stems_ok (d : discovery) (w : world) : Prop :=
  instrumentals_path d ∈ paths w ∧
  main_vocals_dereverb_path d ∈ paths w ∧
  backup_vocals_path d ∈ paths w ∧
  ends (instrumentals_path d) "_Instrumental.wav" ∧
  ends (main_vocals_dereverb_path d) "_Vocals_Main_DeReverb.wav" ∧
  ends (backup_vocals_path d) "_Vocals_Backup.wav" ∧
  main_vocals_path d = Some (main_vocals_dereverb_path d) ∧
  (vocals_path d = None ∨
   ∃ v, vocals_path d = Some v ∧ ends v "_Vocals (No Reverb).wav").

(** What the loop of [get_audio_paths] has found comes from the listing. *)
Definition found_in (song_dir : string) (all : list string)
    (acc : option string * option string * option string * option string) : Prop :=
  let '(o, i, m, b) := acc in
  (is_Some o ↔ is_Some i) ∧
  (∀ x, i = Some x → ∃ f, f ∈ all ∧ x = Path.join song_dir f ∧ ends f "_Instrumental.wav") ∧
  (∀ x, m = Some x → ∃ f, f ∈ all ∧ x = Path.join song_dir f
                          ∧ ends f "_Vocals_Main_DeReverb.wav") ∧
  (∀ x, b = Some x → ∃ f, f ∈ all ∧ x = Path.join song_dir f ∧ ends f "_Vocals_Backup.wav").


(** The last step removes [p]: it is one of [files] and not the empty
    path. *)
Definition removed_by (files : list (option string)) (p : string) : Prop :=
  p ≠ EmptyString ∧ Some p ∈ files.

(** The name that [pitch_shift] gives to its output. *)
Definition shifted (audio_path : string) (k : Z) : string :=
  fst (Path.splitext audio_path) +:+ "_p" +:+ pretty k +:+ ".wav".

(** The name that [add_audio_effects] gives to its output. *)
Definition mixed (audio_path : string) : string :=
  fst (Path.splitext audio_path) +:+ "_mixed.wav".

(** The exception of [raise_exception]. *)
Definition exception_of (is_webui : bool) (msg : string) : exn :=
  if is_webui then GrError msg else PyException msg.

(** The world once the pipeline has announced its start. *)
Definition started (is_webui : bool) (w : world) : world :=
  {| paths := paths w;
     log := log w ++ [message_call "[~] Starting AI Cover Generation Pipeline..." is_webui] |}.

(** The end of [song_cover_pipeline]: the two covers, or the exception
    raised again by the handler. *)
Definition finish (is_webui : bool) (x : result locals * world)
  : result (string * string) * world :=
  match x with
  | (Ok l, w) => (Ok (ai_cover_path (names l), ai_cover_backing_path (names l)), w)
  | (Raise e, w) => (Raise (exception_of is_webui (exn_msg e)), w)
  end.

Definition is_conversion_call (c : call) : bool :=
  match c with RvcInfer _ _ _ _ _ _ => true | _ => false end.

(** ** A concrete setting for the examples *)

Definition plain_urllib : urllib_env :=
  {| bracket_fault := λ _, None; nfkc_fault := λ _, None; utf8_replace := λ s, s |}.

(** An environment in which no call fails; every input file holds the
    three bytes of [abc] and is in stereo. *)
Definition quiet_env : env :=
  {| urllib := plain_urllib;
     BASE_DIR := "/app";
     file_bytes := λ _, [Byte.x61; Byte.x62; Byte.x63];
     is_mono := λ _, false;
     yt_filename := λ _, Some "Title.webm";
     fault := λ _, None;
     err_missing := λ p, "No such file: " +:+ p;
     err_none := "expected str, bytes or os.PathLike object, not NoneType" |}.

(** The same environment, where the removal of [p] is denied. *)
Definition denying_env (p : string) : env :=
  {| urllib := plain_urllib;
     BASE_DIR := "/app";
     file_bytes := λ _, [Byte.x61; Byte.x62; Byte.x63];
     is_mono := λ _, false;
     yt_filename := λ _, Some "Title.webm";
     fault := λ c, match c with
                   | Remove q => if bool_decide (q = p) then Some "Permission denied" else None
                   | _ => None
                   end;
     err_missing := λ p, "No such file: " +:+ p;
     err_none := "expected str, bytes or os.PathLike object, not NoneType" |}.

(** The arguments of the example of the design document, with the
    defaults of the command line; the floats are given by their [repr]. *)
Definition alice_args (pitch_change : Z) (keep_files : bool) : @args string :=
  {| song_input := "/home/u/song.wav"; voice_model := "alice";
     pitch_change := pitch_change; keep_files := keep_files; is_webui := false;
     main_gain := 0; backup_gain := 0; inst_gain := 0;
     index_rate := "0.5"; filter_radius := 3; rms_mix_rate := "0.25";
     f0_method := "rmvpe"; crepe_hop_length := 128; protect := "0.33";
     pitch_change_all := 0;
     reverb_rm_size := "0.15"; reverb_wet := "0.2"; reverb_dry := "0.8";
     reverb_damping := "0.7"; output_format := "mp3" |}.

(** The same arguments with another pitch detection algorithm. *)
Definition alice_args_f0 (f0_method : string) : @args string :=
  {| song_input := "/home/u/song.wav"; voice_model := "alice";
     pitch_change := 2; keep_files := false; is_webui := false;
     main_gain := 0; backup_gain := 0; inst_gain := 0;
     index_rate := "0.5"; filter_radius := 3; rms_mix_rate := "0.25";
     f0_method := f0_method; crepe_hop_length := 128; protect := "0.33";
     pitch_change_all := 0;
     reverb_rm_size := "0.15"; reverb_wet := "0.2"; reverb_dry := "0.8";
     reverb_damping := "0.7"; output_format := "mp3" |}.

(** The same arguments for another input. *)
Definition alice_args_for (song_input : string) : @args string :=
  {| song_input := song_input; voice_model := "alice";
     pitch_change := 2; keep_files := false; is_webui := false;
     main_gain := 0; backup_gain := 0; inst_gain := 0;
     index_rate := "0.5"; filter_radius := 3; rms_mix_rate := "0.25";
     f0_method := "rmvpe"; crepe_hop_length := 128; protect := "0.33";
     pitch_change_all := 0;
     reverb_rm_size := "0.15"; reverb_wet := "0.2"; reverb_dry := "0.8";
     reverb_damping := "0.7"; output_format := "mp3" |}.

(** A world with the song and the voice model, before any run. *)
Definition fresh_world : world :=
  {| paths := ["/home/u/song.wav"; "/app/rvc_models/alice";
               "/app/rvc_models/alice/alice.pth"];
     log := [] |}.

(** The song directory of [/home/u/song.wav] in [quiet_env]. *)
Definition song_dir_abc : string := "/app/song_output/ba80a53f981".

(** A world left by a run that was interrupted after the separation. *)
Definition separated_world : world :=
  {| paths := ["/home/u/song.wav"; "/app/rvc_models/alice";
               "/app/rvc_models/alice/alice.pth";
               "/app/song_output/ba80a53f981";
               "/app/song_output/ba80a53f981/song_Instrumental.wav";
               "/app/song_output/ba80a53f981/song_Vocals.wav";
               "/app/song_output/ba80a53f981/song_Vocals (No Reverb).wav";
               "/app/song_output/ba80a53f981/song_Vocals_Backup.wav";
               "/app/song_output/ba80a53f981/song_Vocals_Main_DeReverb.wav"];
     log := [] |}.

(** A world left by a run that was interrupted between the two voice
    conversions: the lead output exists, the backing output does not. *)
Definition half_converted_world : world :=
  {| paths := paths separated_world ++
       ["/app/song_output/ba80a53f981/song_lead_alice_p2_i0.5_fr3_rms0.25_pro0.33_rmvpe.wav"];
     log := [] |}.

(** The endings of the files that the last step removes. *)
Definition intermediate_ending (p : string) : Prop :=
  ends p "_Vocals (No Reverb).wav" ∨ ends p "_Vocals_Main_DeReverb.wav" ∨
  ends p "_mixed.wav" ∨ ∃ c, digit c ∧ ends p (String c ".wav").

(** ** Vocabulary of the further properties *)

(** The characters of a video identifier: letters, digits, hyphen and
    underscore. *)
Definition id_char (c : ascii) : bool :=
  Str.is_alpha c || Str.is_digit c
  || bool_decide (c = "-"%char) || bool_decide (c = "_"%char).

Definition video_id (s : string) : Prop := Str.forallb id_char s = true.

(** The schemes of the links of the docstring of
    [get_youtube_video_id] and of the links accepted by the pipeline. *)
Definition link_schemes : list string := ["http"; "https"].

(** No occurrence of [old] begins inside [x] when [rest] follows. *)
Definition clear_of (old x rest : string) : Prop :=
  ∀ a b, x = a +:+ b → b ≠ EmptyString → Str.startswith (b +:+ rest) old = false.

(** [old] occurs in [s]. *)
Definition occurs (old s : string) : Prop := ∃ a b, s = a +:+ old +:+ b.

(** [p] is spelled with the directory [dir] in front. *)
Definition within (dir p : string) : Prop := starts p (as_dir dir).

(** A call that removes a path removes one spelled with [dir] in front. *)
Definition removes_within (dir : string) (c : call) : Prop :=
  match c with
  | Remove p => within dir p
  | _ => True
  end.

(** ** The command line *)

(** The arguments as the command line passes them to
    [song_cover_pipeline]: [is_webui] is left to its default, 0. *)
Definition as_cli {pyfloat : Type} (a : @args pyfloat) : @args pyfloat :=
  {| song_input := song_input a; voice_model := voice_model a;
     pitch_change := pitch_change a; keep_files := keep_files a; is_webui := false;
     main_gain := main_gain a; backup_gain := backup_gain a; inst_gain := inst_gain a;
     index_rate := index_rate a; filter_radius := filter_radius a;
     rms_mix_rate := rms_mix_rate a; f0_method := f0_method a;
     crepe_hop_length := crepe_hop_length a; protect := protect a;
     pitch_change_all := pitch_change_all a;
     reverb_rm_size := reverb_rm_size a; reverb_wet := reverb_wet a;
     reverb_dry := reverb_dry a; reverb_damping := reverb_damping a;
     output_format := output_format a |}.

(** The block under [if __name__ == '__main__'], lines 463-480, once the
    arguments are parsed: the folder of the voice model is looked for,
    the pipeline runs, and the path of the first cover is printed. *)
Definition cli_main {pyfloat : Type} (float_str : pyfloat → string) (E : env)
    (a : @args pyfloat) : M unit :=
  let rvc_dir := Path.join (rvc_models_dir E) (voice_model a) in
  ex ← path_exists rvc_dir;
  when (negb ex)
    (raise (PyException ("The folder " +:+ rvc_dir +:+ " does not exist."))) ;;
  '(cover_path, cover_with_backing) ← song_cover_pipeline float_str E (as_cli a);
  record (Print ("[+] Cover generated at " +:+ cover_path)).

(** [old] is found in [s]: the test of [occurs]. *)
Fixpoint finds (old s : string) : bool :=
  Str.startswith s old
  || match s with
     | String _ s' => finds old s'
     | EmptyString => false
     end.

(** A world in which the song directory of [/home/u/song.wav] exists
    and is empty. *)
Definition empty_dir_world : world :=
  {| paths := ["/home/u/song.wav"; "/app/rvc_models/alice";
               "/app/rvc_models/alice/alice.pth"; "/app/song_output/ba80a53f981"];
     log := [] |}.

(** * Properties *)
(** * Properties *)

(** ** Strings *)

Section StringFacts.

Implicit Types s t p k : string.

Lemma str_app_nil_l s : EmptyString +:+ s = s.
Proof. reflexivity. Qed.

Lemma str_app_cons (a : ascii) s t : String a s +:+ t = String a (s +:+ t).
Proof. reflexivity. Qed.

Lemma str_app_nil_r s : s +:+ EmptyString = s.
Proof. induction s as [|a s IH]; [done|]. by rewrite str_app_cons, IH. Qed.

Lemma str_app_assoc s t k : (s +:+ t) +:+ k = s +:+ t +:+ k.
Proof. induction s as [|a s IH]; [done|]. by rewrite !str_app_cons, IH. Qed.

Lemma to_list_app s t : Str.to_list (s +:+ t) = Str.to_list s ++ Str.to_list t.
Proof. induction s as [|a s IH]; [done|]. rewrite str_app_cons. simpl. by f_equal. Qed.

Lemma to_list_inj s t : Str.to_list s = Str.to_list t → s = t.
Proof.
  intros H. rewrite <- (string_of_list_ascii_of_string s),
    <- (string_of_list_ascii_of_string t).
  unfold Str.to_list in H. by rewrite H.
Qed.

Lemma of_list_app (l1 l2 : list ascii) :
  Str.of_list (l1 ++ l2) = Str.of_list l1 +:+ Str.of_list l2.
Proof. induction l1; simpl; rewrite ?str_app_cons; [done|by f_equal]. Qed.

Lemma of_to_list s : Str.of_list (Str.to_list s) = s.
Proof. apply string_of_list_ascii_of_string. Qed.

Lemma to_of_list (l : list ascii) : Str.to_list (Str.of_list l) = l.
Proof. apply list_ascii_of_string_of_list_ascii. Qed.

Lemma to_list_rev_app s t :
  Str.to_list (String.rev_app s t) = reverse (Str.to_list s) ++ Str.to_list t.
Proof.
  revert t. induction s as [|a s IH]; intros t; simpl; [done|].
  rewrite IH, reverse_cons. simpl. by rewrite <- List.app_assoc.
Qed.

Lemma to_list_rev s : Str.to_list (String.rev s) = reverse (Str.to_list s).
Proof. unfold String.rev. rewrite to_list_rev_app. simpl. by rewrite List.app_nil_r. Qed.

Lemma rev_involutive s : String.rev (String.rev s) = s.
Proof. apply to_list_inj. by rewrite !to_list_rev, reverse_involutive. Qed.

Lemma len_app s t : Str.len (s +:+ t) = (Str.len s + Str.len t)%nat.
Proof.
  induction s; rewrite ?str_app_cons; [done|]. unfold Str.len in *. simpl. by rewrite IHs.
Qed.

Lemma str_app_inj_r s t k : s +:+ k = t +:+ k → s = t.
Proof.
  intros H. apply to_list_inj. apply (f_equal Str.to_list) in H.
  rewrite !to_list_app in H. by apply app_inv_tail in H.
Qed.

Lemma startswith_spec s p : Str.startswith s p = true ↔ starts s p.
Proof.
  revert s. induction p as [|a p IH]; intros s; simpl.
  - destruct s; split; try done; intros _; by eexists.
  - destruct s as [|b s]; simpl.
    + split; [done|]. by intros [k Hk].
    + case_decide as Hab.
      * subst. rewrite IH. split; intros [k Hk]; exists k; rewrite ?str_app_cons in *; congruence.
      * split; [done|]. intros [k Hk]. rewrite str_app_cons in Hk. congruence.
Qed.

Lemma starts_list s p : starts s p ↔ Str.to_list p `prefix_of` Str.to_list s.
Proof.
  split.
  - intros [k ->]. rewrite to_list_app. by eexists.
  - intros [l Hl]. exists (Str.of_list l). apply to_list_inj.
    by rewrite to_list_app, to_of_list.
Qed.

Lemma ends_list s p : ends s p ↔ Str.to_list p `suffix_of` Str.to_list s.
Proof.
  split.
  - intros [k ->]. rewrite to_list_app. by eexists.
  - intros [l Hl]. exists (Str.of_list l). apply to_list_inj.
    by rewrite to_list_app, to_of_list.
Qed.

Lemma endswith_spec s p : Str.endswith s p = true ↔ ends s p.
Proof.
  unfold Str.endswith. rewrite startswith_spec, starts_list, ends_list.
  rewrite !to_list_rev. symmetry. apply suffix_prefix_reverse.
Qed.

Lemma ends_app s t p : ends t p → ends (s +:+ t) p.
Proof. intros [k ->]. exists (s +:+ k). by rewrite str_app_assoc. Qed.

Lemma ends_refl s : ends s s.
Proof. by exists EmptyString. Qed.

(** Two endings of one string: the shorter one ends the longer one. *)
Lemma ends_clash s p1 p2 :
  ends s p1 → ends s p2 →
  Str.endswith p1 p2 = false → Str.endswith p2 p1 = false → False.
Proof.
  intros H1 H2 N1 N2.
  apply ends_list in H1, H2.
  destruct (suffix_weak_total _ _ _ H1 H2) as [H|H]; apply ends_list, endswith_spec in H;
    congruence.
Qed.

Lemma contains_spec (c : ascii) s : Str.contains c s = true ↔ c ∈ Str.to_list s.
Proof.
  induction s as [|a s IH]; simpl.
  - split; [done|]. by intros ?%elem_of_nil.
  - case_decide; subst.
    + split; [intros _; apply list_elem_of_here|done].
    + rewrite IH. split; [by apply list_elem_of_further|].
      intros [?|?]%elem_of_cons; [congruence|done].
Qed.

Lemma contains_app (c : ascii) s t :
  Str.contains c (s +:+ t) = Str.contains c s || Str.contains c t.
Proof. induction s; rewrite ?str_app_cons; simpl; [done|]. by case_decide. Qed.

End StringFacts.

(** ** Paths *)

Section PathFacts.

Implicit Types s t p d n : string.

Lemma rpartition_none (c : ascii) s :
  Str.rpartition c s = None → Str.contains c s = false.
Proof.
  induction s as [|a s IH]; simpl; [done|].
  destruct (Str.rpartition c s) as [[??]|]; [done|].
  case_decide; [done|]. by intros _; apply IH.
Qed.

Lemma rpartition_some (c : ascii) s l r :
  Str.rpartition c s = Some (l, r) →
  s = l +:+ String c r ∧ Str.contains c r = false.
Proof.
  revert l r. induction s as [|a s IH]; intros l r; simpl; [done|].
  destruct (Str.rpartition c s) as [[l' r']|] eqn:Hs.
  - intros [= <- <-]. destruct (IH _ _ eq_refl) as [-> ?]. by rewrite str_app_cons.
  - case_decide; [|done]. intros [= <- <-]. subst. split; [done|].
    by apply rpartition_none.
Qed.

Lemma partition_some (c : ascii) s l r :
  Str.partition c s = Some (l, r) →
  s = l +:+ String c r ∧ Str.contains c l = false.
Proof.
  revert l. induction s as [|a s IH]; intros l; simpl; [done|].
  case_decide; subst.
  - by intros [= <- <-].
  - destruct (Str.partition c s) as [[l' r']|]; [|done].
    intros [= <- <-]. destruct (IH _ eq_refl) as [-> ?]. split; [done|].
    simpl. by case_decide.
Qed.

Lemma basename_no_slash p : Str.contains "/" (Path.basename p) = false.
Proof.
  unfold Path.basename. destruct (Str.rpartition "/" p) as [[l r]|] eqn:H.
  - by apply rpartition_some in H as [_ ?].
  - by apply rpartition_none.
Qed.

Lemma dirpart_basename p : p = Path.dirpart p +:+ Path.basename p.
Proof.
  unfold Path.dirpart, Path.basename.
  destruct (Str.rpartition "/" p) as [[l r]|] eqn:H; [|done].
  apply rpartition_some in H as [-> _]. by rewrite str_app_assoc.
Qed.

(** The root of [splitext] is a prefix of the path. *)
Lemma splitext_app p : p = fst (Path.splitext p) +:+ snd (Path.splitext p).
Proof.
  unfold Path.splitext.
  destruct (Str.rpartition "." (Path.basename p)) as [[l r]|] eqn:H; simpl;
    [|by rewrite str_app_nil_r].
  destruct (Str.forallb _ l); simpl; [by rewrite str_app_nil_r|].
  apply rpartition_some in H as [H _].
  rewrite str_app_assoc, <- H. apply dirpart_basename.
Qed.

Lemma splitext_no_slash p :
  Str.contains "/" p = false → Str.contains "/" (fst (Path.splitext p)) = false.
Proof.
  intros H. rewrite (splitext_app p), contains_app in H.
  by apply orb_false_elim in H as [? _].
Qed.

(** The base name of a song holds no slash. *)
Lemma base_name_no_slash p :
  Str.contains "/" (fst (Path.splitext (Path.basename p))) = false.
Proof. apply splitext_no_slash, basename_no_slash. Qed.

Lemma not_absolute s t :
  Str.contains "/" s = false → Str.startswith t "/" = false →
  Str.startswith (s +:+ t) "/" = false.
Proof.
  destruct s as [|a s]; [done|]. rewrite str_app_cons. simpl.
  case_decide; [done|]. intros _ _. by case_decide.
Qed.

Lemma join_relative d n :
  Str.startswith n "/" = false → Path.join d n = as_dir d +:+ n.
Proof.
  intros H. unfold Path.join, as_dir. rewrite H.
  destruct (_ || _); [done|]. by rewrite str_app_assoc.
Qed.

Lemma join_inj d n1 n2 :
  Str.startswith n1 "/" = false → Str.startswith n2 "/" = false →
  Path.join d n1 = Path.join d n2 → n1 = n2.
Proof.
  intros H1 H2. rewrite !join_relative by done. apply String.app_inj.
Qed.

Lemma join_ends d n suf : ends n suf → ends (Path.join d n) suf.
Proof.
  intros H. unfold Path.join.
  destruct (Str.startswith n "/"); [done|].
  destruct (_ || _); repeat apply ends_app; done.
Qed.

Lemma startswith_drop s p : Str.startswith s p = true → s = p +:+ Str.drop (Str.len p) s.
Proof.
  revert s. induction p as [|a p IH]; intros s; [done|].
  destruct s as [|b s]; simpl; [done|]. case_decide; [|done]. subst.
  intros H. rewrite str_app_cons. f_equal. by apply IH.
Qed.

(** A name listed by a directory is the name of an existing path. *)
Lemma child_name_join d p n : child_name d p = Some n → Path.join d n = p.
Proof.
  unfold child_name. fold (as_dir d).
  destruct (Str.startswith p (as_dir d)) eqn:Hp; [|done].
  destruct (bool_decide _ || Str.contains _ _) eqn:Hn; [done|].
  intros [= <-]. apply orb_false_elim in Hn as [Hne Hs].
  rewrite join_relative; [by rewrite <- startswith_drop|].
  destruct (Str.drop _ p) as [|a n]; [done|]. simpl in *.
  case_decide; [done|]. by case_decide.
Qed.

End PathFacts.

(** ** Decimal numerals *)

Ltac in_list := repeat first [apply list_elem_of_here | apply list_elem_of_further].

Lemma pretty_N_char_digit (x : N) : digit (pretty_N_char x).
Proof. unfold digit, pretty_N_char. repeat case_match; in_list. Qed.

Lemma pretty_N_go_ends (x : N) (s : string) : ends (pretty_N_go x s) s.
Proof.
  revert s. induction (N.lt_wf_0 x) as [x _ IH]; intros s.
  destruct (decide (x = 0)%N) as [->|].
  - rewrite pretty_N_go_0. apply ends_refl.
  - rewrite pretty_N_go_step by lia.
    destruct (IH (x `div` 10)%N) with (s := String (pretty_N_char (x `mod` 10)) s) as [k Hk].
    { apply N.div_lt; lia. }
    rewrite Hk. exists (k +:+ String (pretty_N_char (x `mod` 10)) EmptyString).
    by rewrite str_app_assoc.
Qed.

(** The numeral of an integer ends with a digit. *)
Lemma pretty_Z_last_digit (z : Z) :
  ∃ k c, pretty z = k +:+ String c EmptyString ∧ digit c.
Proof.
  assert (∀ x : N, ∃ k c, pretty x = k +:+ String c EmptyString ∧ digit c) as HN.
  { intros x. unfold pretty, pretty_N. case_decide.
    - exists EmptyString, "0"%char. split; [done|]. unfold digit. in_list.
    - rewrite pretty_N_go_step by lia.
      destruct (pretty_N_go_ends (x `div` 10)%N
                  (String (pretty_N_char (x `mod` 10)) EmptyString)) as [k ->].
      eexists _, _. split; [done|]. apply pretty_N_char_digit. }
  destruct z as [|p|p]; unfold pretty, pretty_Z.
  - exists EmptyString, "0"%char. split; [done|]. unfold digit. in_list.
  - apply (HN (Npos p)).
  - destruct (HN (Npos p)) as (k & c & Hk & Hc). exists ("-" +:+ k), c.
    split; [|done]. unfold pretty, pretty_positive. rewrite Hk. by rewrite str_app_assoc.
Qed.

(** ** Names of the artifacts *)

Section Names.

Context {pyfloat : Type}.
Variable float_str : pyfloat → string.
Hypothesis float_str_inj : ∀ x y, float_str x = float_str y → x = y.

Implicit Types a : @args pyfloat.

Abbreviation paths_of a song_dir orig :=
  (artifact_paths float_str a song_dir orig (pitch_change a + pitch_change_all a)).

Ltac same_fields Hsame H :=
  destruct Hsame as (Hvm & Hp & Hir & Hfr & Hrms & Hpro & Hf0 & Hhop & Hall & Hfmt);
  try (rewrite <- Hvm in H by done); try (rewrite <- Hp in H by done);
  try (rewrite <- Hir in H by done); try (rewrite <- Hfr in H by done);
  try (rewrite <- Hrms in H by done); try (rewrite <- Hpro in H by done);
  try (rewrite <- Hf0 in H by done); try (rewrite <- Hhop in H by done);
  try (rewrite <- Hall in H by done); try (rewrite <- Hfmt in H by done).

Ltac strip H := repeat (apply (inj (String.append _)) in H).

Lemma name_relative (orig : string) (c : ascii) (t : string) :
  c ≠ "/"%char →
  Str.startswith (fst (Path.splitext (Path.basename orig)) +:+ String c t) "/" = false.
Proof.
  intros Hc. apply not_absolute; [apply base_name_no_slash|].
  simpl. by case_decide.
Qed.

(** Changing the voice model, the pitch change, the index rate, the
    filter radius, the rms mix rate or the protect value changes both
    conversion paths. *)
Lemma conversion_paths_differ (x : param) a a' (song_dir orig : string) :
  x ≠ PF0Method → x ≠ PHopLength →
  same_except x a a' → differ x a a' →
  ai_vocals_path (paths_of a song_dir orig) ≠ ai_vocals_path (paths_of a' song_dir orig) ∧
  ai_backing_path (paths_of a song_dir orig) ≠ ai_backing_path (paths_of a' song_dir orig).
Proof.
  intros Hx1 Hx2 Hsame Hdiff. unfold artifact_paths; simpl.
  split; intros H; apply join_inj in H; try (by apply name_relative);
    destruct x; try done; simpl in Hdiff; same_fields Hsame H; strip H;
    apply str_app_inj_r in H; apply Hdiff;
    first [ done | by apply float_str_inj | by apply (inj pretty) in H; lia ].
Qed.

(** The hop length is part of the names exactly when the pitch
    detection algorithm is mangio-crepe. *)
Lemma hop_length_embedded a a' (song_dir orig : string) :
  same_except PHopLength a a' → differ PHopLength a a' →
  (f0_method a = "mangio-crepe" →
   ai_vocals_path (paths_of a song_dir orig) ≠ ai_vocals_path (paths_of a' song_dir orig) ∧
   ai_backing_path (paths_of a song_dir orig) ≠ ai_backing_path (paths_of a' song_dir orig)) ∧
  (f0_method a ≠ "mangio-crepe" →
   ai_vocals_path (paths_of a song_dir orig) = ai_vocals_path (paths_of a' song_dir orig) ∧
   ai_backing_path (paths_of a song_dir orig) = ai_backing_path (paths_of a' song_dir orig)).
Proof.
  intros Hsame Hdiff. simpl in Hdiff. unfold artifact_paths; simpl. split; intros Hf0m.
  - split; intros H; apply join_inj in H; try (by apply name_relative);
      same_fields Hsame H; rewrite Hf0m in H; simpl in H; strip H;
      apply str_app_inj_r in H; strip H; by apply (inj pretty) in H.
  - destruct Hsame as (Hvm & Hp & Hir & Hfr & Hrms & Hpro & Hf0 & Hhop & Hall & Hfmt).
    rewrite <- Hvm, <- Hp, <- Hir, <- Hfr, <- Hrms, <- Hpro, <- Hf0, <- Hall by done.
    by rewrite bool_decide_eq_false_2 by done.
Qed.

(** Two pitch detection algorithms give the same names only when one
    is mangio-crepe and the other is spelt as mangio-crepe followed by
    an underscore and the hop length. *)
Lemma f0_method_collision a a' (song_dir orig : string) :
  same_except PF0Method a a' → differ PF0Method a a' →
  ai_vocals_path (paths_of a song_dir orig) = ai_vocals_path (paths_of a' song_dir orig) ∨
  ai_backing_path (paths_of a song_dir orig) = ai_backing_path (paths_of a' song_dir orig) →
  (f0_method a = "mangio-crepe" ∧
   f0_method a' = "mangio-crepe_" +:+ pretty (crepe_hop_length a)) ∨
  (f0_method a' = "mangio-crepe" ∧
   f0_method a = "mangio-crepe_" +:+ pretty (crepe_hop_length a)).
Proof.
  intros Hsame Hdiff. simpl in Hdiff. unfold artifact_paths; simpl.
  assert (∀ t : string,
    f0_method a +:+ (if bool_decide (f0_method a = "mangio-crepe")
                     then "_" +:+ pretty (crepe_hop_length a) else EmptyString) +:+ t
    = f0_method a' +:+ (if bool_decide (f0_method a' = "mangio-crepe")
                        then "_" +:+ pretty (crepe_hop_length a) else EmptyString) +:+ t →
    (f0_method a = "mangio-crepe" ∧
     f0_method a' = "mangio-crepe_" +:+ pretty (crepe_hop_length a)) ∨
    (f0_method a' = "mangio-crepe" ∧
     f0_method a = "mangio-crepe_" +:+ pretty (crepe_hop_length a))) as Hcases.
  { intros t H. rewrite <- !str_app_assoc in H. apply str_app_inj_r in H.
    repeat case_bool_decide; rewrite ?str_app_nil_r in H.
    - congruence.
    - left. split; [done|]. rewrite <- H.
      match goal with Hm : f0_method _ = "mangio-crepe" |- _ => by rewrite Hm end.
    - right. split; [done|]. rewrite H.
      match goal with Hm : f0_method _ = "mangio-crepe" |- _ => by rewrite Hm end.
    - congruence. }
  intros [H|H]; apply join_inj in H; try (by apply name_relative);
    same_fields Hsame H; strip H; by apply Hcases in H.
Qed.

(** The names of the covers embed the base name of the song, the voice
    model and the output format only. *)
Lemma cover_paths_same a a' (song_dir orig : string) (p p' : Z) :
  voice_model a = voice_model a' → output_format a = output_format a' →
  ai_cover_path (artifact_paths float_str a song_dir orig p)
  = ai_cover_path (artifact_paths float_str a' song_dir orig p') ∧
  ai_cover_backing_path (artifact_paths float_str a song_dir orig p)
  = ai_cover_backing_path (artifact_paths float_str a' song_dir orig p').
Proof. intros Hvm Hfmt. unfold artifact_paths; simpl. by rewrite Hvm, Hfmt. Qed.

(** The covers of two voice models have different names. *)
Lemma cover_paths_differ a a' (song_dir orig : string) (p p' : Z) :
  voice_model a ≠ voice_model a' → output_format a = output_format a' →
  ai_cover_path (artifact_paths float_str a song_dir orig p)
  ≠ ai_cover_path (artifact_paths float_str a' song_dir orig p') ∧
  ai_cover_backing_path (artifact_paths float_str a song_dir orig p)
  ≠ ai_cover_backing_path (artifact_paths float_str a' song_dir orig p').
Proof.
  intros Hvm Hfmt. unfold artifact_paths; simpl. rewrite <- Hfmt.
  split; intros H; apply join_inj in H; try (by apply name_relative);
    strip H; by apply str_app_inj_r in H.
Qed.

End Names.

(** ** The monad *)

Section MonadFacts.

Context {A B : Type}.
Implicit Types (m : M A) (k : A → M B) (w : world).

Lemma bind_unfold m k w :
  (m ≫= k) w = match m w with
               | (Ok a, w') => k a w'
               | (Raise e, w') => (Raise e, w')
               end.
Proof. reflexivity. Qed.

Lemma bind_ok m k w a w1 : m w = (Ok a, w1) → (m ≫= k) w = k a w1.
Proof. intros H. by rewrite bind_unfold, H. Qed.

Lemma bind_raise m k w e w1 : m w = (Raise e, w1) → (m ≫= k) w = (Raise e, w1).
Proof. intros H. by rewrite bind_unfold, H. Qed.

Lemma bind_ok_inv m k w b w2 :
  (m ≫= k) w = (Ok b, w2) → ∃ a w1, m w = (Ok a, w1) ∧ k a w1 = (Ok b, w2).
Proof.
  rewrite bind_unfold. destruct (m w) as [[a|e] w1]; [|done]. intros H. by exists a, w1.
Qed.

Lemma bind_inv m k w r w2 :
  (m ≫= k) w = (r, w2) →
  (∃ a w1, m w = (Ok a, w1) ∧ k a w1 = (r, w2)) ∨
  (∃ e, m w = (Raise e, w2) ∧ r = Raise e).
Proof.
  rewrite bind_unfold. destruct (m w) as [[a|e] w1].
  - intros H. left. by exists a, w1.
  - intros [= <- <-]. right. by exists e.
Qed.

End MonadFacts.

(** ** How the world evolves *)

Section Evolution.

Implicit Types (P Q : call → Prop) (w : world).

Lemma evolves_refl P w : evolves P w w.
Proof. exists []. by rewrite app_nil_r. Qed.

Lemma evolves_trans P w1 w2 w3 : evolves P w1 w2 → evolves P w2 w3 → evolves P w1 w3.
Proof.
  intros (l1 & E1 & F1 & K1) (l2 & E2 & F2 & K2). exists (l1 ++ l2).
  split; [by rewrite E2, E1, app_assoc|]. split; [by apply Forall_app|].
  intros p Hp Hn. apply K2; [apply K1; [done|]|]; intros ?; apply Hn, elem_of_app; auto.
Qed.

Lemma evolves_weaken P Q w w' : (∀ c, P c → Q c) → evolves P w w' → evolves Q w w'.
Proof.
  intros HPQ (l & ? & HF & ?). exists l. split; [done|]. split; [|done].
  eapply Forall_impl; eauto.
Qed.

Lemma evolves_log P w w' c : evolves P w w' → c ∈ log w → c ∈ log w'.
Proof. intros (l & -> & _) ?. apply elem_of_app; auto. Qed.

Lemma respects_weaken {A} P Q (m : M A) :
  (∀ c, P c → Q c) → respects P m → respects Q m.
Proof. intros HPQ Hm w r w' H. eapply evolves_weaken; eauto. Qed.

Lemma respects_ret {A} P (a : A) : respects P (ret a).
Proof. intros w r w' [= <- <-]. apply evolves_refl. Qed.

Lemma respects_mret {A} P (a : A) : respects P (mret a : M A).
Proof. apply respects_ret. Qed.

Lemma respects_raise {A} P e : respects P (raise e : M A).
Proof. intros w r w' [= <- <-]. apply evolves_refl. Qed.

Lemma respects_lift {A} P (x : result A) : respects P (lift x).
Proof. intros w r w' [= <- <-]. apply evolves_refl. Qed.

Lemma respects_bind {A B} P (m : M A) (k : A → M B) :
  respects P m → (∀ a, respects P (k a)) → respects P (m ≫= k).
Proof.
  intros Hm Hk w r w' H. apply bind_inv in H as [(a & w1 & H1 & H2)|(e & H1 & _)].
  - eapply evolves_trans; [by eapply Hm|by eapply Hk].
  - by eapply Hm.
Qed.

Lemma respects_when P (b : bool) (m : M unit) : respects P m → respects P (when b m).
Proof. destruct b; [done|]. intros _. apply respects_ret. Qed.

Lemma respects_for_each {A} P (l : list A) (f : A → M unit) :
  (∀ x, x ∈ l → respects P (f x)) → respects P (for_each l f).
Proof.
  induction l as [|x l IH]; intros Hf; simpl; [apply respects_ret|].
  apply respects_bind; [apply Hf, list_elem_of_here|].
  intros _. apply IH. intros y Hy. apply Hf. by apply list_elem_of_further.
Qed.

Lemma respects_record P c : P c → respects P (record c).
Proof.
  intros Hc w r w' [= <- <-]. exists [c]. split; [done|]. split; [by constructor|done].
Qed.

Lemma respects_path_exists P p : respects P (path_exists p).
Proof. intros w r w' [= <- <-]. apply evolves_refl. Qed.

Lemma respects_listdir P d : respects P (listdir d).
Proof. intros w r w' [= <- <-]. apply evolves_refl. Qed.

Lemma elem_of_add_path p q (l : list string) : p ∈ add_path q l ↔ p ∈ l ∨ p = q.
Proof.
  unfold add_path. case_bool_decide.
  - split; [auto|]. by intros [?| ->].
  - rewrite elem_of_app, list_elem_of_singleton. done.
Qed.

Lemma elem_of_created p ps (l : list string) : p ∈ created ps l ↔ p ∈ l ∨ p ∈ ps.
Proof.
  unfold created. revert l. induction ps as [|q ps IH]; intros l; simpl.
  - split; [auto|]. intros [?|?%elem_of_nil]; done.
  - rewrite IH, elem_of_add_path, elem_of_cons. naive_solver.
Qed.

Lemma respects_create P ps : respects P (create ps).
Proof.
  intros w r w' [= <- <-]. exists []. simpl. rewrite app_nil_r.
  split; [done|]. split; [done|]. intros p Hp _. apply elem_of_created. auto.
Qed.

End Evolution.

(** ** The calls to the outside *)

Section Calls.

Variable E : env.
Implicit Types (P : call → Prop) (w : world) (c : call).

Lemma respects_external P c reads writes :
  P c → respects P (external E c reads writes).
Proof.
  intros Hc. unfold external.
  apply respects_bind; [by apply respects_record|]. intros _.
  apply respects_bind.
  - apply respects_for_each. intros p _.
    apply respects_bind; [apply respects_path_exists|]. intros ex.
    apply respects_when, respects_raise.
  - intros _. destruct (fault E c); [apply respects_raise|apply respects_create].
Qed.

Lemma respects_os_remove P p : P (Remove p) → respects P (os_remove E p).
Proof.
  intros HP w r w' H. unfold os_remove in H. rewrite bind_unfold in H. simpl in H.
  exists [Remove p]. destruct (fault E (Remove p)).
  - injection H as <- <-. simpl. split; [done|]. split; [by constructor|done].
  - injection H as <- <-. simpl. split; [done|]. split; [by constructor|].
    intros q Hq Hn. apply list_elem_of_filter. split; [|done].
    intros ->. apply Hn, list_elem_of_here.
Qed.

(** The reads of an external call that exist are no obstacle. *)
Lemma check_reads_ok (reads : list string) w :
  (∀ p, p ∈ reads → p ∈ paths w) →
  for_each reads (λ p, ex ← path_exists p;
                       when (negb ex) (raise (PyException (err_missing E p)))) w
  = (Ok tt, w).
Proof.
  induction reads as [|p reads IH]; intros H; simpl; [done|].
  rewrite bind_unfold, bind_unfold. simpl.
  rewrite bool_decide_eq_true_2 by (apply H, list_elem_of_here). simpl.
  apply IH. intros q Hq. by apply H, list_elem_of_further.
Qed.

Lemma check_reads_inv (reads : list string) w r w' :
  for_each reads (λ p, ex ← path_exists p;
                       when (negb ex) (raise (PyException (err_missing E p)))) w
  = (r, w') →
  w' = w ∧ ((r = Ok tt ∧ ∀ p, p ∈ reads → p ∈ paths w) ∨
            (∃ p, p ∈ reads ∧ p ∉ paths w ∧ r = Raise (PyException (err_missing E p)))).
Proof.
  induction reads as [|p reads IH]; simpl.
  - intros [= <- <-]. split; [done|]. left. split; [done|]. by intros ? ?%elem_of_nil.
  - rewrite bind_unfold, bind_unfold. simpl. case_bool_decide as Hp; simpl.
    + intros H. apply IH in H as [-> H]. split; [done|].
      destruct H as [[-> H]|(q & ? & ? & ->)].
      * left. split; [done|]. intros q [->|?]%elem_of_cons; auto.
      * right. exists q. split; [by apply list_elem_of_further|done].
    + intros [= <- <-]. split; [done|]. right. exists p.
      split; [apply list_elem_of_here|done].
Qed.

(** An external call whose inputs exist and which does not fail. *)
Lemma external_ok c reads writes w :
  (∀ p, p ∈ reads → p ∈ paths w) → fault E c = None →
  external E c reads writes w = (Ok tt, after_call c writes w).
Proof.
  intros Hr Hf. unfold external. rewrite bind_unfold. simpl.
  rewrite bind_unfold, check_reads_ok by done. by rewrite Hf.
Qed.

Lemma external_ok_inv c reads writes w u w' :
  external E c reads writes w = (Ok u, w') →
  (∀ p, p ∈ reads → p ∈ paths w) ∧ fault E c = None ∧ w' = after_call c writes w.
Proof.
  unfold external. rewrite bind_unfold. simpl. rewrite bind_unfold.
  destruct (for_each _ _ _) as [r w1] eqn:Hc.
  apply check_reads_inv in Hc as [-> [[-> Hr]|(p & _ & _ & ->)]]; [|done].
  destruct (fault E c); [done|]. by intros [= <- <-].
Qed.

(** An external call is logged, whatever its outcome. *)
Lemma external_logged c reads writes w r w' :
  external E c reads writes w = (r, w') → c ∈ log w'.
Proof.
  unfold external. rewrite bind_unfold. simpl. rewrite bind_unfold.
  destruct (for_each _ _ _) as [r1 w1] eqn:Hc.
  apply check_reads_inv in Hc as [-> Hc].
  assert (c ∈ log w ++ [c]) by (apply elem_of_app; right; apply list_elem_of_here).
  destruct r1; [|by intros [= <- <-]].
  destruct (fault E c); by intros [= <- <-].
Qed.

Lemma os_remove_ok p w :
  fault E (Remove p) = None →
  os_remove E p w = (Ok tt, {| paths := filter (λ q, q ≠ p) (paths w);
                              log := log w ++ [Remove p] |}).
Proof. intros Hf. unfold os_remove. rewrite bind_unfold. simpl. by rewrite Hf. Qed.

Lemma os_remove_fault p w m :
  fault E (Remove p) = Some m →
  os_remove E p w = (Raise (PyException m), {| paths := paths w; log := log w ++ [Remove p] |}).
Proof. intros Hf. unfold os_remove. rewrite bind_unfold. simpl. by rewrite Hf. Qed.

End Calls.

(** ** What each stage calls *)

Ltac respects_step :=
  first
    [ apply respects_ret | apply respects_mret | apply respects_raise
    | apply respects_lift | apply respects_path_exists | apply respects_listdir
    | apply respects_create
    | apply respects_when
    | apply respects_record
    | apply respects_external
    | apply respects_os_remove
    | apply respects_bind; [|intros ?]
    | progress cbv zeta
    | match goal with
      | |- respects _ (match ?x with _ => _ end) => destruct x
      | |- respects _ (if ?b then _ else _) => destruct b
      end ].

(** [known] proves the calls of the functions met on the way. *)
Ltac respects_with known := repeat first [ known | respects_step ]; try (simpl; done).
Ltac respects_auto := respects_with fail.

Section StageCalls.

Context {pyfloat : Type}.
Variable float_str : pyfloat → string.
Variable E : env.
Implicit Types (P : call → Prop) (a : @args pyfloat).

Lemma respects_raise_exception {A} P msg b : respects P (raise_exception msg b : M A).
Proof. unfold raise_exception. respects_auto. Qed.

Lemma respects_display_progress P msg b :
  (∀ c, is_message c → P c) → respects P (display_progress msg b).
Proof. intros HP. unfold display_progress. respects_auto; by apply HP. Qed.

Lemma late_display_progress msg b : respects is_late_call (display_progress msg b).
Proof. by apply respects_display_progress; intros []. Qed.

Lemma discovery_display_progress msg b :
  respects is_discovery_call (display_progress msg b).
Proof. by apply respects_display_progress; intros []. Qed.

Lemma respects_get_rvc_model P vm b : respects P (get_rvc_model E vm b).
Proof.
  unfold get_rvc_model. respects_with ltac:(apply respects_raise_exception).
Qed.

Lemma respects_voice_change vm src dst p f0 b :
  respects is_late_call (voice_change E vm src dst p f0 b).
Proof.
  unfold voice_change. apply respects_bind; [apply respects_get_rvc_model|].
  intros [mp ip]. by apply respects_external.
Qed.

Lemma respects_add_audio_effects p : respects is_late_call (add_audio_effects E p).
Proof. unfold add_audio_effects. respects_auto. Qed.

Lemma respects_pitch_shift p n : respects is_late_call (pitch_shift E p n).
Proof. unfold pitch_shift. respects_auto. Qed.

Lemma respects_combine_audio m b i o f : respects is_late_call (combine_audio E m b i o f).
Proof. unfold combine_audio. respects_auto. Qed.

Lemma respects_convert_stage a d n p :
  respects is_late_call (convert_stage E a d n p).
Proof.
  unfold convert_stage.
  respects_with ltac:(first [apply late_display_progress | apply respects_voice_change]).
Qed.

Lemma respects_effects_stage a n : respects is_late_call (effects_stage E a n).
Proof.
  unfold effects_stage.
  respects_with ltac:(first [apply late_display_progress | apply respects_add_audio_effects]).
Qed.

Lemma respects_shift_stage a d : respects is_late_call (shift_stage E a d).
Proof.
  unfold shift_stage.
  respects_with ltac:(first [apply late_display_progress | apply respects_pitch_shift]).
Qed.

Lemma respects_mix_stage a n x y z u : respects is_late_call (mix_stage E a n x y z u).
Proof.
  unfold mix_stage.
  respects_with ltac:(first [apply late_display_progress | apply respects_combine_audio]).
Qed.

Lemma respects_yt_download link : respects is_discovery_call (yt_download E link).
Proof. unfold yt_download. respects_auto. Qed.

Lemma respects_convert_to_stereo p : respects is_discovery_call (convert_to_stereo E p).
Proof. unfold convert_to_stereo. respects_auto. Qed.

Lemma respects_separation_uvr filename output :
  respects is_discovery_call (separation_uvr E filename output).
Proof.
  unfold separation_uvr, separate_pass. respects_auto.
  simpl. apply join_ends, ends_app, ends_refl.
Qed.

Lemma respects_preprocess_song si id b it :
  respects is_discovery_call (preprocess_song E si id b it).
Proof.
  unfold preprocess_song, os_makedirs.
  respects_with ltac:(first [ apply discovery_display_progress
                            | apply respects_yt_download
                            | apply respects_convert_to_stereo
                            | apply respects_separation_uvr ]).
Qed.

Lemma respects_get_audio_paths P d : respects P (get_audio_paths d).
Proof. unfold get_audio_paths. respects_auto. Qed.

Lemma respects_resolve_discovery a it si id dir :
  respects is_discovery_call (resolve_discovery E a it si id dir).
Proof.
  unfold resolve_discovery, os_makedirs.
  respects_with ltac:(first [ apply respects_preprocess_song
                            | apply respects_get_audio_paths ]).
Qed.

Lemma respects_remove_if_exists files (file : option string) :
  file ∈ files → respects (is_cleanup_call files) (remove_if_exists E file).
Proof. intros Hin. unfold remove_if_exists. respects_auto. Qed.

Lemma respects_cleanup_stage a l :
  respects (is_cleanup_call (intermediate_files a l)) (cleanup_stage E a l).
Proof.
  unfold cleanup_stage. apply respects_when.
  apply respects_bind; [by apply respects_display_progress; intros []|].
  intros _. apply respects_for_each. apply respects_remove_if_exists.
Qed.

End StageCalls.

(** ** Discovery of the stems *)

(** [ends_suffix] proves that a joined name ends with its last literal;
    [names_clash] refutes the equality of two names with different
    endings. *)
Ltac ends_suffix := repeat first [apply join_ends | apply ends_app]; apply ends_refl.
Ltac names_clash :=
  match goal with
  | Heq : ?x = ?y |- False =>
      eapply (ends_clash x); [ends_suffix | rewrite Heq; ends_suffix | done | done]
  end.

Section Discovery.

Context {pyfloat : Type}.
Variable float_str : pyfloat → string.
Variable E : env.
Implicit Types (a : @args pyfloat) (w : world).

Lemma elem_of_after_call p c writes w :
  p ∈ paths (after_call c writes w) ↔ p ∈ paths w ∨ p ∈ writes.
Proof. apply elem_of_created. Qed.

Lemma log_after_call c writes w : log (after_call c writes w) = log w ++ [c].
Proof. done. Qed.

(** A successful separation: where the four returned stems are, that
    three of them exist, and that the three passes were made. *)
Lemma separation_uvr_ok filename output w vnr inst main backup w' :
  separation_uvr E filename output w = (Ok (vnr, inst, main, backup), w') →
  let base_name := fst (Path.splitext (Path.basename filename)) in
  vnr = Path.join output (base_name +:+ "_Vocals (No Reverb).wav") ∧
  inst = Path.join output (base_name +:+ "_Instrumental.wav") ∧
  main = Path.join output (base_name +:+ "_Vocals_Main_DeReverb.wav") ∧
  backup = Path.join output (base_name +:+ "_Vocals_Backup.wav") ∧
  inst ∈ paths w' ∧ main ∈ paths w' ∧ backup ∈ paths w' ∧
  ∃ l, log w' = log w ++
         [Separate "model_bs_roformer_ep_317_sdr_12.9755.ckpt" filename;
          Separate "UVR-DeEcho-DeReverb.pth"
                   (Path.join output (base_name +:+ "_Vocals.wav"));
          Separate "mel_band_roformer_karaoke_aufr33_viperx_sdr_10.1956.ckpt" vnr] ++ l.
Proof.
  unfold separation_uvr, separate_pass. cbv zeta. intros H.
  apply bind_ok_inv in H as ([] & w1 & H1 & H).
  apply bind_ok_inv in H as ([] & w2 & H2 & H).
  apply bind_ok_inv in H as ([] & w3 & H3 & H).
  apply external_ok_inv in H1 as (_ & _ & ->).
  apply external_ok_inv in H2 as (_ & _ & ->).
  apply external_ok_inv in H3 as (_ & _ & ->).
  apply bind_ok_inv in H as (ex & w4 & [= <- <-] & H).
  apply bind_ok_inv in H as ([] & w5 & H5 & [= <- <- <- <- <-]).
  set (base := fst (Path.splitext (Path.basename filename))) in *.
  set (w3 := after_call _ _ (after_call _ _ (after_call _ _ w))) in *.
  assert (Path.join output (base +:+ "_Instrumental.wav") ∈ paths w3 ∧
          Path.join output (base +:+ "_Vocals_Main_DeReverb.wav") ∈ paths w3 ∧
          Path.join output (base +:+ "_Vocals_Backup.wav") ∈ paths w3) as (Hi & Hm & Hb).
  { unfold w3. rewrite !elem_of_after_call, !elem_of_cons. naive_solver. }
  do 4 (split; [done|]).
  destruct (bool_decide _) eqn:Hex; simpl in H5.
  - unfold os_remove in H5. rewrite bind_unfold in H5. simpl in H5.
    destruct (fault E _); [done|]. injection H5 as <-. simpl.
    rewrite !list_elem_of_filter.
    repeat split; try done.
    1-3: intros Heq; names_clash.
    eexists. rewrite <- !app_assoc. done.
  - injection H5 as <-. repeat split; try done. exists []. simpl.
    by rewrite <- !app_assoc.
Qed.

Lemma display_progress_spec msg b w :
  display_progress msg b w
  = (Ok tt, {| paths := paths w; log := log w ++ [message_call msg b] |}).
Proof. by destruct b. Qed.

Lemma yt_download_ok link w o w' :
  yt_download E link w = (Ok o, w') → log w' = log w ++ [YtDownload link].
Proof.
  unfold yt_download. destruct (yt_filename E link); intros H;
    apply bind_ok_inv in H as ([] & w1 & H1 & [= <- <-]);
    by apply external_ok_inv in H1 as (_ & _ & ->).
Qed.

Lemma convert_to_stereo_ok o w p w' :
  convert_to_stereo E o w = (Ok p, w') →
  ∃ p0 l, o = Some p0 ∧ log w' = log w ++ LibrosaLoad p0 :: l.
Proof.
  unfold convert_to_stereo. destruct o as [p0|]; [|done]. intros H.
  exists p0. apply bind_ok_inv in H as ([] & w1 & H1 & H).
  apply external_ok_inv in H1 as (_ & _ & ->).
  destruct (is_mono E p0).
  - apply bind_ok_inv in H as ([] & w2 & H2 & [= <- <-]).
    apply external_ok_inv in H2 as (_ & _ & ->). eexists. simpl.
    by rewrite <- app_assoc.
  - injection H as <- <-. by exists [].
Qed.

(** A successful preprocessing: the six returned paths, three of which
    are the stems that exist now, and the calls that were made. *)
Lemma preprocess_song_ok si id b it w r w' :
  preprocess_song E si id b it w = (Ok r, w') →
  ∃ orig l,
    let out := Path.join (output_dir E) id in
    let base_name := fst (Path.splitext (Path.basename orig)) in
    let vnr := Path.join out (base_name +:+ "_Vocals (No Reverb).wav") in
    let inst := Path.join out (base_name +:+ "_Instrumental.wav") in
    let main := Path.join out (base_name +:+ "_Vocals_Main_DeReverb.wav") in
    let backup := Path.join out (base_name +:+ "_Vocals_Backup.wav") in
    r = (orig, vnr, inst, main, backup, main) ∧
    inst ∈ paths w' ∧ main ∈ paths w' ∧ backup ∈ paths w' ∧
    log w' = log w ++ l ∧ preprocessing_calls it l.
Proof.
  unfold preprocess_song. cbv zeta. intros H.
  apply bind_ok_inv in H as (o & w1 & H1 & H).
  apply bind_ok_inv in H as (ex & w2 & [= <- <-] & H).
  apply bind_ok_inv in H as ([] & w3 & H3 & H).
  apply bind_ok_inv in H as (orig & w4 & H4 & H).
  apply bind_ok_inv in H as ([] & w5 & H5 & H).
  apply bind_ok_inv in H as ([[[vnr inst] main] backup] & w6 & H6 & [= <- <-]).
  rewrite display_progress_spec in H5. injection H5 as <-.
  apply separation_uvr_ok in H6 as (-> & -> & -> & -> & Hi & Hm & Hb & l6 & Hl6).
  apply convert_to_stereo_ok in H4 as (p0 & l4 & -> & Hl4).
  assert (∃ l3, log w3 = log w1 ++ l3) as [l3 Hl3].
  { destruct (negb _); simpl in H3.
    - apply external_ok_inv in H3 as (_ & _ & ->). by eexists.
    - injection H3 as <-. exists []. by rewrite app_nil_r. }
  assert (∃ l1, log w1 = log w ++ l1 ∧ (it = "yt" → ∃ link, YtDownload link ∈ l1))
    as (l1 & Hl1 & Hyt).
  { destruct (bool_decide (it = "yt")) eqn:Hit.
    - apply bind_ok_inv in H1 as ([] & w0 & H0 & H1).
      rewrite display_progress_spec in H0. injection H0 as <-.
      apply yt_download_ok in H1. eexists. split.
      + rewrite H1. simpl. by rewrite <- app_assoc.
      + intros _. eexists. apply list_elem_of_further, list_elem_of_here.
    - exists []. apply bool_decide_eq_false in Hit. split; [|done]. rewrite app_nil_r.
      destruct (bool_decide (it = "local")); by inversion H1. }
  exists orig. eexists. split; [done|]. do 3 (split; [done|]). split.
  - rewrite Hl6. simpl. rewrite Hl4, Hl3, Hl1. rewrite <- !app_assoc. done.
  - split; [|split].
    + intros Hit. destruct (Hyt Hit) as [link Hlink]. exists link.
      apply elem_of_app. by left.
    + exists p0. rewrite !elem_of_app, !elem_of_cons. eauto 20.
    + intros model Hmodel. unfold separation_models in Hmodel.
      rewrite !elem_of_cons in Hmodel.
      destruct Hmodel as [->|[->|[->|?%elem_of_nil]]]; [| | |done]; eexists;
        rewrite !elem_of_app, !elem_of_cons; eauto 20.
Qed.

(** The endings that [get_audio_paths] looks for exclude each other. *)
Lemma stem_endings_differ file :
  (Str.endswith file "_Vocals_Main_DeReverb.wav" = true →
   Str.endswith file "_Instrumental.wav" = false) ∧
  (Str.endswith file "_Vocals_Backup.wav" = true →
   Str.endswith file "_Instrumental.wav" = false ∧
   Str.endswith file "_Vocals_Main_DeReverb.wav" = false).
Proof.
  split; [intros H1|intros H1; split];
    match goal with |- ?x = false => destruct x eqn:H2; [exfalso|done] end;
    apply endswith_spec in H1, H2; exact (ends_clash file _ _ H1 H2 eq_refl eq_refl).
Qed.

Lemma audio_paths_sound song_dir all files acc :
  (∀ f, f ∈ files → f ∈ all) → found_in song_dir all acc →
  found_in song_dir all (fold_left (audio_paths_step song_dir) files acc).
Proof.
  revert acc. induction files as [|file files IH]; intros acc Hall Hacc; [done|].
  simpl. apply IH; [intros f Hf; by apply Hall, list_elem_of_further|].
  assert (file ∈ all) as Hfile by apply Hall, list_elem_of_here.
  destruct acc as [[[o i] m] b]. destruct Hacc as (Hoi & Hi & Hm & Hb).
  unfold audio_paths_step.
  destruct (Str.endswith file "_Instrumental.wav") eqn:H1;
    [|destruct (Str.endswith file "_Vocals_Main_DeReverb.wav") eqn:H2;
      [|destruct (Str.endswith file "_Vocals_Backup.wav") eqn:H3]];
    unfold found_in; (split; [|split; [|split]]); try done.
  all: intros x [= <-]; exists file; by rewrite <- endswith_spec.
Qed.

(** What the loop finds when the listing holds a file with each ending. *)
Lemma audio_paths_complete song_dir files o i m b o' i' m' b' :
  fold_left (audio_paths_step song_dir) files (o, i, m, b) = (o', i', m', b') →
  (is_Some i ∨ (∃ f, f ∈ files ∧ Str.endswith f "_Instrumental.wav" = true) → is_Some i') ∧
  (is_Some m ∨ (∃ f, f ∈ files ∧ Str.endswith f "_Vocals_Main_DeReverb.wav" = true)
   → is_Some m') ∧
  (is_Some b ∨ (∃ f, f ∈ files ∧ Str.endswith f "_Vocals_Backup.wav" = true) → is_Some b').
Proof.
  revert o i m b. induction files as [|file files IH]; intros o i m b; cbn [fold_left].
  - intros [= <- <- <- <-].
    repeat split; intros [?|(f & ?%elem_of_nil & _)]; done.
  - destruct (audio_paths_step song_dir (o, i, m, b) file) as [[[o1 i1] m1] b1] eqn:Hstep.
    intros Hfold. destruct (IH _ _ _ _ Hfold) as (IHi & IHm & IHb).
    destruct (stem_endings_differ file) as (Hmi & Hbi).
    unfold audio_paths_step in Hstep.
    split; [|split].
    + intros [Hs|(f & [->|Hf]%elem_of_cons & Hend)]; apply IHi; [| |by eauto].
      * left. destruct (Str.endswith file "_Instrumental.wav");
          [|destruct (Str.endswith file "_Vocals_Main_DeReverb.wav");
            [|destruct (Str.endswith file "_Vocals_Backup.wav")]];
          injection Hstep as <- <- <- <-; done.
      * left. rewrite Hend in Hstep. by injection Hstep as <- <- <- <-.
    + intros [Hs|(f & [->|Hf]%elem_of_cons & Hend)]; apply IHm; [| |by eauto].
      * left. destruct (Str.endswith file "_Instrumental.wav");
          [|destruct (Str.endswith file "_Vocals_Main_DeReverb.wav");
            [|destruct (Str.endswith file "_Vocals_Backup.wav")]];
          injection Hstep as <- <- <- <-; done.
      * left. rewrite (Hmi Hend), Hend in Hstep. by injection Hstep as <- <- <- <-.
    + intros [Hs|(f & [->|Hf]%elem_of_cons & Hend)]; apply IHb; [| |by eauto].
      * left. destruct (Str.endswith file "_Instrumental.wav");
          [|destruct (Str.endswith file "_Vocals_Main_DeReverb.wav");
            [|destruct (Str.endswith file "_Vocals_Backup.wav")]];
          injection Hstep as <- <- <- <-; done.
      * left. destruct (Hbi Hend) as [Hn1 Hn2]. rewrite Hn1, Hn2, Hend in Hstep.
        by injection Hstep as <- <- <- <-.
Qed.

Lemma elem_of_listdir d w file :
  file ∈ omap (child_name d) (paths w) → Path.join d file ∈ paths w.
Proof.
  intros (p & Hp & Hc)%list_elem_of_omap. by rewrite (child_name_join _ _ _ Hc).
Qed.

(** The paths that [get_audio_paths] returns exist and have their
    endings. *)
Lemma get_audio_paths_sound song_dir w o i m b w' :
  get_audio_paths song_dir w = (Ok (o, i, m, b), w') →
  w' = w ∧ (is_Some o ↔ is_Some i) ∧
  (∀ x, i = Some x → x ∈ paths w ∧ ends x "_Instrumental.wav") ∧
  (∀ x, m = Some x → x ∈ paths w ∧ ends x "_Vocals_Main_DeReverb.wav") ∧
  (∀ x, b = Some x → x ∈ paths w ∧ ends x "_Vocals_Backup.wav").
Proof.
  unfold get_audio_paths, listdir. rewrite bind_unfold. intros [= Heq <-].
  split; [done|].
  pose proof (audio_paths_sound song_dir (omap (child_name song_dir) (paths w))
                (omap (child_name song_dir) (paths w)) (None, None, None, None)) as Hs.
  rewrite Heq in Hs. destruct Hs as (Hoi & Hi & Hm & Hb); [done| |].
  { repeat split; try done; intros [? ?]; done. }
  split; [done|].
  split; [|split]; intros x Hx.
  - destruct (Hi _ Hx) as (f & Hf & -> & He).
    split; [by apply elem_of_listdir|by apply join_ends].
  - destruct (Hm _ Hx) as (f & Hf & -> & He).
    split; [by apply elem_of_listdir|by apply join_ends].
  - destruct (Hb _ Hx) as (f & Hf & -> & He).
    split; [by apply elem_of_listdir|by apply join_ends].
Qed.

(** A song directory that holds the three stems: all four paths are
    found. *)
Lemma get_audio_paths_complete song_dir w :
  holds_stems song_dir w →
  ∃ o i m b, get_audio_paths song_dir w = (Ok (Some o, Some i, Some m, Some b), w).
Proof.
  intros Hh. unfold get_audio_paths, listdir. rewrite bind_unfold.
  pose proof (audio_paths_sound song_dir (omap (child_name song_dir) (paths w))
                (omap (child_name song_dir) (paths w)) (None, None, None, None)) as Hs.
  destruct (fold_left _ _ _) as [[[o i] m] b] eqn:Hfold.
  apply audio_paths_complete in Hfold as (Hi & Hm & Hb).
  destruct Hs as (Hoi & _); [done| |].
  { repeat split; try done; intros [? ?]; done. }
  assert (∀ suffix, suffix ∈ ["_Instrumental.wav"; "_Vocals_Main_DeReverb.wav";
                               "_Vocals_Backup.wav"] →
          ∃ f, f ∈ omap (child_name song_dir) (paths w) ∧ Str.endswith f suffix = true)
    as Hfiles.
  { intros suffix Hsuf. destruct (Hh suffix Hsuf) as (p & file & Hp & Hc & He).
    exists file. split; [|done]. apply list_elem_of_omap. eauto. }
  destruct Hi as [i' ->]; [right; apply Hfiles; in_list|].
  destruct Hm as [m' ->]; [right; apply Hfiles; in_list|].
  destruct Hb as [b' ->]; [right; apply Hfiles; in_list|].
  destruct Hoi as [_ [o' ->]]; [done|]. by eexists _, _, _, _.
Qed.

End Discovery.

(** ** Lines 344-362: preprocess or reuse *)

Section Resolve.

Context {pyfloat : Type}.
Variable E : env.
Implicit Types (a : @args pyfloat) (w : world) (d : discovery).

(** With [keep_files] and an existing song directory the song is
    preprocessed, whatever the directory holds. *)
Lemma resolve_discovery_forced a it si id dir w :
  dir ∈ paths w → keep_files a = true →
  resolve_discovery E a it si id dir w
  = (r ← preprocess_song E si id (is_webui a) it; ret (preprocessed r)) w.
Proof.
  intros Hdir Hkeep. unfold resolve_discovery. rewrite bind_unfold. simpl.
  rewrite bool_decide_eq_true_2 by done. simpl.
  rewrite (bind_unfold (get_audio_paths dir)). unfold get_audio_paths at 1.
  rewrite bind_unfold. simpl.
  destruct (fold_left _ _ _) as [[[[o|] [i|]] [m|]] [b|]]; try done.
  by rewrite Hkeep.
Qed.

(** Without [keep_files], a song directory that holds the three stems
    is reused: nothing is called and the world is left as it is. *)
Lemma resolve_discovery_reuse a it si id dir w :
  dir ∈ paths w → holds_stems dir w → keep_files a = false →
  ∃ d, resolve_discovery E a it si id dir w = (Ok d, w) ∧
       vocals_path d = None ∧ stems_ok d w.
Proof.
  intros Hdir Hstems Hkeep. unfold resolve_discovery. rewrite bind_unfold. simpl.
  rewrite bool_decide_eq_true_2 by done. simpl.
  destruct (get_audio_paths_complete dir w Hstems) as (o & i & m & b & Hget).
  rewrite bind_unfold, Hget, Hkeep. eexists. split; [done|]. split; [done|].
  apply get_audio_paths_sound in Hget as (_ & _ & Hi & Hm & Hb).
  destruct (Hi _ eq_refl), (Hm _ eq_refl), (Hb _ eq_refl).
  unfold stems_ok. simpl. repeat split; auto.
Qed.

(** The two ways in which lines 344-362 succeed: the song was
    preprocessed, or the stems found in the song directory are reused. *)
Lemma resolve_discovery_ok a it si id dir w d w' :
  resolve_discovery E a it si id dir w = (Ok d, w') →
  stems_ok d w' ∧
  ((∃ l, log w' = log w ++ l ∧ preprocessing_calls it l) ∨
   (w' = w ∧ vocals_path d = None ∧ keep_files a = false ∧ dir ∈ paths w)).
Proof.
  assert (∀ w0 l0, log w0 = log w ++ l0 →
          (r ← preprocess_song E si id (is_webui a) it; ret (preprocessed r)) w0 = (Ok d, w') →
          stems_ok d w' ∧
          ∃ l, log w' = log w ++ l ∧ preprocessing_calls it l) as Hpre.
  { intros w0 l0 Hl0 H. apply bind_ok_inv in H as (r & w1 & H1 & [= <- <-]).
    apply preprocess_song_ok in H1 as (orig & l & -> & Hi & Hm & Hb & Hl & Hcalls).
    split.
    - unfold stems_ok. simpl. repeat split; try done; try ends_suffix.
      right. eexists. split; [done|]. ends_suffix.
    - exists (l0 ++ l). split; [by rewrite Hl, Hl0, app_assoc|].
      destruct Hcalls as (Hyt & [p Hp] & Hsep). split; [|split].
      + intros Hit. destruct (Hyt Hit) as [link ?]. exists link. apply elem_of_app; auto.
      + exists p. apply elem_of_app; auto.
      + intros model Hmodel. destruct (Hsep _ Hmodel) as [input ?]. exists input.
        apply elem_of_app; auto. }
  unfold resolve_discovery. rewrite bind_unfold. simpl.
  destruct (bool_decide (dir ∈ paths w)) eqn:Hdir; simpl.
  - apply bool_decide_eq_true in Hdir.
    rewrite bind_unfold. destruct (get_audio_paths _ w) as [[[[[o i] m] b]|e] w1] eqn:Hget;
      [|done].
    apply get_audio_paths_sound in Hget as (-> & _ & Hi & Hm & Hb).
    assert (log w = log w ++ []) as Hnil by (by rewrite app_nil_r).
    destruct o as [o|]; [|intros H; destruct (Hpre _ _ Hnil H); auto].
    destruct i as [i|]; [|intros H; destruct (Hpre _ _ Hnil H); auto].
    destruct m as [m|]; [|intros H; destruct (Hpre _ _ Hnil H); auto].
    destruct b as [b|]; [|intros H; destruct (Hpre _ _ Hnil H); auto].
    destruct (keep_files a) eqn:Hkeep; [intros H; destruct (Hpre _ _ Hnil H); auto|].
    intros [= <- <-]. destruct (Hi _ eq_refl), (Hm _ eq_refl), (Hb _ eq_refl).
    split; [unfold stems_ok; simpl; repeat split; auto|]. by right.
  - intros H. apply bind_ok_inv in H as ([] & w1 & H1 & H).
    apply external_ok_inv in H1 as (_ & _ & ->).
    destruct (Hpre (after_call (Makedirs dir) [dir] w) [Makedirs dir] eq_refl H); auto.
Qed.

(** Lines 344-362 call the separator unless the stems are reused. *)
Lemma resolve_discovery_reuse_only a it si id dir w d w' :
  resolve_discovery E a it si id dir w = (Ok d, w') →
  (∀ l input, log w' = log w ++ l → Separate "UVR-DeEcho-DeReverb.pth" input ∉ l) →
  w' = w ∧ keep_files a = false ∧ dir ∈ paths w ∧
  ∃ o i m b, get_audio_paths dir w = (Ok (Some o, Some i, Some m, Some b), w).
Proof.
  intros H Hno.
  assert (∀ w0 l0, log w0 = log w ++ l0 →
          (r ← preprocess_song E si id (is_webui a) it; ret (preprocessed r)) w0 = (Ok d, w') →
          False) as Hpre.
  { intros w0 l0 Hl0 H0. apply bind_ok_inv in H0 as (r & w1 & H1 & [= <- <-]).
    apply preprocess_song_ok in H1 as (orig & l & -> & Hi & Hm & Hb & Hl & Hcalls).
    destruct Hcalls as (_ & _ & Hsep).
    destruct (Hsep "UVR-DeEcho-DeReverb.pth") as [input Hin];
      [unfold separation_models; in_list|].
    apply (Hno (l0 ++ l) input); [by rewrite Hl, Hl0, app_assoc|].
    apply elem_of_app; auto. }
  revert H. unfold resolve_discovery. rewrite bind_unfold. simpl.
  assert (log w = log w ++ []) as Hnil by (by rewrite app_nil_r).
  destruct (bool_decide (dir ∈ paths w)) eqn:Hdir; simpl.
  - apply bool_decide_eq_true in Hdir.
    rewrite bind_unfold. destruct (get_audio_paths _ w) as [[[[[o i] m] b]|e] w1] eqn:Hget;
      [|done].
    pose proof Hget as Hget'.
    apply get_audio_paths_sound in Hget' as (-> & _).
    destruct o as [o|]; [|intros H; destruct (Hpre _ _ Hnil H)].
    destruct i as [i|]; [|intros H; destruct (Hpre _ _ Hnil H)].
    destruct m as [m|]; [|intros H; destruct (Hpre _ _ Hnil H)].
    destruct b as [b|]; [|intros H; destruct (Hpre _ _ Hnil H)].
    destruct (keep_files a) eqn:Hkeep; [intros H; destruct (Hpre _ _ Hnil H)|].
    intros [= <- <-]. repeat split; try done. by eexists _, _, _, _.
  - intros H. apply bind_ok_inv in H as ([] & w1 & H1 & H).
    apply external_ok_inv in H1 as (_ & _ & ->).
    destruct (Hpre (after_call (Makedirs dir) [dir] w) [Makedirs dir] eq_refl H).
Qed.

End Resolve.

(** ** The stages after the discovery *)

Section LateStages.

Context {pyfloat : Type}.
Variable float_str : pyfloat → string.
Variable E : env.
Implicit Types (a : @args pyfloat) (w : world) (d : discovery) (n : artifacts).

Lemma paths_kept_refl w : paths_kept w w.
Proof. by intros p. Qed.

Lemma paths_kept_trans w1 w2 w3 : paths_kept w1 w2 → paths_kept w2 w3 → paths_kept w1 w3.
Proof. intros H1 H2 p Hp. by apply H2, H1. Qed.

Lemma paths_kept_after_call c writes w : paths_kept w (after_call c writes w).
Proof. intros p Hp. apply elem_of_after_call. auto. Qed.

Lemma written_after_call c writes w p : p ∈ writes → p ∈ paths (after_call c writes w).
Proof. intros Hp. apply elem_of_after_call. auto. Qed.

(** The stages after the discovery remove nothing. *)
Lemma late_calls_keep_paths w w' : evolves is_late_call w w' → paths_kept w w'.
Proof.
  intros (l & _ & Hl & Hkeep) p Hp. apply Hkeep; [done|].
  intros Hin. by apply (proj1 (list.Forall_forall _ _) Hl) in Hin.
Qed.

Lemma model_available_kept vm w w' :
  paths_kept w w' → model_available E vm w → model_available E vm w'.
Proof. intros Hk (Hdir & p & file & Hp & Hc & Hext). split; [auto|]. eauto 10. Qed.

(** The loop of [get_rvc_model] finds a model file when there is one. *)
Lemma find_model_file files acc :
  (is_Some (fst acc) ∨ ∃ file, file ∈ files ∧ snd (Path.splitext file) = ".pth") →
  is_Some (fst (fold_left
    (λ '(m, i) file,
       let ext := snd (Path.splitext file) in
       (if bool_decide (ext = ".pth") then Some file else m,
        if bool_decide (ext = ".index") then Some file else i))
    files acc)).
Proof.
  revert acc. induction files as [|file files IH]; intros [m i]; simpl.
  - intros [?|(f & ?%elem_of_nil & _)]; done.
  - intros H. apply IH. simpl.
    destruct H as [H|(f & [->|Hf]%elem_of_cons & Hext)].
    + left. by case_bool_decide.
    + left. by rewrite bool_decide_eq_true_2.
    + right. eauto.
Qed.

Lemma get_rvc_model_ok vm b w :
  model_available E vm w → ∃ r, get_rvc_model E vm b w = (Ok r, w).
Proof.
  intros (Hdir & p & file & Hp & Hc & Hext). unfold get_rvc_model. cbv zeta.
  rewrite bind_unfold. simpl. rewrite bool_decide_eq_true_2 by done. simpl.
  rewrite bind_unfold. simpl. rewrite bind_unfold. simpl.
  pose proof (find_model_file (omap (child_name (Path.join (rvc_models_dir E) vm)) (paths w))
                (None, None)) as Hfind.
  destruct (fold_left _ _ _) as [[m|] i].
  - by eexists.
  - destruct Hfind as [? ?]; [|done]. right. exists file. split; [|done].
    apply list_elem_of_omap. eauto.
Qed.

Lemma voice_change_ok vm src dst p f0 b w :
  no_fault E → model_available E vm w → src ∈ paths w →
  ∃ mp ip, voice_change E vm src dst p f0 b w
           = (Ok tt, after_call (RvcInfer mp ip src dst p f0) [dst] w).
Proof.
  intros Hnf Hm Hsrc. unfold voice_change.
  destruct (get_rvc_model_ok vm b w Hm) as [[mp ip] Hget].
  exists mp, ip. rewrite bind_unfold, Hget.
  apply external_ok; [|apply Hnf]. by intros q ->%list_elem_of_singleton.
Qed.

(** Lines 381-388 when the lead output exists: nothing is converted. *)
Lemma convert_stage_skip a d n p w :
  ai_vocals_path n ∈ paths w → convert_stage E a d n p w = (Ok tt, w).
Proof.
  intros H. unfold convert_stage. rewrite bind_unfold. simpl.
  by rewrite bool_decide_eq_true_2.
Qed.

(** Lines 381-388 when the lead output is absent: both voices are
    converted, and both outputs exist afterwards. *)
Lemma convert_stage_run a d n p w :
  ai_vocals_path n ∉ paths w →
  no_fault E → model_available E (voice_model a) w →
  main_vocals_dereverb_path d ∈ paths w → backup_vocals_path d ∈ paths w →
  ∃ mp ip mp' ip' w',
    convert_stage E a d n p w = (Ok tt, w') ∧
    paths_kept w w' ∧ ai_vocals_path n ∈ paths w' ∧ ai_backing_path n ∈ paths w' ∧
    log w' = log w ++
      [message_call "[~] Converting lead voice using RVC..." (is_webui a);
       RvcInfer mp ip (main_vocals_dereverb_path d) (ai_vocals_path n) p (f0_method a);
       message_call "[~] Converting backing voice using RVC..." (is_webui a);
       RvcInfer mp' ip' (backup_vocals_path d) (ai_backing_path n) p (f0_method a)].
Proof.
  intros Habs Hnf Hm Hmain Hbackup. unfold convert_stage. rewrite bind_unfold. simpl.
  rewrite bool_decide_eq_false_2 by done. simpl.
  rewrite bind_unfold, display_progress_spec.
  set (w1 := {| paths := paths w; log := _ |}).
  destruct (voice_change_ok (voice_model a) (main_vocals_dereverb_path d) (ai_vocals_path n)
              p (f0_method a) (is_webui a) w1) as (mp & ip & H1); [done..|].
  rewrite bind_unfold, H1, bind_unfold, display_progress_spec.
  set (w2 := after_call _ _ w1) in *.
  set (w3 := {| paths := paths w2; log := _ |}).
  assert (paths_kept w w3) as Hk
    by (intros q Hq; unfold w3, w2; simpl; apply elem_of_add_path; auto).
  destruct (voice_change_ok (voice_model a) (backup_vocals_path d) (ai_backing_path n)
              p (f0_method a) (is_webui a) w3) as (mp' & ip' & H3);
    [done|by eapply model_available_kept|by apply Hk|].
  exists mp, ip, mp', ip'. eexists. split; [exact H3|].
  split; [|split; [|split]].
  - eapply paths_kept_trans; [exact Hk|apply paths_kept_after_call].
  - apply paths_kept_after_call. change (ai_vocals_path n ∈ paths w2).
    apply written_after_call, list_elem_of_here.
  - apply written_after_call, list_elem_of_here.
  - simpl. by rewrite <- !app_assoc.
Qed.

Lemma add_audio_effects_ok p w :
  no_fault E → p ∈ paths w →
  let out := fst (Path.splitext p) +:+ "_mixed.wav" in
  add_audio_effects E p w = (Ok out, after_call (Effects p out) [out] w).
Proof.
  intros Hnf Hp. unfold add_audio_effects. cbv zeta. rewrite bind_unfold.
  rewrite external_ok; [done| |apply Hnf]. by intros q ->%list_elem_of_singleton.
Qed.

(** The effects are applied whether or not their outputs exist. *)
Lemma effects_stage_ok a n w :
  no_fault E → ai_vocals_path n ∈ paths w → ai_backing_path n ∈ paths w →
  let lead := fst (Path.splitext (ai_vocals_path n)) +:+ "_mixed.wav" in
  let backing := fst (Path.splitext (ai_backing_path n)) +:+ "_mixed.wav" in
  ∃ w', effects_stage E a n w = (Ok (lead, backing), w') ∧
        paths_kept w w' ∧ lead ∈ paths w' ∧ backing ∈ paths w' ∧
        log w' = log w ++
          [message_call "[~] Applying audio effects to Vocals..." (is_webui a);
           Effects (ai_vocals_path n) lead; Effects (ai_backing_path n) backing].
Proof.
  intros Hnf Hl Hb. cbv zeta. unfold effects_stage.
  rewrite bind_unfold, display_progress_spec.
  rewrite bind_unfold, add_audio_effects_ok by done.
  rewrite bind_unfold, add_audio_effects_ok
    by (try done; apply paths_kept_after_call; done).
  eexists. split; [done|]. split; [|split; [|split]].
  - intros q Hq. by do 2 apply paths_kept_after_call.
  - apply paths_kept_after_call, written_after_call, list_elem_of_here.
  - apply written_after_call, list_elem_of_here.
  - simpl. by rewrite <- !app_assoc.
Qed.

Lemma pitch_shift_ok p k w :
  no_fault E → p ∈ paths w →
  let out := fst (Path.splitext p) +:+ "_p" +:+ pretty k +:+ ".wav" in
  ∃ w', pitch_shift E p k w = (Ok out, w') ∧ paths_kept w w' ∧ out ∈ paths w' ∧
        (out ∈ paths w → w' = w) ∧
        (out ∉ paths w → w' = after_call (SoxPitch p out k) [out] w).
Proof.
  intros Hnf Hp. cbv zeta. unfold pitch_shift. cbv zeta. rewrite bind_unfold. simpl.
  case_bool_decide as Hout; simpl.
  - exists w. split; [done|]. split; [apply paths_kept_refl|]. by repeat split.
  - rewrite bind_unfold, external_ok; [| |apply Hnf];
      [|by intros q ->%list_elem_of_singleton].
    eexists. split; [done|]. repeat split; try done.
    + apply paths_kept_after_call.
    + apply written_after_call, list_elem_of_here.
Qed.

Lemma shift_stage_ok a d w :
  no_fault E → instrumentals_path d ∈ paths w → backup_vocals_path d ∈ paths w →
  ∃ inst backup w',
    shift_stage E a d w = (Ok (inst, backup), w') ∧
    paths_kept w w' ∧ inst ∈ paths w' ∧ backup ∈ paths w'.
Proof.
  intros Hnf Hi Hb. unfold shift_stage. case_bool_decide.
  - rewrite bind_unfold, display_progress_spec.
    set (w1 := {| paths := paths w; log := _ |}).
    destruct (pitch_shift_ok (instrumentals_path d) (pitch_change_all a) w1)
      as (w2 & H2 & Hk2 & Ho2 & _); [done..|].
    destruct (pitch_shift_ok (backup_vocals_path d) (pitch_change_all a) w2)
      as (w3 & H3 & Hk3 & Ho3 & _); [done|by apply Hk2|].
    rewrite bind_unfold, H2, bind_unfold, H3.
    eexists _, _, _. split; [done|]. repeat split; auto.
    intros q Hq. by apply Hk3, Hk2.
  - eexists _, _, _. split; [done|]. split; [apply paths_kept_refl|]. by split.
Qed.

Lemma combine_audio_ok m b i out fmt w :
  no_fault E → m ∈ paths w → b ∈ paths w → i ∈ paths w →
  combine_audio E m b i out fmt w = (Ok tt, after_call (Mix m b i out fmt) [out] w).
Proof.
  intros Hnf Hm Hb Hi. unfold combine_audio. apply external_ok; [|apply Hnf].
  intros q. rewrite !elem_of_cons. intros [->|[->|[->|?%elem_of_nil]]]; done.
Qed.

(** The two covers are mixed whether or not they exist. *)
Lemma mix_stage_ok a n lead backing inst backup w :
  no_fault E → lead ∈ paths w → backing ∈ paths w → inst ∈ paths w → backup ∈ paths w →
  ∃ w', mix_stage E a n lead backing inst backup w = (Ok tt, w') ∧
        paths_kept w w' ∧ ai_cover_path n ∈ paths w' ∧ ai_cover_backing_path n ∈ paths w' ∧
        log w' = log w ++
          [message_call "[~] Combining AI Vocals and Instrumentals..." (is_webui a);
           Mix lead backup inst (ai_cover_path n) (output_format a);
           Mix lead backing inst (ai_cover_backing_path n) (output_format a)].
Proof.
  intros Hnf Hl Hb Hi Hbk. unfold mix_stage.
  rewrite bind_unfold, display_progress_spec.
  rewrite bind_unfold, combine_audio_ok by done.
  rewrite combine_audio_ok by (try done; by apply paths_kept_after_call).
  eexists. split; [done|]. split; [|split; [|split]].
  - intros q Hq. by do 2 apply paths_kept_after_call.
  - apply paths_kept_after_call, written_after_call, list_elem_of_here.
  - apply written_after_call, list_elem_of_here.
  - simpl. by rewrite <- !app_assoc.
Qed.

(** A successful mix has written the two covers. *)
Lemma mix_stage_written a n lead backing inst backup w w' :
  mix_stage E a n lead backing inst backup w = (Ok tt, w') →
  ai_cover_path n ∈ paths w' ∧ ai_cover_backing_path n ∈ paths w'.
Proof.
  unfold mix_stage, combine_audio. intros H.
  apply bind_ok_inv in H as ([] & w1 & _ & H).
  apply bind_ok_inv in H as ([] & w2 & H2 & H3).
  apply external_ok_inv in H2 as (_ & _ & ->).
  apply external_ok_inv in H3 as (_ & _ & ->).
  split.
  - apply paths_kept_after_call, written_after_call, list_elem_of_here.
  - apply written_after_call, list_elem_of_here.
Qed.

End LateStages.

(** ** The removal of intermediate files *)

Section Cleanup.

Context {pyfloat : Type}.
Variable E : env.
Implicit Types (a : @args pyfloat) (w : world) (files : list (option string)).

Lemma elem_of_filter_ne (p f : string) (l : list string) :
  p ∈ filter (λ q, q ≠ f) l ↔ p ∈ l ∧ p ≠ f.
Proof. rewrite list_elem_of_filter. naive_solver. Qed.

(** One turn of the loop that succeeds: the file is gone, the others
    stay. *)
Lemma remove_if_exists_ok file w w' :
  remove_if_exists E file w = (Ok tt, w') →
  ∀ p, p ∈ paths w' ↔ p ∈ paths w ∧ ¬ (p ≠ EmptyString ∧ Some p = file).
Proof.
  unfold remove_if_exists. destruct file as [f|]; [|intros [= <-]; naive_solver].
  case_bool_decide as Hf; [intros [= <-]; naive_solver|].
  rewrite bind_unfold. simpl. case_bool_decide as Hex; simpl.
  - unfold os_remove. rewrite bind_unfold. simpl.
    destruct (fault E (Remove f)); [done|]. intros [= <-] p. simpl.
    rewrite elem_of_filter_ne. naive_solver.
  - intros [= <-] p. naive_solver.
Qed.

(** The loop of lines 410-412 when it succeeds: exactly the listed
    files are gone. *)
Lemma remove_loop_ok files w w' :
  for_each files (remove_if_exists E) w = (Ok tt, w') →
  ∀ p, p ∈ paths w' ↔ p ∈ paths w ∧ ¬ removed_by files p.
Proof.
  unfold removed_by. revert w. induction files as [|file files IH]; intros w; simpl.
  - intros [= <-] p. split; [|naive_solver]. intros Hp. split; [done|].
    by intros [_ ?%elem_of_nil].
  - intros H. apply bind_ok_inv in H as ([] & w1 & H1 & H2).
    intros p. rewrite (IH _ H2), (remove_if_exists_ok _ _ _ H1), elem_of_cons.
    naive_solver.
Qed.

(** When no removal of a listed file fails the loop succeeds. *)
Lemma remove_loop_total files w :
  (∀ f, Some f ∈ files → fault E (Remove f) = None) →
  ∃ w', for_each files (remove_if_exists E) w = (Ok tt, w').
Proof.
  revert w. induction files as [|file files IH]; intros w Hnf; simpl.
  - by eexists.
  - assert (∃ w1, remove_if_exists E file w = (Ok tt, w1)) as [w1 H1].
    { unfold remove_if_exists. destruct file as [f|]; [|by eexists].
      case_bool_decide; [by eexists|]. rewrite bind_unfold. simpl.
      case_bool_decide; simpl; [|by eexists].
      rewrite os_remove_ok by (apply Hnf; apply list_elem_of_here). by eexists. }
    rewrite bind_unfold, H1. apply IH. intros f Hf. apply Hnf.
    by apply list_elem_of_further.
Qed.

(** When the removal of a listed file that exists fails, the loop
    raises the error of a removal. *)
Lemma remove_loop_fault files w f m :
  Some f ∈ files → f ≠ EmptyString → f ∈ paths w → fault E (Remove f) = Some m →
  ∃ f' m' w', for_each files (remove_if_exists E) w = (Raise (PyException m'), w') ∧
              Some f' ∈ files ∧ fault E (Remove f') = Some m'.
Proof.
  intros Hin Hne. revert w. induction files as [|file files IH]; intros w Hex Hf; simpl.
  - by apply elem_of_nil in Hin.
  - assert ((∃ m' w1 f', remove_if_exists E file w = (Raise (PyException m'), w1) ∧
                         file = Some f' ∧ fault E (Remove f') = Some m') ∨
            (∃ w1, remove_if_exists E file w = (Ok tt, w1) ∧ file ≠ Some f ∧
                   (f ∈ paths w1))) as [(m' & w1 & f' & H1 & -> & Hf')|(w1 & H1 & Hne' & Hex1)].
    { unfold remove_if_exists. destruct file as [g|]; [|right; by eexists].
      case_bool_decide as Hg; [right; eexists; repeat split; try done; congruence|].
      rewrite bind_unfold. simpl. case_bool_decide as Hgex; simpl.
      - destruct (fault E (Remove g)) as [m'|] eqn:Hfg.
        + left. rewrite (os_remove_fault _ _ _ _ Hfg). by eexists _, _, _.
        + right. rewrite os_remove_ok by done. eexists. repeat split; try done.
          * congruence.
          * simpl. apply elem_of_filter_ne. split; [done|]. congruence.
      - right. eexists. repeat split; try done. congruence. }
    + rewrite bind_unfold, H1. exists f', m', w1. repeat split; try done.
      apply list_elem_of_here.
    + rewrite bind_unfold, H1.
      apply elem_of_cons in Hin as [Heq|Hin]; [congruence|].
      destruct (IH Hin w1 Hex1 Hf) as (f' & m' & w' & H & Hin' & Hf').
      exists f', m', w'. repeat split; try done. by apply list_elem_of_further.
Qed.

End Cleanup.

(** ** The run as a whole *)

Section Run.

Context {pyfloat : Type}.
Variable float_str : pyfloat → string.
Variable E : env.
Implicit Types (a : @args pyfloat) (w : world) (l : locals).

Lemma add_audio_effects_inv p w out w' :
  add_audio_effects E p w = (Ok out, w') → out = mixed p.
Proof.
  unfold add_audio_effects. cbv zeta. intros H.
  by apply bind_ok_inv in H as ([] & w1 & _ & [= <- <-]).
Qed.

Lemma pitch_shift_inv p k w out w' :
  pitch_shift E p k w = (Ok out, w') → out = shifted p k.
Proof.
  unfold pitch_shift. cbv zeta. intros H.
  apply bind_ok_inv in H as (ex & w1 & _ & H).
  by apply bind_ok_inv in H as ([] & w2 & _ & [= <- <-]).
Qed.

(** A successful run of the stages: the paths held by its variables,
    and what happened to the world. *)
Lemma run_stages_ok a it si id w l w' :
  run_stages float_str E a it si id w = (Ok l, w') →
  ∃ w1,
    resolve_discovery E a it si id (Path.join (output_dir E) id) w = (Ok (found l), w1) ∧
    evolves is_late_call w1 w' ∧
    song_dir l = Path.join (output_dir E) id ∧
    names l = artifact_paths float_str a (song_dir l) (orig_song_path (found l))
                (pitch_change a + pitch_change_all a) ∧
    ai_vocals_mixed_path l = mixed (ai_vocals_path (names l)) ∧
    ai_backing_mixed_path l = mixed (ai_backing_path (names l)) ∧
    (pitch_change_all a = 0 →
     mix_instrumentals_path l = instrumentals_path (found l) ∧
     mix_backup_vocals_path l = backup_vocals_path (found l)) ∧
    (pitch_change_all a ≠ 0 →
     mix_instrumentals_path l = shifted (instrumentals_path (found l)) (pitch_change_all a) ∧
     mix_backup_vocals_path l = shifted (backup_vocals_path (found l)) (pitch_change_all a)) ∧
    ai_cover_path (names l) ∈ paths w' ∧ ai_cover_backing_path (names l) ∈ paths w'.
Proof.
  unfold run_stages. cbv zeta. intros H.
  apply bind_ok_inv in H as (d & w1 & H1 & H).
  apply bind_ok_inv in H as ([] & w2 & H2 & H).
  apply bind_ok_inv in H as ([lead backing] & w3 & H3 & H).
  apply bind_ok_inv in H as ([inst backup] & w4 & H4 & H).
  apply bind_ok_inv in H as ([] & w5 & H5 & [= <- <-]). simpl.
  exists w1. split; [done|]. split.
  { eapply evolves_trans; [by eapply respects_convert_stage|].
    eapply evolves_trans; [by eapply respects_effects_stage|].
    eapply evolves_trans; [by eapply respects_shift_stage|].
    by eapply respects_mix_stage. }
  do 2 (split; [done|]).
  assert (lead = mixed (ai_vocals_path
            (artifact_paths float_str a (Path.join (output_dir E) id) (orig_song_path d)
               (pitch_change a + pitch_change_all a))) ∧
          backing = mixed (ai_backing_path
            (artifact_paths float_str a (Path.join (output_dir E) id) (orig_song_path d)
               (pitch_change a + pitch_change_all a)))) as [-> ->].
  { unfold effects_stage in H3.
    apply bind_ok_inv in H3 as ([] & w6 & _ & H3).
    apply bind_ok_inv in H3 as (x & w7 & Hx & H3).
    apply bind_ok_inv in H3 as (y & w8 & Hy & [= <- <- <-]).
    by rewrite (add_audio_effects_inv _ _ _ _ Hx), (add_audio_effects_inv _ _ _ _ Hy). }
  do 2 (split; [done|]).
  pose proof (mix_stage_written _ _ _ _ _ _ _ _ _ H5) as [Hc Hcb].
  unfold shift_stage in H4. case_bool_decide as Hall.
  - apply bind_ok_inv in H4 as ([] & w6 & _ & H4).
    apply bind_ok_inv in H4 as (si' & w7 & Hsi & H4).
    apply bind_ok_inv in H4 as (sb' & w8 & Hsb & [= <- <- <-]).
    rewrite (pitch_shift_inv _ _ _ _ _ Hsi), (pitch_shift_inv _ _ _ _ _ Hsb).
    by repeat split.
  - injection H4 as <- <- <-. by repeat split.
Qed.

(** The ending of a shifted name: a digit and [.wav]. *)
Lemma shifted_ends p k : ∃ c, digit c ∧ ends (shifted p k) (String c ".wav").
Proof.
  destruct (pretty_Z_last_digit k) as (s & c & Hs & Hc). exists c. split; [done|].
  unfold shifted. rewrite Hs. exists (fst (Path.splitext p) +:+ "_p" +:+ s).
  by rewrite !str_app_assoc.
Qed.

Lemma mixed_ends p : ends (mixed p) "_mixed.wav".
Proof. unfold mixed. ends_suffix. Qed.

(** A path with one of the endings of the stems is not a shifted
    name. *)
Lemma not_shifted x suffix p k :
  ends x suffix → x = shifted p k →
  (∀ c, digit c → Str.endswith suffix (String c ".wav") = false
                  ∧ Str.endswith (String c ".wav") suffix = false) →
  False.
Proof.
  intros Hx -> Hs. destruct (shifted_ends p k) as (c & Hc & He).
  destruct (Hs c Hc). by eapply (ends_clash _ _ _ Hx He).
Qed.

Lemma digit_cases (P : ascii → Prop) :
  P "0"%char → P "1"%char → P "2"%char → P "3"%char → P "4"%char → P "5"%char →
  P "6"%char → P "7"%char → P "8"%char → P "9"%char → ∀ c, digit c → P c.
Proof.
  intros ?????????? c Hc. unfold digit in Hc. rewrite !elem_of_cons in Hc.
  destruct Hc as [->|[->|[->|[->|[->|[->|[->|[->|[->|[->|?%elem_of_nil]]]]]]]]]]; done.
Qed.

End Run.

(** ** The pipeline and its stages *)

Section PipelineFacts.

Context {pyfloat : Type}.
Variable float_str : pyfloat → string.
Variable E : env.
Implicit Types (a : @args pyfloat) (w : world) (l : locals).

Lemma raise_exception_spec {A} msg b w :
  (raise_exception msg b : M A) w = (Raise (exception_of b msg), w).
Proof. by destruct b. Qed.

(** The pipeline is its body followed by the handler. *)
Lemma pipeline_finish a w :
  song_cover_pipeline float_str E a w = finish (is_webui a) (song_cover_body float_str E a w).
Proof.
  unfold song_cover_pipeline, finish.
  destruct (song_cover_body float_str E a w) as [[l|e] w']; [done|].
  apply raise_exception_spec.
Qed.

(** The rest of the body once the input is resolved. *)
Lemma body_after_input a w it si id w1 :
  song_input a ≠ EmptyString → voice_model a ≠ EmptyString →
  resolve_input E a (started (is_webui a) w) = (Ok (it, si, id), w1) →
  song_cover_body float_str E a w
  = (l ← run_stages float_str E a it si id; cleanup_stage E a l;; ret l) w1.
Proof.
  intros Hs Hv Hin. unfold song_cover_body.
  assert (resolve_and_run float_str E a w = run_stages float_str E a it si id w1) as Hrun.
  { unfold resolve_and_run. rewrite !bool_decide_eq_false_2 by done.
    rewrite bind_unfold. cbn [orb when ret].
    rewrite bind_unfold, display_progress_spec.
    fold (started (is_webui a) w). by rewrite bind_unfold, Hin. }
  by rewrite bind_unfold, Hrun, <- bind_unfold.
Qed.


(** What follows the discovery in [run_stages] calls the late stages
    only. *)
Lemma respects_run_stages_reuse a it si id w r w' :
  Path.join (output_dir E) id ∈ paths w → holds_stems (Path.join (output_dir E) id) w →
  keep_files a = false →
  run_stages float_str E a it si id w = (r, w') → evolves is_late_call w w'.
Proof.
  intros Hdir Hstems Hkeep. unfold run_stages. cbv zeta.
  destruct (resolve_discovery_reuse E a it si id _ w Hdir Hstems Hkeep) as (d & Hd & _).
  rewrite bind_unfold, Hd. intros H.
  match type of H with ?m w = _ => assert (respects is_late_call m) as Hr end;
    [|exact (Hr _ _ _ H)].
  apply respects_bind; [apply respects_convert_stage|]. intros _.
  apply respects_bind; [apply respects_effects_stage|]. intros [x y].
  apply respects_bind; [apply respects_shift_stage|]. intros [u v].
  apply respects_bind; [apply respects_mix_stage|]. intros _.
  apply respects_ret.
Qed.

End PipelineFacts.

(** ** The identifier of a local song *)

Section Hash.

Variable E : env.

(** The reading loop feeds the whole file to the hash object. *)
Lemma read_chunks_all (size fuel : nat) (f : list Byte.byte) (h : Blake2b.hasher) :
  (0 < size)%nat → (length f < fuel)%nat →
  read_chunks size fuel f h = Some (Blake2b.update h f).
Proof.
  intros Hsize. revert f h. induction fuel as [|fuel IH]; intros f h Hlen; [lia|].
  cbn [read_chunks]. destruct (take size f) as [|b chunk] eqn:Htake.
  - assert (f = []) as ->.
    { destruct f; [done|]. destruct size; [lia|done]. }
    destruct h. unfold Blake2b.update. simpl. by rewrite app_nil_r.
  - rewrite IH.
    + f_equal. unfold Blake2b.update. simpl.
      by rewrite <- Htake, <- app_assoc, take_drop.
    + rewrite length_drop. assert (length f ≠ 0%nat) by (by destruct f; destruct size).
      lia.
Qed.

Lemma blocks_length fuel h t data :
  length h = 8%nat → length (Blake2b.blocks fuel h t data) = 8%nat.
Proof.
  revert h t data. induction fuel as [|fuel IH]; intros h t data Hh; simpl; [done|].
  destruct (length data <=? 128)%nat; [done|]. by apply IH.
Qed.

Lemma le_bytes_bytes n x :
  Forall (λ z, 0 ≤ z < 256) (Blake2b.le_bytes n x).
Proof.
  revert x. induction n as [|n IH]; intros x; simpl; constructor; [|apply IH].
  apply Z.mod_pos_bound. lia.
Qed.

Lemma omap_byte_length (zs : list Z) :
  Forall (λ z, 0 ≤ z < 256) zs →
  length (omap (λ z, Byte.of_N (Z.to_N z)) zs) = length zs.
Proof.
  induction 1 as [|z zs Hz _ IH]; [done|]. cbn [omap list_omap length].
  destruct (Byte.of_N (Z.to_N z)) eqn:Hb; [cbn [length]; by f_equal|].
  apply Byte.of_N_None_iff in Hb. lia.
Qed.

(** The digest has 64 bytes, its hexadecimal form 128 characters. *)
Lemma digest_length data : length (Blake2b.digest data) = 64%nat.
Proof.
  unfold Blake2b.digest. cbv zeta.
  rewrite omap_byte_length.
  - pose proof (blocks_length (S (length data))
        (Blake2b.set Blake2b.IV 0 (Z.lxor (Blake2b.get Blake2b.IV 0) 0x01010040)) 0
        (map (λ b, Z.of_N (Byte.to_N b)) data) eq_refl) as Hlen.
    destruct (Blake2b.blocks _ _ _ _) as [|h0 [|h1 [|h2 [|h3 [|h4 [|h5 [|h6 [|h7 [|]]]]]]]]];
      done.
  - apply Forall_flat_map, Forall_forall. intros x _. apply le_bytes_bytes.
Qed.

Lemma hex_length bs : Str.len (Blake2b.hex bs) = (2 * length bs)%nat.
Proof. induction bs as [|b bs IH]; [done|]. unfold Str.len in *. simpl. rewrite IH. lia. Qed.

Lemma take_length n s : (n ≤ Str.len s)%nat → Str.len (Str.take n s) = n.
Proof.
  revert s. induction n as [|n IH]; intros s; [done|].
  destruct s as [|c s]; unfold Str.len in *; simpl; [lia|]. intros H. rewrite IH; lia.
Qed.

(** C6 — [get_hash] returns the first 11 hexadecimal characters of the
    BLAKE2b digest of the bytes of the file: for a file that exists and
    can be opened, the result is that prefix of the digest of the whole
    content, whatever the number of chunks read; it has 11 characters;
    and any other call on a file with the same bytes, in any world and
    any environment, returns the same identifier. *)
Theorem get_hash_is_blake2b_prefix (filepath : string) (w : world) :
  filepath ∈ paths w → fault E (OpenRead filepath) = None →
  let id := Str.take 11 (Blake2b.hex (Blake2b.digest (file_bytes E filepath))) in
  get_hash E filepath w = (Ok id, after_call (OpenRead filepath) [] w) ∧
  Str.len id = 11%nat ∧
  ∀ E' filepath' w' r,
    file_bytes E' filepath' = file_bytes E filepath →
    fst (get_hash E' filepath' w') = Ok r → r = id.
Proof.
  intros Hex Hf. cbv zeta.
  assert (∀ E0 p w0 r, fst (get_hash E0 p w0) = Ok r →
          r = Str.take 11 (Blake2b.hex (Blake2b.digest (file_bytes E0 p)))) as Hany.
  { intros E0 p w0 r. unfold get_hash. cbv zeta. rewrite bind_unfold.
    destruct (external E0 _ _ _ w0) as [[[]|e] w1]; [|done].
    rewrite read_chunks_all by (unfold chunk_size; lia).
    by intros [= <-]. }
  split; [|split].
  - unfold get_hash. cbv zeta. rewrite bind_unfold, external_ok; [| |done].
    + by rewrite read_chunks_all by (unfold chunk_size; lia).
    + by intros q ->%list_elem_of_singleton.
  - apply take_length. rewrite hex_length, digest_length. lia.
  - intros E' p' w' r Hbytes Hr. rewrite (Hany _ _ _ _ Hr). by rewrite Hbytes.
Qed.

End Hash.

(** The identifier of a file that holds the bytes of [abc]. *)
Lemma get_hash_is_blake2b_prefix_witness :
  get_hash quiet_env "/home/u/song.wav" fresh_world
  = (Ok "ba80a53f981", after_call (OpenRead "/home/u/song.wav") [] fresh_world).
Proof.
  refine (proj1 (get_hash_is_blake2b_prefix quiet_env "/home/u/song.wav" fresh_world _ _)).
  - unfold fresh_world. simpl. in_list.
  - reflexivity.
Defined.

(** ** The identifier of a remote song *)

(** The examples of the docstring of [get_youtube_video_id]. *)
Example video_id_short_link (U : urllib_env) :
  get_youtube_video_id U "http://youtu.be/SA2iWivDJiE" true = Ok (Some "SA2iWivDJiE").
Proof. reflexivity. Qed.

Example video_id_watch (U : urllib_env) :
  get_youtube_video_id U "http://www.youtube.com/watch?v=_oPAwA_Udwc&feature=feedu" true
  = Ok (Some "_oPAwA_Udwc").
Proof. reflexivity. Qed.

Example video_id_embed (U : urllib_env) :
  get_youtube_video_id U "http://www.youtube.com/embed/SA2iWivDJiE" true
  = Ok (Some "SA2iWivDJiE").
Proof. reflexivity. Qed.

Example video_id_v (U : urllib_env) :
  get_youtube_video_id U "http://www.youtube.com/v/SA2iWivDJiE?version=3&amp;hl=en_US" true
  = Ok (Some "SA2iWivDJiE").
Proof. reflexivity. Qed.

Example video_id_other_host (U : urllib_env) :
  get_youtube_video_id U "https://example.com/watch?v=SA2iWivDJiE" true = Ok None.
Proof. reflexivity. Qed.

(** C7 — for the raw-path form [/watch/<id>] the function returns the
    path segment [watch] instead of the video id: it takes the element
    of index 1 of the split path, where the branches for [/embed/] and
    [/v/] take the element of index 2.  The returned value is not
    [None], so the pipeline goes on with the song id [watch]. *)
Theorem video_id_of_watch_path (U : urllib_env) :
  get_youtube_video_id U "https://www.youtube.com/watch/SA2iWivDJiE" true
  = Ok (Some "watch").
Proof. reflexivity. Qed.

(** A short link without an id gives the empty string, not [None]. *)
Example video_id_empty_short_link (U : urllib_env) :
  get_youtube_video_id U "https://youtu.be/" true = Ok (Some EmptyString).
Proof. reflexivity. Qed.

(** ** Remote or local *)


Section Input.

Context {pyfloat : Type}.
Variable float_str : pyfloat → string.
Variable E : env.
Implicit Types (a : @args pyfloat) (w : world).


End Input.


(** ** The parameters embedded in the names *)

(** C8, as stated, fails: the algorithm [mangio-crepe] with the hop
    length 128 and an algorithm spelt [mangio-crepe_128] differ in the
    pitch detection algorithm only and give the same conversion paths. *)
Lemma f0_method_names_collide :
  same_except PF0Method (alice_args_f0 "mangio-crepe") (alice_args_f0 "mangio-crepe_128") ∧
  differ PF0Method (alice_args_f0 "mangio-crepe") (alice_args_f0 "mangio-crepe_128") ∧
  artifact_paths (λ s : string, s) (alice_args_f0 "mangio-crepe")
    song_dir_abc "/home/u/song.wav" 2
  = artifact_paths (λ s : string, s) (alice_args_f0 "mangio-crepe_128")
      song_dir_abc "/home/u/song.wav" 2 ∧
  ai_vocals_path (artifact_paths (λ s : string, s) (alice_args_f0 "mangio-crepe")
                    song_dir_abc "/home/u/song.wav" 2)
  = "/app/song_output/ba80a53f981/song_lead_alice_p2_i0.5_fr3_rms0.25_pro0.33_mangio-crepe_128.wav".
Proof. repeat split; done. Qed.

Section NameParameters.

Context {pyfloat : Type}.
Variable float_str : pyfloat → string.
Hypothesis float_str_inj : ∀ x y, float_str x = float_str y → x = y.
Implicit Types a : @args pyfloat.

(** C8 (amended) — the names of the conversion artifacts are a function
    of the song directory, the base name of the song and the
    parameters; when two runs differ in one parameter only, both
    conversion paths differ if that parameter is the voice model, the
    pitch change, the index rate, the filter radius, the rms mix rate
    or the protect value; a change of the hop length changes them if
    and only if the algorithm is mangio-crepe; and a change of the
    algorithm changes them unless one name is [mangio-crepe] and the
    other is [mangio-crepe_] followed by the hop length. *)
Theorem names_embed_parameters (x : param) a a' (song_dir orig : string) :
  same_except x a a' → differ x a a' →
  let n := artifact_paths float_str a song_dir orig (pitch_change a + pitch_change_all a) in
  let n' := artifact_paths float_str a' song_dir orig (pitch_change a' + pitch_change_all a') in
  match x with
  | PHopLength =>
      (f0_method a = "mangio-crepe" →
       ai_vocals_path n ≠ ai_vocals_path n' ∧ ai_backing_path n ≠ ai_backing_path n') ∧
      (f0_method a ≠ "mangio-crepe" →
       ai_vocals_path n = ai_vocals_path n' ∧ ai_backing_path n = ai_backing_path n')
  | PF0Method =>
      ai_vocals_path n = ai_vocals_path n' ∨ ai_backing_path n = ai_backing_path n' →
      (f0_method a = "mangio-crepe" ∧
       f0_method a' = "mangio-crepe_" +:+ pretty (crepe_hop_length a)) ∨
      (f0_method a' = "mangio-crepe" ∧
       f0_method a = "mangio-crepe_" +:+ pretty (crepe_hop_length a))
  | _ => ai_vocals_path n ≠ ai_vocals_path n' ∧ ai_backing_path n ≠ ai_backing_path n'
  end.
Proof.
  intros Hsame Hdiff. cbv zeta.
  destruct x.
  7: by apply f0_method_collision.
  7: by apply hop_length_embedded.
  all: match goal with
       | Hs : same_except ?x _ _ |- _ =>
           by apply (conversion_paths_differ float_str float_str_inj x)
       end.
Qed.

End NameParameters.

(** A change of the pitch from 2 to 3 changes both conversion paths. *)
Lemma names_embed_parameters_witness :
  ai_vocals_path (artifact_paths (λ s : string, s) (alice_args 2 false)
                    song_dir_abc "/home/u/song.wav" 2)
  ≠ ai_vocals_path (artifact_paths (λ s : string, s) (alice_args 3 false)
                      song_dir_abc "/home/u/song.wav" 3) ∧
  ai_backing_path (artifact_paths (λ s : string, s) (alice_args 2 false)
                     song_dir_abc "/home/u/song.wav" 2)
  ≠ ai_backing_path (artifact_paths (λ s : string, s) (alice_args 3 false)
                       song_dir_abc "/home/u/song.wav" 3).
Proof.
  refine (names_embed_parameters (λ s : string, s) (λ x y H, H) PPitchChange
            (alice_args 2 false) (alice_args 3 false) song_dir_abc "/home/u/song.wav" _ _).
  - repeat split; done.
  - simpl. lia.
Defined.

(** ** What the last step removes *)

Section Removed.

Context {pyfloat : Type}.
Variable float_str : pyfloat → string.
Variable E : env.
Implicit Types (a : @args pyfloat) (w : world) (l : locals).

(** A path with ending [suffix] does not have one of the endings of the
    removed files, when [suffix] is none of them and ends none of them. *)
Lemma not_intermediate_ending x suffix :
  ends x suffix →
  Str.endswith suffix "_Vocals (No Reverb).wav" = false →
  Str.endswith "_Vocals (No Reverb).wav" suffix = false →
  Str.endswith suffix "_Vocals_Main_DeReverb.wav" = false →
  Str.endswith "_Vocals_Main_DeReverb.wav" suffix = false →
  Str.endswith suffix "_mixed.wav" = false →
  Str.endswith "_mixed.wav" suffix = false →
  (∀ c, digit c → Str.endswith suffix (String c ".wav") = false
                  ∧ Str.endswith (String c ".wav") suffix = false) →
  ¬ intermediate_ending x.
Proof.
  intros Hx H1 H1' H2 H2' H3 H3' H4 [H|[H|[H|(c & Hc & H)]]].
  - exact (ends_clash x _ _ Hx H H1 H1').
  - exact (ends_clash x _ _ Hx H H2 H2').
  - exact (ends_clash x _ _ Hx H H3 H3').
  - destruct (H4 c Hc) as [H5 H5']. exact (ends_clash x _ _ Hx H H5 H5').
Qed.

Lemma instrumental_kept x : ends x "_Instrumental.wav" → ¬ intermediate_ending x.
Proof.
  intros Hx. apply (not_intermediate_ending x _ Hx); try done.
  refine (digit_cases _ _ _ _ _ _ _ _ _ _ _); by split.
Qed.

Lemma backup_kept x : ends x "_Vocals_Backup.wav" → ¬ intermediate_ending x.
Proof.
  intros Hx. apply (not_intermediate_ending x _ Hx); try done.
  refine (digit_cases _ _ _ _ _ _ _ _ _ _ _); by split.
Qed.

Lemma cover_kept x fmt tail :
  fmt = "mp3" ∨ fmt = "wav" → tail = " Ver" ∨ tail = " Ver With Backing" →
  ends x (tail +:+ ")." +:+ fmt) → ¬ intermediate_ending x.
Proof.
  intros [-> | ->] [-> | ->] Hx; apply (not_intermediate_ending x _ Hx); try done;
    refine (digit_cases _ _ _ _ _ _ _ _ _ _ _); by split.
Qed.

(** The covers end with the version tag, a dot and the format. *)
Lemma cover_paths_end a song_dir orig p :
  let n := artifact_paths float_str a song_dir orig p in
  ends (ai_cover_path n) (" Ver" +:+ ")." +:+ output_format a) ∧
  ends (ai_cover_backing_path n) (" Ver With Backing" +:+ ")." +:+ output_format a).
Proof.
  cbv zeta. unfold artifact_paths; simpl. split; apply join_ends.
  - exists (fst (Path.splitext (Path.basename orig)) +:+ " (" +:+ voice_model a).
    by rewrite !str_app_assoc.
  - exists (fst (Path.splitext (Path.basename orig)) +:+ " (" +:+ voice_model a).
    by rewrite !str_app_assoc.
Qed.

(** The files listed for removal have the endings of intermediate
    files. *)
Lemma intermediate_files_endings a l w p :
  stems_ok (found l) w →
  ai_vocals_mixed_path l = mixed (ai_vocals_path (names l)) →
  ai_backing_mixed_path l = mixed (ai_backing_path (names l)) →
  (pitch_change_all a ≠ 0 →
   mix_instrumentals_path l = shifted (instrumentals_path (found l)) (pitch_change_all a) ∧
   mix_backup_vocals_path l = shifted (backup_vocals_path (found l)) (pitch_change_all a)) →
  Some p ∈ intermediate_files a l → intermediate_ending p.
Proof.
  intros (_ & _ & _ & _ & Hm & _ & Hmain & Hv) Hml Hmb Hsh.
  unfold intermediate_files. rewrite elem_of_app, !elem_of_cons.
  intros [[Hp|[Hp|[Hp|[Hp|Hp%elem_of_nil]]]]|Hp]; try done.
  - destruct Hv as [Hv|(v & Hv & Hvn)]; [congruence|].
    left. rewrite Hv in Hp. by injection Hp as ->.
  - right; left. rewrite Hmain in Hp. by injection Hp as ->.
  - right; right; left. injection Hp as ->. rewrite Hml. apply mixed_ends.
  - right; right; left. injection Hp as ->. rewrite Hmb. apply mixed_ends.
  - case_bool_decide as Hall; [|by apply elem_of_nil in Hp].
    destruct (Hsh Hall) as [Hi Hb]. rewrite !elem_of_cons in Hp.
    right; right; right.
    destruct Hp as [Hp|[Hp|Hp%elem_of_nil]]; [| |done]; injection Hp as ->;
      [rewrite Hi|rewrite Hb]; apply shifted_ends.
Qed.

End Removed.

(** ** The whole run *)

Section Whole.

Context {pyfloat : Type}.
Variable float_str : pyfloat → string.
Variable E : env.
Implicit Types (a : @args pyfloat) (w : world) (l : locals).

(** A pipeline that returns has run its body to the end. *)
Lemma pipeline_ok_inv a w covers w' :
  song_cover_pipeline float_str E a w = (Ok covers, w') →
  ∃ l, song_cover_body float_str E a w = (Ok l, w') ∧
       covers = (ai_cover_path (names l), ai_cover_backing_path (names l)).
Proof.
  rewrite pipeline_finish. unfold finish.
  destruct (song_cover_body float_str E a w) as [[l|e] w1]; [|done].
  intros [= <- <-]. by exists l.
Qed.

(** The body that returns: the stages, then the last step. *)
Lemma body_ok_inv a w l w' :
  song_cover_body float_str E a w = (Ok l, w') →
  ∃ wm, resolve_and_run float_str E a w = (Ok l, wm) ∧
        cleanup_stage E a l wm = (Ok tt, w').
Proof.
  unfold song_cover_body. intros H.
  apply bind_ok_inv in H as (l0 & wm & Hrun & H).
  apply bind_ok_inv in H as ([] & w2 & Hclean & [= <- <-]).
  by exists wm.
Qed.

(** The stages that return: both fields are filled, the input is
    resolved after the first message, and the stages run on it. *)
Lemma resolve_and_run_ok a w l wm :
  resolve_and_run float_str E a w = (Ok l, wm) →
  song_input a ≠ EmptyString ∧ voice_model a ≠ EmptyString ∧
  ∃ it si id w1,
    resolve_input E a (started (is_webui a) w) = (Ok (it, si, id), w1) ∧
    run_stages float_str E a it si id w1 = (Ok l, wm).
Proof.
  unfold resolve_and_run. intros H.
  apply bind_ok_inv in H as ([] & w0 & H0 & H).
  assert (song_input a ≠ EmptyString ∧ voice_model a ≠ EmptyString ∧ w0 = w)
    as (Hs & Hv & ->).
  { do 2 case_bool_decide; simpl in H0;
      try (rewrite raise_exception_spec in H0; discriminate).
    by injection H0 as <-. }
  do 2 (split; [done|]).
  rewrite bind_unfold, display_progress_spec in H. fold (started (is_webui a) w) in H.
  apply bind_ok_inv in H as ([[it si] id] & w1 & Hin & H).
  by exists it, si, id, w1.
Qed.

(** The last step: nothing when the files are kept, else exactly the
    listed files are gone. *)
Lemma cleanup_stage_ok a l w w' :
  cleanup_stage E a l w = (Ok tt, w') →
  (keep_files a = true → w' = w) ∧
  (keep_files a = false →
   ∀ p, p ∈ paths w' ↔ p ∈ paths w ∧ ¬ removed_by (intermediate_files a l) p).
Proof.
  unfold cleanup_stage. destruct (keep_files a); cbn [negb when].
  - intros [= <-]. by split.
  - rewrite bind_unfold, display_progress_spec. intros H. split; [done|]. intros _.
    exact (remove_loop_ok E _ _ _ H).
Qed.

(** The stems that a successful run holds exist when the stages are
    over. *)
Lemma run_stages_stems a it si id w l w' :
  run_stages float_str E a it si id w = (Ok l, w') → stems_ok (found l) w'.
Proof.
  intros H. apply run_stages_ok in H as (w1 & Hd & Hlate & _).
  apply resolve_discovery_ok in Hd as [(Hi & Hm & Hb & Hrest) _].
  apply late_calls_keep_paths in Hlate. unfold stems_ok. auto.
Qed.

End Whole.

(** ** The files that remain after a run *)

(** C1, as stated, fails: in the first run on a song, with the files
    not kept, the main dereverbed vocals are among the removed files
    and the vocals of the first separation pass remain; the paths left
    by the run are listed. *)
Lemma cleanup_removes_main_vocals :
  let r := song_cover_pipeline (λ s : string, s) quiet_env (alice_args 2 false) fresh_world in
  fst r = Ok ("/app/song_output/ba80a53f981/song (alice Ver).mp3",
              "/app/song_output/ba80a53f981/song (alice Ver With Backing).mp3") ∧
  Remove "/app/song_output/ba80a53f981/song_Vocals_Main_DeReverb.wav" ∈ log (snd r) ∧
  paths (snd r) =
    ["/home/u/song.wav"; "/app/rvc_models/alice"; "/app/rvc_models/alice/alice.pth";
     "/app/song_output/ba80a53f981";
     "/app/song_output/ba80a53f981/song_Instrumental.wav";
     "/app/song_output/ba80a53f981/song_Vocals.wav";
     "/app/song_output/ba80a53f981/song_Vocals_Backup.wav";
     "/app/song_output/ba80a53f981/song_lead_alice_p2_i0.5_fr3_rms0.25_pro0.33_rmvpe.wav";
     "/app/song_output/ba80a53f981/song_backing_alice_p2_i0.5_fr3_rms0.25_pro0.33_rmvpe.wav";
     "/app/song_output/ba80a53f981/song (alice Ver).mp3";
     "/app/song_output/ba80a53f981/song (alice Ver With Backing).mp3"].
Proof.
  cbv zeta. split; [by vm_compute|]. split; [|by vm_compute].
  apply list_elem_of_In. vm_compute. tauto.
Qed.

Section Remains.

Context {pyfloat : Type}.
Variable float_str : pyfloat → string.
Variable E : env.
Implicit Types (a : @args pyfloat) (w : world) (l : locals).

(** C1 (amended) — when the pipeline returns, the stages have returned
    the paths [l] in a world [wm] and the last step follows. With
    [keep_files] true the last step changes nothing. With [keep_files]
    false the files that exist afterwards are exactly those that
    existed in [wm] and are not listed for removal (the files bound to
    [vocals_path] and [main_vocals_path], the two vocals with effects
    and, when the overall pitch change is not zero, the two shifted
    copies); the instrumental and the backup vocals remain, and so do
    the two covers when the format is [mp3] or [wav]. *)
Theorem cleanup_removes_listed_files a w covers w' :
  song_cover_pipeline float_str E a w = (Ok covers, w') →
  ∃ l wm,
    resolve_and_run float_str E a w = (Ok l, wm) ∧
    covers = (ai_cover_path (names l), ai_cover_backing_path (names l)) ∧
    (keep_files a = true → w' = wm) ∧
    (keep_files a = false →
     (∀ p, p ∈ paths w' ↔ p ∈ paths wm ∧ ¬ removed_by (intermediate_files a l) p) ∧
     instrumentals_path (found l) ∈ paths w' ∧
     backup_vocals_path (found l) ∈ paths w' ∧
     (output_format a = "mp3" ∨ output_format a = "wav" →
      ai_cover_path (names l) ∈ paths w' ∧ ai_cover_backing_path (names l) ∈ paths w')).
Proof.
  intros H. apply pipeline_ok_inv in H as (l & Hbody & ->).
  apply body_ok_inv in Hbody as (wm & Hrun & Hclean). exists l, wm.
  do 2 (split; [done|]).
  apply cleanup_stage_ok in Hclean as [Hkeep Hrm]. split; [done|].
  intros Hk. specialize (Hrm Hk). split; [done|].
  apply resolve_and_run_ok in Hrun as (_ & _ & it & si & id & w1 & _ & Hst).
  pose proof (run_stages_stems _ _ _ _ _ _ _ _ _ Hst) as Hstems.
  apply run_stages_ok in Hst as (w2 & _ & _ & Hdir & Hnames & Hml & Hmb & _ & Hsh & Hc & Hcb).
  assert (∀ p, p ∈ paths wm → ¬ intermediate_ending p → p ∈ paths w') as Hkept.
  { intros p Hp Hne. apply Hrm. split; [done|]. intros [_ Hin]. apply Hne.
    by apply (intermediate_files_endings a l wm). }
  destruct Hstems as (Hi & Hm & Hb & Hie & Hme & Hbe & _).
  split; [apply Hkept; [done|by apply instrumental_kept]|].
  split; [apply Hkept; [done|by apply backup_kept]|].
  intros Hfmt.
  destruct (cover_paths_end float_str a (song_dir l) (orig_song_path (found l))
              (pitch_change a + pitch_change_all a)) as [He1 He2].
  rewrite <- Hnames in He1, He2.
  split; (apply Hkept; [done|]).
  - apply (cover_kept _ (output_format a) " Ver"); auto.
  - apply (cover_kept _ (output_format a) " Ver With Backing"); auto.
Qed.

End Remains.

(** The first run on a song with the files not kept: the instrumental,
    the backup vocals and the covers remain. *)
Lemma cleanup_removes_listed_files_witness :
  let w' := snd (song_cover_pipeline (λ s : string, s) quiet_env (alice_args 2 false)
                   fresh_world) in
  ∃ l wm,
    resolve_and_run (λ s : string, s) quiet_env (alice_args 2 false) fresh_world = (Ok l, wm) ∧
    ("/app/song_output/ba80a53f981/song (alice Ver).mp3",
     "/app/song_output/ba80a53f981/song (alice Ver With Backing).mp3")
    = (ai_cover_path (names l), ai_cover_backing_path (names l)) ∧
    (false = true → w' = wm) ∧
    (false = false →
     (∀ p, p ∈ paths w' ↔
           p ∈ paths wm ∧ ¬ removed_by (intermediate_files (alice_args 2 false) l) p) ∧
     instrumentals_path (found l) ∈ paths w' ∧
     backup_vocals_path (found l) ∈ paths w' ∧
     ("mp3" = "mp3" ∨ "mp3" = "wav" →
      ai_cover_path (names l) ∈ paths w' ∧ ai_cover_backing_path (names l) ∈ paths w')).
Proof.
  refine (cleanup_removes_listed_files (λ s : string, s) quiet_env (alice_args 2 false)
            fresh_world _ _ _).
  vm_compute. reflexivity.
Defined.

(** ** Errors of the last step *)

(** C5, as stated, fails: when the removal of the lead vocals with
    effects is denied, the pipeline raises the error of the removal,
    after both covers have been written. *)
Lemma denied_removal_fails_pipeline :
  let denied :=
    "/app/song_output/ba80a53f981/song_lead_alice_p2_i0.5_fr3_rms0.25_pro0.33_rmvpe_mixed.wav" in
  let r := song_cover_pipeline (λ s : string, s) (denying_env denied) (alice_args 2 false)
             fresh_world in
  fst r = Raise (PyException "Permission denied") ∧
  "/app/song_output/ba80a53f981/song (alice Ver).mp3" ∈ paths (snd r) ∧
  "/app/song_output/ba80a53f981/song (alice Ver With Backing).mp3" ∈ paths (snd r).
Proof.
  cbv zeta. split; [by vm_compute|].
  split; apply list_elem_of_In; vm_compute; tauto.
Qed.

Section CleanupErrors.

Context {pyfloat : Type}.
Variable float_str : pyfloat → string.
Variable E : env.
Implicit Types (a : @args pyfloat) (w : world) (l : locals).

(** C5 (amended) — the last step is inside the [try] block like the
    stages, and no error is suppressed. When a stage raises, the
    pipeline raises an exception with the same message, in the world
    left by the stage. When the stages return: with [keep_files] true
    the pipeline returns the two cover paths; with [keep_files] false
    it returns them if no removal of a listed file fails (a listed file
    that does not exist is skipped), and if the removal of a listed
    file that exists fails, the pipeline raises the error of a failed
    removal of a listed file. *)
Theorem cleanup_failure_raises a w r wm :
  resolve_and_run float_str E a w = (r, wm) →
  match r with
  | Raise e =>
      song_cover_pipeline float_str E a w
      = (Raise (exception_of (is_webui a) (exn_msg e)), wm)
  | Ok l =>
      let covers := (ai_cover_path (names l), ai_cover_backing_path (names l)) in
      (keep_files a = true → song_cover_pipeline float_str E a w = (Ok covers, wm)) ∧
      (keep_files a = false →
       (∀ f, Some f ∈ intermediate_files a l → fault E (Remove f) = None) →
       ∃ w', song_cover_pipeline float_str E a w = (Ok covers, w')) ∧
      (keep_files a = false →
       ∀ f m, Some f ∈ intermediate_files a l → f ≠ EmptyString → f ∈ paths wm →
              fault E (Remove f) = Some m →
       ∃ f' m' w',
         song_cover_pipeline float_str E a w
         = (Raise (exception_of (is_webui a) m'), w') ∧
         Some f' ∈ intermediate_files a l ∧ fault E (Remove f') = Some m')
  end.
Proof.
  intros Hrun. rewrite pipeline_finish. unfold song_cover_body.
  rewrite bind_unfold, Hrun. destruct r as [l|e]; [|done].
  cbv zeta. unfold cleanup_stage. split; [|split].
  - intros ->. cbn [negb when]. by rewrite bind_unfold.
  - intros -> Hnf. cbn [negb when].
    rewrite (bind_unfold (display_progress _ _ ≫= _)), bind_unfold, display_progress_spec.
    match goal with
    | |- context [for_each _ _ ?w0] =>
        destruct (remove_loop_total E (intermediate_files a l) w0 Hnf) as [w' Hloop]
    end.
    rewrite Hloop. by exists w'.
  - intros -> f m Hin Hne Hex Hf. cbn [negb when].
    rewrite (bind_unfold (display_progress _ _ ≫= _)), bind_unfold, display_progress_spec.
    match goal with
    | |- context [for_each _ _ ?w0] =>
        destruct (remove_loop_fault E (intermediate_files a l) w0 f m Hin Hne Hex Hf)
          as (f' & m' & w' & Hloop & Hin' & Hf')
    end.
    rewrite Hloop. by exists f', m', w'.
Qed.

End CleanupErrors.

(** The removal of the lead vocals with effects is denied: the stages
    return, and the pipeline raises the error of the removal. *)
Lemma cleanup_failure_raises_witness :
  let denied :=
    "/app/song_output/ba80a53f981/song_lead_alice_p2_i0.5_fr3_rms0.25_pro0.33_rmvpe_mixed.wav" in
  let E := denying_env denied in
  let a := alice_args 2 false in
  ∃ l, fst (resolve_and_run (λ s : string, s) E a fresh_world) = Ok l ∧
       ∃ f' m' w',
         song_cover_pipeline (λ s : string, s) E a fresh_world
         = (Raise (exception_of (is_webui a) m'), w') ∧
         Some f' ∈ intermediate_files a l ∧ fault E (Remove f') = Some m'.
Proof.
  cbv zeta. eexists. split; [vm_compute; reflexivity|].
  refine (proj2 (proj2 (cleanup_failure_raises (λ s : string, s) _ (alice_args 2 false)
                          fresh_world (Ok _) _ _))
            eq_refl _ "Permission denied" _ _ _ _).
  - vm_compute. reflexivity.
  - apply list_elem_of_In. vm_compute. right; right; left. reflexivity.
  - done.
  - apply list_elem_of_In. vm_compute. tauto.
  - vm_compute. reflexivity.
Defined.

(** ** When the stages run *)

(** C3, as stated, fails: in the world left by a run that stopped
    between the two conversions, the lead output exists and the backing
    output does not; the next run with the same parameters makes no
    voice conversion, does not produce the backing output, and raises
    when the effects are applied to it. *)
Lemma backing_conversion_skipped :
  let n := artifact_paths (λ s : string, s) (alice_args 2 false) song_dir_abc
             "/app/song_output/ba80a53f981/song.wav" 2 in
  let r := song_cover_pipeline (λ s : string, s) quiet_env (alice_args 2 false)
             half_converted_world in
  ai_vocals_path n ∈ paths half_converted_world ∧
  ai_backing_path n ∉ paths half_converted_world ∧
  convert_stage quiet_env (alice_args 2 false)
    {| orig_song_path := "/app/song_output/ba80a53f981/song.wav";
       vocals_path := None;
       instrumentals_path := "/app/song_output/ba80a53f981/song_Instrumental.wav";
       main_vocals_path := Some "/app/song_output/ba80a53f981/song_Vocals_Main_DeReverb.wav";
       backup_vocals_path := "/app/song_output/ba80a53f981/song_Vocals_Backup.wav";
       main_vocals_dereverb_path :=
         "/app/song_output/ba80a53f981/song_Vocals_Main_DeReverb.wav" |}
    n 2 half_converted_world
  = (Ok tt, half_converted_world) ∧
  forallb (λ c, negb (is_conversion_call c)) (log (snd r)) = true ∧
  ai_backing_path n ∉ paths (snd r) ∧
  fst r = Raise (PyException ("No such file: " +:+ ai_backing_path n)).
Proof.
  cbv zeta. split; [apply list_elem_of_In; vm_compute; tauto|].
  split; [apply (bool_decide_unpack _); by vm_compute|].
  split; [by vm_compute|]. split; [by vm_compute|].
  split; [apply (bool_decide_unpack _); by vm_compute|by vm_compute].
Qed.

Section StageConditions.

Context {pyfloat : Type}.
Variable E : env.
Implicit Types (a : @args pyfloat) (w : world) (d : discovery) (n : artifacts).

(** C3 (amended) — when no call fails and the inputs exist: the two
    voice conversions are under one test, the existence of the lead
    output; when it exists nothing is converted, whether the backing
    output exists or not, and when it is absent both voices are
    converted and both outputs exist afterwards. The effects and the
    mix run whether their outputs exist or not. The pitch shift of a
    file alone tests its own output: it runs when the shifted file is
    absent and changes nothing when it exists. *)
Theorem stages_run_conditions a d n (p : Z) w :
  no_fault E → model_available E (voice_model a) w →
  main_vocals_dereverb_path d ∈ paths w → backup_vocals_path d ∈ paths w →
  (ai_vocals_path n ∈ paths w → convert_stage E a d n p w = (Ok tt, w)) ∧
  (ai_vocals_path n ∉ paths w →
   ∃ mp ip mp' ip' w',
     convert_stage E a d n p w = (Ok tt, w') ∧
     ai_vocals_path n ∈ paths w' ∧ ai_backing_path n ∈ paths w' ∧
     log w' = log w ++
       [message_call "[~] Converting lead voice using RVC..." (is_webui a);
        RvcInfer mp ip (main_vocals_dereverb_path d) (ai_vocals_path n) p (f0_method a);
        message_call "[~] Converting backing voice using RVC..." (is_webui a);
        RvcInfer mp' ip' (backup_vocals_path d) (ai_backing_path n) p (f0_method a)]) ∧
  (ai_vocals_path n ∈ paths w → ai_backing_path n ∈ paths w →
   ∃ w', effects_stage E a n w
         = (Ok (mixed (ai_vocals_path n), mixed (ai_backing_path n)), w') ∧
         log w' = log w ++
           [message_call "[~] Applying audio effects to Vocals..." (is_webui a);
            Effects (ai_vocals_path n) (mixed (ai_vocals_path n));
            Effects (ai_backing_path n) (mixed (ai_backing_path n))]) ∧
  (∀ lead backing inst backup,
     lead ∈ paths w → backing ∈ paths w → inst ∈ paths w → backup ∈ paths w →
     ∃ w', mix_stage E a n lead backing inst backup w = (Ok tt, w') ∧
           log w' = log w ++
             [message_call "[~] Combining AI Vocals and Instrumentals..." (is_webui a);
              Mix lead backup inst (ai_cover_path n) (output_format a);
              Mix lead backing inst (ai_cover_backing_path n) (output_format a)]) ∧
  (∀ q k, q ∈ paths w →
     ∃ w', pitch_shift E q k w = (Ok (shifted q k), w') ∧
           (shifted q k ∈ paths w → w' = w) ∧
           (shifted q k ∉ paths w → w' = after_call (SoxPitch q (shifted q k) k) [shifted q k] w)).
Proof.
  intros Hnf Hmodel Hmain Hbackup. repeat apply conj.
  - apply convert_stage_skip.
  - intros Habs.
    destruct (convert_stage_run E a d n p w Habs Hnf Hmodel Hmain Hbackup)
      as (mp & ip & mp' & ip' & w' & H & _ & Hl & Hb & Hlog).
    by exists mp, ip, mp', ip', w'.
  - intros Hl Hb.
    destruct (effects_stage_ok E a n w Hnf Hl Hb) as (w' & H & _ & _ & _ & Hlog).
    by exists w'.
  - intros lead backing inst backup Hl Hb Hi Hbk.
    destruct (mix_stage_ok E a n lead backing inst backup w Hnf Hl Hb Hi Hbk)
      as (w' & H & _ & _ & _ & Hlog).
    by exists w'.
  - intros q k Hq.
    destruct (pitch_shift_ok E q k w Hnf Hq) as (w' & H & _ & _ & Hsame & Hrun).
    by exists w'.
Qed.

End StageConditions.

(** In the world left between the two conversions the stage converts
    nothing. *)
Lemma stages_run_conditions_witness :
  let d := {| orig_song_path := "/app/song_output/ba80a53f981/song.wav";
              vocals_path := None;
              instrumentals_path := "/app/song_output/ba80a53f981/song_Instrumental.wav";
              main_vocals_path :=
                Some "/app/song_output/ba80a53f981/song_Vocals_Main_DeReverb.wav";
              backup_vocals_path := "/app/song_output/ba80a53f981/song_Vocals_Backup.wav";
              main_vocals_dereverb_path :=
                "/app/song_output/ba80a53f981/song_Vocals_Main_DeReverb.wav" |} in
  let n := artifact_paths (λ s : string, s) (alice_args 2 false) song_dir_abc
             "/app/song_output/ba80a53f981/song.wav" 2 in
  convert_stage quiet_env (alice_args 2 false) d n 2 half_converted_world
  = (Ok tt, half_converted_world).
Proof.
  cbv zeta.
  refine (proj1 (stages_run_conditions quiet_env (alice_args 2 false) _ _ 2
                   half_converted_world _ _ _ _) _).
  - intros c. reflexivity.
  - split; [apply list_elem_of_In; vm_compute; tauto|].
    exists "/app/rvc_models/alice/alice.pth", "alice.pth".
    split; [apply list_elem_of_In; vm_compute; tauto|]. split; reflexivity.
  - apply list_elem_of_In; vm_compute; tauto.
  - apply list_elem_of_In; vm_compute; tauto.
  - apply list_elem_of_In; vm_compute; tauto.
Defined.

(** ** Reuse of the stems *)

Section Reuse.

Context {pyfloat : Type}.
Variable float_str : pyfloat → string.
Variable E : env.
Implicit Types (a : @args pyfloat) (w : world) (l : locals).

(** The resolution of the input creates and removes nothing. *)
Lemma resolve_input_paths a w x w1 :
  resolve_input E a w = (Ok x, w1) → paths w1 = paths w.
Proof.
  unfold resolve_input. intros H.
  apply bind_ok_inv in H as (parsed & w0 & H0 & H).
  unfold lift in H0. injection H0 as _ <-.
  case_bool_decide.
  - apply bind_ok_inv in H as ([sid|] & w2 & H2 & H).
    + unfold lift in H2. injection H2 as _ <-. by injection H as _ <-.
    + by rewrite raise_exception_spec in H.
  - apply bind_ok_inv in H as (ex & w2 & [= _ <-] & H).
    destruct ex; [|by rewrite raise_exception_spec in H].
    apply bind_ok_inv in H as (sid & w3 & H3 & [= _ <-]).
    unfold get_hash in H3. apply bind_ok_inv in H3 as ([] & w4 & H4 & H3).
    apply external_ok_inv in H4 as (_ & _ & ->).
    destruct (read_chunks _ _ _ _); [|done]. by injection H3 as _ <-.
Qed.

Lemma holds_stems_paths dir w w1 :
  paths w1 = paths w → holds_stems dir w → holds_stems dir w1.
Proof. unfold holds_stems. by intros ->. Qed.

Lemma model_available_paths vm w w1 :
  paths w1 = paths w → model_available E vm w → model_available E vm w1.
Proof. unfold model_available. by intros ->. Qed.

(** Neither the late stages nor the last step call the preprocessing. *)
Lemma late_call_not_preprocessing c : is_late_call c → ¬ is_preprocessing_call c.
Proof. destruct c; simpl; tauto. Qed.

Lemma cleanup_call_not_preprocessing files c :
  is_cleanup_call files c → ¬ is_preprocessing_call c.
Proof. destruct c; simpl; tauto. Qed.

(** With the stems at hand and the files not kept, the stages and the
    last step make no call of the preprocessing, whatever their
    outcome. *)
Lemma body_reuse_calls a it si id w r w' :
  Path.join (output_dir E) id ∈ paths w → holds_stems (Path.join (output_dir E) id) w →
  keep_files a = false →
  (l ← run_stages float_str E a it si id; cleanup_stage E a l;; ret l) w = (r, w') →
  ∃ calls, log w' = log w ++ calls ∧ Forall (λ c, ¬ is_preprocessing_call c) calls.
Proof.
  intros Hdir Hstems Hkeep H.
  apply bind_inv in H as [(l & wm & Hrun & H)|(e & Hrun & ->)].
  - apply (respects_run_stages_reuse float_str E a it si id w _ wm Hdir Hstems Hkeep)
      in Hrun as (l1 & Hl1 & HP1 & _).
    assert (evolves (is_cleanup_call (intermediate_files a l)) wm w') as (l2 & Hl2 & HP2 & _).
    { apply bind_inv in H as [([] & w2 & Hc & [= _ <-])|(e & Hc & _)];
        by apply respects_cleanup_stage in Hc. }
    exists (l1 ++ l2). rewrite Hl2, Hl1, app_assoc. split; [done|].
    apply Forall_app. split.
    + revert HP1. apply List.Forall_impl, late_call_not_preprocessing.
    + revert HP2. apply List.Forall_impl, cleanup_call_not_preprocessing.
  - apply (respects_run_stages_reuse float_str E a it si id w _ w' Hdir Hstems Hkeep)
      in Hrun as (l1 & Hl1 & HP1 & _).
    exists l1. split; [done|].
    revert HP1. apply List.Forall_impl, late_call_not_preprocessing.
Qed.

(** With the stems at hand, the files not kept, no failing call and the
    voice model in place, the stages return when the backing output
    exists whenever the lead output does. *)
Lemma run_stages_total a it si id w :
  let dir := Path.join (output_dir E) id in
  dir ∈ paths w → holds_stems dir w → keep_files a = false →
  no_fault E → model_available E (voice_model a) w →
  (∀ orig, let n := artifact_paths float_str a dir orig
                      (pitch_change a + pitch_change_all a) in
           ai_vocals_path n ∈ paths w → ai_backing_path n ∈ paths w) →
  ∃ l wm, run_stages float_str E a it si id w = (Ok l, wm).
Proof.
  cbv zeta. intros Hdir Hstems Hkeep Hnf Hmodel Hboth. unfold run_stages. cbv zeta.
  destruct (resolve_discovery_reuse E a it si id _ w Hdir Hstems Hkeep)
    as (d & Hd & _ & Hi & Hm & Hb & _).
  rewrite bind_unfold, Hd.
  set (n := artifact_paths float_str a _ (orig_song_path d) _).
  assert (∃ w2, convert_stage E a d n (pitch_change a + pitch_change_all a) w = (Ok tt, w2) ∧
                paths_kept w w2 ∧ ai_vocals_path n ∈ paths w2 ∧ ai_backing_path n ∈ paths w2)
    as (w2 & H2 & Hk2 & Hlead & Hbacking).
  { destruct (decide (ai_vocals_path n ∈ paths w)) as [Hin|Hout].
    - exists w. rewrite convert_stage_skip by done.
      split; [done|]. split; [apply paths_kept_refl|]. split; [done|].
      by apply (Hboth (orig_song_path d)).
    - destruct (convert_stage_run E a d n (pitch_change a + pitch_change_all a) w
                  Hout Hnf Hmodel Hm Hb) as (? & ? & ? & ? & w2 & H2 & Hk & Hl & Hbk & _).
      by exists w2. }
  rewrite bind_unfold, H2.
  destruct (effects_stage_ok E a n w2 Hnf Hlead Hbacking)
    as (w3 & H3 & Hk3 & Hml & Hmb & _).
  rewrite bind_unfold, H3.
  destruct (shift_stage_ok E a d w3 Hnf) as (inst & backup & w4 & H4 & Hk4 & Hinst & Hbackup);
    [by apply Hk3, Hk2..|].
  rewrite bind_unfold, H4.
  destruct (mix_stage_ok E a n _ _ inst backup w4 Hnf (Hk4 _ Hml) (Hk4 _ Hmb) Hinst Hbackup)
    as (w5 & H5 & _).
  rewrite bind_unfold, H5. by eexists _, _.
Qed.

End Reuse.

(** ** The warm cache *)

(** C4, as stated, fails: in the world left by a run that stopped
    between the two conversions, the song directory lists the stems,
    [get_audio_paths] finds the four paths and the files are not kept;
    the next run with the same parameters makes no call of the
    preprocessing, and it does not complete: it raises when the effects
    are applied to the backing output that was never made. *)
Lemma interrupted_conversion_blocks_rerun :
  let a := alice_args 2 false in
  let r := song_cover_pipeline (λ s : string, s) quiet_env a half_converted_world in
  keep_files a = false ∧
  song_dir_abc ∈ paths half_converted_world ∧
  get_audio_paths song_dir_abc half_converted_world
  = (Ok (Some "/app/song_output/ba80a53f981/song.wav",
         Some "/app/song_output/ba80a53f981/song_Instrumental.wav",
         Some "/app/song_output/ba80a53f981/song_Vocals_Main_DeReverb.wav",
         Some "/app/song_output/ba80a53f981/song_Vocals_Backup.wav"),
     half_converted_world) ∧
  Forall (λ c, ¬ is_preprocessing_call c) (log (snd r)) ∧
  fst r = Raise (PyException
                   ("No such file: /app/song_output/ba80a53f981/" +:+
                    "song_backing_alice_p2_i0.5_fr3_rms0.25_pro0.33_rmvpe.wav")).
Proof.
  cbv zeta. split; [done|].
  split; [apply (bool_decide_unpack _); by vm_compute|].
  split; [by vm_compute|]. split; [|by vm_compute].
  assert (log (snd (song_cover_pipeline (λ s : string, s) quiet_env (alice_args 2 false)
                      half_converted_world))
          = [Print "[~] Starting AI Cover Generation Pipeline...";
             OpenRead "/home/u/song.wav";
             Print "[~] Applying audio effects to Vocals...";
             Effects
               "/app/song_output/ba80a53f981/song_lead_alice_p2_i0.5_fr3_rms0.25_pro0.33_rmvpe.wav"
               "/app/song_output/ba80a53f981/song_lead_alice_p2_i0.5_fr3_rms0.25_pro0.33_rmvpe_mixed.wav";
             Effects
               "/app/song_output/ba80a53f981/song_backing_alice_p2_i0.5_fr3_rms0.25_pro0.33_rmvpe.wav"
               "/app/song_output/ba80a53f981/song_backing_alice_p2_i0.5_fr3_rms0.25_pro0.33_rmvpe_mixed.wav"])
    as -> by by vm_compute.
  repeat constructor; simpl; tauto.
Qed.

Section WarmCache.

Context {pyfloat : Type}.
Variable float_str : pyfloat → string.
Variable E : env.
Implicit Types (a : @args pyfloat) (w : world) (l : locals).

(** The resolution of the input calls no preprocessing. *)
Lemma respects_resolve_input a :
  respects (λ c, ¬ is_preprocessing_call c) (resolve_input E a).
Proof.
  unfold resolve_input, get_hash.
  respects_with ltac:(apply respects_raise_exception); simpl; tauto.
Qed.

(** C4 — the song directory exists and lists the three stems that
    [get_audio_paths] looks for, and the files are not kept. Then the
    discovery returns the paths found in the directory and leaves the
    world as it is; whatever the outcome of the pipeline, its calls
    include no download, no stereo conversion and no separation pass;
    and when no call fails, the voice model is in place and the backing
    output exists whenever the lead output does (as when neither
    exists, the run having stopped after the separation), the pipeline
    returns the two cover paths. *)
Theorem warm_cache_skips_preprocessing a w it si id w1 :
  song_input a ≠ EmptyString → voice_model a ≠ EmptyString →
  resolve_input E a (started (is_webui a) w) = (Ok (it, si, id), w1) →
  Path.join (output_dir E) id ∈ paths w →
  holds_stems (Path.join (output_dir E) id) w →
  keep_files a = false →
  let dir := Path.join (output_dir E) id in
  (∃ d, resolve_discovery E a it si id dir w1 = (Ok d, w1) ∧
        vocals_path d = None ∧ stems_ok d w1) ∧
  (∀ r w', song_cover_pipeline float_str E a w = (r, w') →
     ∃ calls, log w' = log w ++ calls ∧
              Forall (λ c, ¬ is_preprocessing_call c) calls) ∧
  (no_fault E → model_available E (voice_model a) w →
   (∀ orig, let n := artifact_paths float_str a dir orig
                       (pitch_change a + pitch_change_all a) in
            ai_vocals_path n ∈ paths w → ai_backing_path n ∈ paths w) →
   ∃ covers w', song_cover_pipeline float_str E a w = (Ok covers, w')).
Proof.
  intros Hs Hv Hin Hdir Hstems Hkeep. cbv zeta.
  pose proof (resolve_input_paths E a _ _ _ Hin) as Hpaths.
  change (paths (started (is_webui a) w)) with (paths w) in Hpaths.
  assert (Path.join (output_dir E) id ∈ paths w1) as Hdir1 by by rewrite Hpaths.
  pose proof (holds_stems_paths _ _ _ Hpaths Hstems) as Hstems1.
  pose proof (body_after_input float_str E a w it si id w1 Hs Hv Hin) as Hbody.
  split; [by apply resolve_discovery_reuse|]. split.
  - intros r w'. rewrite pipeline_finish, Hbody.
    match goal with
    | |- finish _ ?x = _ → _ => destruct x as [r0 w0] eqn:Hrun
    end.
    assert (w' = w0 → ∃ calls, log w' = log w ++ calls ∧
                               Forall (λ c, ¬ is_preprocessing_call c) calls) as Hlog.
    { intros ->.
      apply (body_reuse_calls float_str E a it si id w1 r0 w0 Hdir1 Hstems1 Hkeep)
        in Hrun as (l2 & Hl2 & HP2).
      apply respects_resolve_input in Hin as (l1 & Hl1 & HP1 & _).
      exists ([message_call "[~] Starting AI Cover Generation Pipeline..." (is_webui a)]
              ++ l1 ++ l2).
      split; [rewrite Hl2, Hl1; unfold started; cbn [log]; by rewrite <- !app_assoc|].
      apply Forall_app. split; [|by apply Forall_app].
      constructor; [|constructor].
      destruct (is_webui a); simpl; tauto. }
    unfold finish. destruct r0; intros [= _ <-]; by apply Hlog.
  - intros Hnf Hmodel Hboth.
    destruct (run_stages_total float_str E a it si id w1 Hdir1 Hstems1 Hkeep Hnf)
      as (l & wm & Hrun).
    { by apply (model_available_paths E _ w). }
    { intros orig. cbv zeta. rewrite Hpaths. apply Hboth. }
    assert (∃ w', cleanup_stage E a l wm = (Ok tt, w')) as [w' Hclean].
    { unfold cleanup_stage. rewrite Hkeep. cbn [negb when].
      rewrite bind_unfold, display_progress_spec.
      apply remove_loop_total. intros f _. apply Hnf. }
    exists (ai_cover_path (names l), ai_cover_backing_path (names l)), w'.
    by rewrite pipeline_finish, Hbody, bind_unfold, Hrun, bind_unfold, Hclean.
Qed.

(** C9 — in a song directory that exists, [keep_files] makes the
    discovery run the whole preprocessing, stems or no stems; when the
    discovery then returns, its calls show the download (for a link),
    the loading for the stereo conversion and the three separation
    passes. A discovery that returns without a separation pass has
    left the world as it is, with the files not kept, the directory in
    place and the four paths found by [get_audio_paths]; and with the
    stems at hand and the files not kept, the discovery does return
    without any call. *)
Theorem keep_files_forces_preprocessing a (it si id dir : string) w :
  (dir ∈ paths w → keep_files a = true →
   resolve_discovery E a it si id dir w
   = (r ← preprocess_song E si id (is_webui a) it; ret (preprocessed r)) w) ∧
  (keep_files a = true →
   ∀ d w', resolve_discovery E a it si id dir w = (Ok d, w') →
           ∃ calls, log w' = log w ++ calls ∧ preprocessing_calls it calls) ∧
  (∀ d w', resolve_discovery E a it si id dir w = (Ok d, w') →
           (∀ calls model input, log w' = log w ++ calls → Separate model input ∉ calls) →
           w' = w ∧ keep_files a = false ∧ dir ∈ paths w ∧
           ∃ o i m b, get_audio_paths dir w = (Ok (Some o, Some i, Some m, Some b), w)) ∧
  (dir ∈ paths w → holds_stems dir w → keep_files a = false →
   ∃ d, resolve_discovery E a it si id dir w = (Ok d, w) ∧
        vocals_path d = None ∧ stems_ok d w).
Proof.
  repeat apply conj.
  - apply resolve_discovery_forced.
  - intros Hkeep d w' H.
    apply resolve_discovery_ok in H as [_ [H|(_ & _ & Hk & _)]]; [done|congruence].
  - intros d w' H Hno. apply (resolve_discovery_reuse_only E a it si id dir w d w' H).
    intros calls input Hlog. by apply Hno.
  - apply resolve_discovery_reuse.
Qed.

End WarmCache.

(** A run on the world left after the separation: it makes no call of
    the preprocessing and returns the two covers. *)
Lemma warm_cache_skips_preprocessing_witness :
  let r := song_cover_pipeline (λ s : string, s) quiet_env (alice_args 2 false)
             separated_world in
  (∃ calls, log (snd r) = log separated_world ++ calls ∧
            Forall (λ c, ¬ is_preprocessing_call c) calls) ∧
  ∃ covers w', song_cover_pipeline (λ s : string, s) quiet_env (alice_args 2 false)
                 separated_world = (Ok covers, w').
Proof.
  cbv zeta.
  assert (∀ p, In p (paths separated_world) → p ∈ paths separated_world) as Hin
    by (intros p; apply list_elem_of_In).
  destruct (warm_cache_skips_preprocessing (λ s : string, s) quiet_env
              (alice_args 2 false) separated_world "local" "/home/u/song.wav"
              "ba80a53f981"
              {| paths := paths separated_world;
                 log := [Print "[~] Starting AI Cover Generation Pipeline...";
                         OpenRead "/home/u/song.wav"] |})
    as (_ & Hcalls & Hreturns).
  - done.
  - done.
  - vm_compute. reflexivity.
  - apply Hin. vm_compute. tauto.
  - intros suffix Hsuffix. rewrite !elem_of_cons in Hsuffix.
    destruct Hsuffix as [->|[->|[->|Hnil]]].
    + exists "/app/song_output/ba80a53f981/song_Instrumental.wav", "song_Instrumental.wav".
      split; [apply Hin; vm_compute; tauto|]. split; reflexivity.
    + exists "/app/song_output/ba80a53f981/song_Vocals_Main_DeReverb.wav",
             "song_Vocals_Main_DeReverb.wav".
      split; [apply Hin; vm_compute; tauto|]. split; reflexivity.
    + exists "/app/song_output/ba80a53f981/song_Vocals_Backup.wav", "song_Vocals_Backup.wav".
      split; [apply Hin; vm_compute; tauto|]. split; reflexivity.
    + by apply elem_of_nil in Hnil.
  - reflexivity.
  - split; [eapply Hcalls; apply surjective_pairing|]. apply Hreturns.
    + intros c. reflexivity.
    + split; [apply Hin; vm_compute; tauto|].
      exists "/app/rvc_models/alice/alice.pth", "alice.pth".
      split; [apply Hin; vm_compute; tauto|]. split; reflexivity.
    + intros orig. cbv zeta. intros Hlead. exfalso.
      assert (ends (ai_vocals_path
                      (artifact_paths (λ s : string, s) (alice_args 2 false)
                         (Path.join (output_dir quiet_env) "ba80a53f981") orig
                         (pitch_change (alice_args 2 false)
                          + pitch_change_all (alice_args 2 false))))
                   "_rmvpe.wav") as Hends.
      { unfold artifact_paths. cbn [ai_vocals_path]. apply join_ends.
        exists (fst (Path.splitext (Path.basename orig))
                +:+ "_lead_alice_p2_i0.5_fr3_rms0.25_pro0.33").
        rewrite str_app_assoc. f_equal. }
      apply endswith_spec in Hends. apply list_elem_of_In in Hlead.
      cbn [paths separated_world In] in Hlead.
      repeat (destruct Hlead as [Hlead|Hlead];
              [rewrite <- Hlead in Hends; vm_compute in Hends; discriminate|]).
      exact Hlead.
Defined.

(** On the world left after the separation, with the files kept, the
    discovery runs the whole preprocessing again. *)
Lemma keep_files_forces_preprocessing_witness :
  let r := resolve_discovery quiet_env (alice_args 2 true) "local" "/home/u/song.wav"
             "ba80a53f981" song_dir_abc separated_world in
  song_dir_abc ∈ paths separated_world ∧
  holds_stems song_dir_abc separated_world ∧
  ∃ calls, log (snd r) = log separated_world ++ calls ∧ preprocessing_calls "local" calls.
Proof.
  cbv zeta.
  assert (∀ p, In p (paths separated_world) → p ∈ paths separated_world) as Hin
    by (intros p; apply list_elem_of_In).
  split; [apply Hin; vm_compute; tauto|]. split.
  - intros suffix Hsuffix. rewrite !elem_of_cons in Hsuffix.
    destruct Hsuffix as [->|[->|[->|Hnil]]].
    + exists "/app/song_output/ba80a53f981/song_Instrumental.wav", "song_Instrumental.wav".
      split; [apply Hin; vm_compute; tauto|]. split; reflexivity.
    + exists "/app/song_output/ba80a53f981/song_Vocals_Main_DeReverb.wav",
             "song_Vocals_Main_DeReverb.wav".
      split; [apply Hin; vm_compute; tauto|]. split; reflexivity.
    + exists "/app/song_output/ba80a53f981/song_Vocals_Backup.wav", "song_Vocals_Backup.wav".
      split; [apply Hin; vm_compute; tauto|]. split; reflexivity.
    + by apply elem_of_nil in Hnil.
  - refine (proj1 (proj2 (keep_files_forces_preprocessing quiet_env (alice_args 2 true)
                            "local" "/home/u/song.wav" "ba80a53f981" song_dir_abc
                            separated_world)) eq_refl _ _ _).
    vm_compute. reflexivity.
Defined.

(** ** Two runs that differ in one parameter *)

(** C2, as stated, fails: a run with the pitch change 2 followed by a
    run with the pitch change 3 on the same song returns the same two
    cover paths, and the second run separates the song again. *)
Lemma second_run_same_covers :
  let r1 := song_cover_pipeline (λ s : string, s) quiet_env (alice_args 2 false)
              fresh_world in
  let r2 := song_cover_pipeline (λ s : string, s) quiet_env (alice_args 3 false) (snd r1) in
  fst r1 = Ok ("/app/song_output/ba80a53f981/song (alice Ver).mp3",
               "/app/song_output/ba80a53f981/song (alice Ver With Backing).mp3") ∧
  fst r2 = fst r1 ∧
  Separate "model_bs_roformer_ep_317_sdr_12.9755.ckpt" "/home/u/song.wav"
    ∈ drop (length (log (snd r1))) (log (snd r2)).
Proof.
  cbv zeta. split; [by vm_compute|]. split; [by vm_compute|].
  apply list_elem_of_In. vm_compute. tauto.
Qed.

Section OneParameter.

Context {pyfloat : Type}.
Variable float_str : pyfloat → string.
Hypothesis float_str_inj : ∀ x y, float_str x = float_str y → x = y.
Variable E : env.
Implicit Types (a : @args pyfloat) (w : world).

(** C2 (amended) — two runs on the same song whose arguments differ in
    one parameter only, which is the voice model, the pitch change, the
    index rate, the filter radius, the rms mix rate or the protect
    value. Their conversion paths differ. Their cover paths, which
    embed the voice model and the format only, differ when the voice
    model differs and are the same otherwise. When the song directory
    holds the stems and the second run does not keep the files, it
    takes the stems from the directory, and its stages remove no file
    and call nothing but the late stages. *)
Theorem one_parameter_changed (x : param) a a' (it si id : string) w :
  x ≠ PF0Method → x ≠ PHopLength → same_except x a a' → differ x a a' →
  let dir := Path.join (output_dir E) id in
  let names_of a orig :=
    artifact_paths float_str a dir orig (pitch_change a + pitch_change_all a) in
  (∀ orig, ai_vocals_path (names_of a orig) ≠ ai_vocals_path (names_of a' orig) ∧
           ai_backing_path (names_of a orig) ≠ ai_backing_path (names_of a' orig)) ∧
  (∀ orig,
     match x with
     | PVoiceModel =>
         ai_cover_path (names_of a orig) ≠ ai_cover_path (names_of a' orig) ∧
         ai_cover_backing_path (names_of a orig) ≠ ai_cover_backing_path (names_of a' orig)
     | _ =>
         ai_cover_path (names_of a orig) = ai_cover_path (names_of a' orig) ∧
         ai_cover_backing_path (names_of a orig) = ai_cover_backing_path (names_of a' orig)
     end) ∧
  (dir ∈ paths w → holds_stems dir w → keep_files a' = false →
   (∃ d, resolve_discovery E a' it si id dir w = (Ok d, w) ∧ stems_ok d w) ∧
   ∀ r w', run_stages float_str E a' it si id w = (r, w') →
           paths_kept w w' ∧
           ∃ calls, log w' = log w ++ calls ∧ Forall is_late_call calls).
Proof.
  intros Hx1 Hx2 Hsame Hdiff. cbv zeta. repeat apply conj.
  - intros orig. by apply (conversion_paths_differ float_str float_str_inj x).
  - intros orig. destruct Hsame as (Hvm & _ & _ & _ & _ & _ & _ & _ & _ & Hfmt).
    destruct x; try done; try (apply cover_paths_same; by auto).
    by apply cover_paths_differ.
  - intros Hdir Hstems Hkeep. split.
    + destruct (resolve_discovery_reuse E a' it si id _ w Hdir Hstems Hkeep)
        as (d & Hd & _ & Hok).
      by exists d.
    + intros r w' Hrun.
      pose proof (respects_run_stages_reuse float_str E a' it si id w r w'
                    Hdir Hstems Hkeep Hrun) as Hev.
      split; [by apply late_calls_keep_paths|].
      destruct Hev as (calls & Hlog & Hlate & _). by exists calls.
Qed.

End OneParameter.

(** A change of the pitch from 2 to 3: other conversion paths, the
    same cover paths. *)
Lemma one_parameter_changed_witness :
  let names_of a :=
    artifact_paths (λ s : string, s) a (Path.join (output_dir quiet_env) "ba80a53f981")
      "/home/u/song.wav" (pitch_change a + pitch_change_all a) in
  ai_vocals_path (names_of (alice_args 2 false))
  ≠ ai_vocals_path (names_of (alice_args 3 false)) ∧
  ai_cover_path (names_of (alice_args 2 false))
  = ai_cover_path (names_of (alice_args 3 false)).
Proof.
  cbv zeta.
  destruct (one_parameter_changed (λ s : string, s) (λ x y H, H) quiet_env PPitchChange
              (alice_args 2 false) (alice_args 3 false) "local" "/home/u/song.wav"
              "ba80a53f981" separated_world) as (Hconv & Hcover & _).
  - done.
  - done.
  - repeat split; done.
  - simpl. lia.
  - split; [apply (Hconv "/home/u/song.wav")|apply (Hcover "/home/u/song.wav")].
Defined.

(** ** Links and identifiers *)

Section Links.

Variable U : urllib_env.

Lemma forallb_app (P : ascii → bool) s t :
  Str.forallb P (s +:+ t) = Str.forallb P s && Str.forallb P t.
Proof.
  induction s as [|a s IH]; [done|]. rewrite str_app_cons. simpl.
  by rewrite IH, andb_assoc.
Qed.

(** A character that fails [P] does not occur in a string of [P]. *)
Lemma contains_forallb (P : ascii → bool) (c : ascii) s :
  Str.forallb P s = true → P c = false → Str.contains c s = false.
Proof.
  intros Hs Hc. induction s as [|a s IH]; [done|]. simpl in *.
  apply andb_true_iff in Hs as [Ha Hs]. case_decide; [congruence|auto].
Qed.

Lemma remove_absent (P : ascii → bool) s :
  Str.forallb (λ c, negb (P c)) s = true → Str.remove P s = s.
Proof.
  induction s as [|a s IH]; [done|]. simpl.
  intros [Ha Hs]%andb_true_iff. apply negb_true_iff in Ha. by rewrite Ha, IH.
Qed.

Lemma partition_none (c : ascii) s :
  Str.contains c s = false → Str.partition c s = None.
Proof.
  induction s as [|a s IH]; [done|]. simpl. case_decide as Ha; [done|].
  intros Hno. by rewrite IH.
Qed.

Lemma split_none (c : ascii) s : Str.contains c s = false → Str.split c s = [s].
Proof.
  induction s as [|a s IH]; [done|]. simpl. case_decide as Ha; [done|].
  intros Hno. by rewrite IH.
Qed.

Lemma split_not_nil (c : ascii) s : Str.split c s ≠ [].
Proof.
  induction s as [|a s IH]; [done|]. simpl.
  destruct (Str.split c s); [done|]. by case_decide.
Qed.

(** The text before the first separator is the first field. *)
Lemma split_app (c : ascii) s t :
  Str.contains c s = false → Str.split c (s +:+ String c t) = s :: Str.split c t.
Proof.
  induction s as [|a s IH]; intros H.
  - rewrite str_app_nil_l. simpl. pose proof (split_not_nil c t) as Hne.
    destruct (Str.split c t); [done|]. by rewrite decide_True.
  - simpl in H. rewrite str_app_cons. simpl. case_decide as Ha; [done|].
    by rewrite IH.
Qed.

Lemma remove_app (P : ascii → bool) s t :
  Str.remove P (s +:+ t) = Str.remove P s +:+ Str.remove P t.
Proof.
  induction s as [|a s IH]; [done|]. rewrite str_app_cons. simpl.
  destruct (P a); [done|]. by rewrite str_app_cons, IH.
Qed.

Lemma partition_app (c : ascii) s t :
  Str.contains c s = false →
  Str.partition c (s +:+ t)
  = match Str.partition c t with
    | Some (l, r) => Some (s +:+ l, r)
    | None => None
    end.
Proof.
  induction s as [|a s IH]; intros Hno.
  - rewrite str_app_nil_l. by destruct (Str.partition c t) as [[l r]|].
  - simpl in Hno. rewrite str_app_cons. simpl. case_decide as Ha; [done|].
    rewrite IH by done. by destruct (Str.partition c t) as [[l r]|].
Qed.

Lemma lstrip_absent (P : ascii → bool) s :
  Str.forallb (λ c, negb (P c)) s = true → Str.lstrip P s = s.
Proof.
  destruct s as [|a s]; [done|]. simpl.
  intros [Ha _]%andb_true_iff. apply negb_true_iff in Ha. by rewrite Ha.
Qed.

Lemma percent_decode_plain s :
  Str.contains "%" s = false → Url.percent_decode s = (s, false).
Proof.
  induction s as [|a s IH]; [done|]. simpl. case_decide as Ha; [done|].
  intros Hno. rewrite IH by done. by rewrite bool_decide_eq_false_2.
Qed.

Lemma replace_char_absent (c : ascii) new s :
  Str.contains c s = false → Str.replace s (String c EmptyString) new = s.
Proof.
  unfold Str.replace. induction s as [|a s IH]; [done|]. simpl.
  case_decide as Ha; [done|]. intros Hno.
  rewrite decide_False by congruence. by rewrite IH.
Qed.

(** Weakening of the predicate of [forallb]. *)
Lemma forallb_impl (P Q : ascii → bool) s :
  (∀ c, P c = true → Q c = true) → Str.forallb P s = true → Str.forallb Q s = true.
Proof.
  intros HPQ. induction s as [|a s IH]; [done|]. simpl.
  intros [Ha Hs]%andb_true_iff. by rewrite (HPQ _ Ha), IH.
Qed.

(** A character of an identifier is none of the characters that the
    parser of links gives a meaning to. *)
Lemma id_char_plain (c : ascii) :
  id_char c = true →
  c ≠ "/"%char ∧ c ≠ "?"%char ∧ c ≠ "#"%char ∧ c ≠ ";"%char ∧ c ≠ "&"%char ∧
  c ≠ "="%char ∧ c ≠ "+"%char ∧ c ≠ "%"%char ∧ Url.unsafe_byte c = false.
Proof.
  intros Hc. repeat split; try (intros ->; by vm_compute in Hc).
  unfold Url.unsafe_byte. rewrite !bool_decide_eq_false_2; [done|..];
    intros ->; by vm_compute in Hc.
Qed.

Lemma video_id_contains (c : ascii) s :
  video_id s → id_char c = false → Str.contains c s = false.
Proof. intros Hs Hc. by apply (contains_forallb id_char). Qed.

Lemma video_id_safe s : video_id s → Str.remove Url.unsafe_byte s = s.
Proof.
  intros Hs. apply remove_absent. revert Hs. apply forallb_impl.
  intros c Hc. apply negb_true_iff. by apply id_char_plain.
Qed.

End Links.

(** Evaluation of the parser on a link that ends with an identifier:
    the tests on closed text are computed, and the identifier goes
    through the steps that look for a special character. *)
Ltac eval_tests :=
  repeat match goal with
    | |- context [Str.lower_char ?c] =>
        let v := eval vm_compute in (Str.lower_char c) in
        change (Str.lower_char c) with v
    | |- context [bool_decide ?P] =>
        let v := eval vm_compute in (bool_decide P) in
        lazymatch v with true => idtac | false => idtac end;
        change (bool_decide P) with v
    end.

Ltac plain_id Hid :=
  let side := (apply (video_id_contains _ _ Hid); reflexivity) in
  first
    [ rewrite (video_id_safe _ Hid)
    | rewrite partition_none by side
    | rewrite split_none by side
    | rewrite percent_decode_plain by side
    | rewrite replace_char_absent by side
    | rewrite (video_id_contains _ _ Hid) by reflexivity ].

Ltac link_steps plain :=
  unfold get_youtube_video_id, Url.urlparse, Url.urlsplit;
  rewrite ?str_app_cons, ?str_app_nil_l;
  repeat first
    [ progress simpl
    | progress eval_tests
    | plain
    | rewrite remove_app
    | progress unfold Url.split_first
    | progress unfold Url.parse_qs_get, Url.parse_qsl
    | progress unfold Url.unquote, Url.plus_to_space
    | progress unfold index ].

Ltac link_eval Hid := link_steps ltac:(plain_id Hid).

(** The same for a link with two identifiers, the first followed by a
    separator. *)
Ltac plain_ids Hid Hid' :=
  let side := (apply (video_id_contains _ _ Hid); reflexivity) in
  first
    [ plain_id Hid'
    | rewrite (video_id_safe _ Hid)
    | rewrite partition_app by side
    | rewrite split_app by side
    | rewrite percent_decode_plain by side
    | rewrite replace_char_absent by side ].

Section LinkForms.

Variable U : urllib_env.

(** X1 — A short link gives what follows the host, for every identifier,
    the empty one included, and whatever [ignore_playlist]. *)
Theorem short_link_id (sch id : string) (b : bool) :
  sch ∈ link_schemes → video_id id →
  get_youtube_video_id U (sch +:+ "://youtu.be/" +:+ id) b = Ok (Some id).
Proof.
  intros Hs Hid. unfold link_schemes in Hs. rewrite !elem_of_cons in Hs.
  destruct Hs as [->|[->|Hs%elem_of_nil]]; [| |done]; link_eval Hid;
    rewrite lstrip_absent; try done;
    revert Hid; apply forallb_impl; intros c Hc;
    apply negb_true_iff, bool_decide_eq_false_2; by apply id_char_plain.
Qed.

(** X2 — The watch form gives the value of [v]; a blank value is no value. *)
Theorem watch_link_id (sch host id : string) (b : bool) :
  sch ∈ link_schemes → host ∈ youtube_hosts → video_id id →
  get_youtube_video_id U (sch +:+ "://" +:+ host +:+ "/watch?v=" +:+ id) b
  = Ok (if bool_decide (id = EmptyString) then None else Some id).
Proof.
  intros Hs Hh Hid. unfold link_schemes in Hs. unfold youtube_hosts in Hh.
  rewrite !elem_of_cons in Hs. rewrite !elem_of_cons in Hh.
  destruct Hs as [->|[->|Hs%elem_of_nil]]; [| |done];
    (destruct Hh as [->|[->|[->|Hh%elem_of_nil]]]; [| | |done]);
    destruct b; link_eval Hid; by case_bool_decide.
Qed.

(** X3 — The embed form and the [/v/] form give the path segment that
    follows. *)
Theorem embed_link_id (sch host form id : string) (b : bool) :
  sch ∈ link_schemes → host ∈ youtube_hosts → form ∈ ["/embed/"; "/v/"] → video_id id →
  get_youtube_video_id U (sch +:+ "://" +:+ host +:+ form +:+ id) b = Ok (Some id).
Proof.
  intros Hs Hh Hf Hid. unfold link_schemes in Hs. unfold youtube_hosts in Hh.
  rewrite !elem_of_cons in Hs. rewrite !elem_of_cons in Hh. rewrite !elem_of_cons in Hf.
  destruct Hs as [->|[->|Hs%elem_of_nil]]; [| |done];
    (destruct Hh as [->|[->|[->|Hh%elem_of_nil]]]; [| | |done]);
    (destruct Hf as [->|[->|Hf%elem_of_nil]]; [| |done]);
    destruct b; link_eval Hid; by destruct id.
Qed.

(** X4 — The raw-path form gives the segment [watch], whatever follows. *)
Theorem watch_path_id (sch host id : string) (b : bool) :
  sch ∈ link_schemes → host ∈ youtube_hosts → video_id id →
  get_youtube_video_id U (sch +:+ "://" +:+ host +:+ "/watch/" +:+ id) b
  = Ok (Some "watch").
Proof.
  intros Hs Hh Hid. unfold link_schemes in Hs. unfold youtube_hosts in Hh.
  rewrite !elem_of_cons in Hs. rewrite !elem_of_cons in Hh.
  destruct Hs as [->|[->|Hs%elem_of_nil]]; [| |done];
    (destruct Hh as [->|[->|[->|Hh%elem_of_nil]]]; [| | |done]);
    destruct b; link_eval Hid; by destruct id.
Qed.

(** X5 — With a playlist in the query, [ignore_playlist] chooses between the
    video and the playlist. *)
Theorem playlist_link_id (sch host id pl : string) (b : bool) :
  sch ∈ link_schemes → host ∈ youtube_hosts → video_id id → video_id pl →
  id ≠ EmptyString → pl ≠ EmptyString →
  get_youtube_video_id U
    (sch +:+ "://" +:+ host +:+ "/watch?v=" +:+ id +:+ "&list=" +:+ pl) b
  = Ok (Some (if b then id else pl)).
Proof.
  intros Hs Hh Hid Hpl Hne Hne'. unfold link_schemes in Hs. unfold youtube_hosts in Hh.
  rewrite !elem_of_cons in Hs. rewrite !elem_of_cons in Hh.
  destruct Hs as [->|[->|Hs%elem_of_nil]]; [| |done];
    (destruct Hh as [->|[->|[->|Hh%elem_of_nil]]]; [| | |done]);
    destruct b; link_steps ltac:(plain_ids Hid Hpl);
    rewrite ?(bool_decide_eq_false_2 (id = EmptyString)),
      ?(bool_decide_eq_false_2 (pl = EmptyString)) by done;
    repeat first [progress simpl | progress eval_tests]; done.
Qed.

End LinkForms.

(** ** Errors of the extraction of the identifier *)

Section VideoIdErrors.

Variable U : urllib_env.

Lemma parse_qs_get_not_nil (q k : string) vs :
  Url.parse_qs_get U q k = Some vs → vs ≠ [].
Proof. unfold Url.parse_qs_get. destruct (omap _ _); [done|]. by intros [= <-]. Qed.

(** The fields of a path that starts with a segment. *)
Lemma split_segment (seg p : string) :
  Str.contains "/" seg = false →
  Str.startswith p ("/" +:+ seg +:+ "/") = true →
  ∃ field rest, Str.split "/" p = EmptyString :: seg :: field :: rest.
Proof.
  intros Hseg Hp. apply startswith_drop in Hp. rewrite Hp.
  destruct (Str.split "/" (Str.drop (Str.len ("/" +:+ seg +:+ "/")) p))
    as [|field rest] eqn:Hsplit; [by apply split_not_nil in Hsplit|].
  exists field, rest. set (k := Str.drop _ p) in *.
  assert (("/" +:+ seg +:+ "/") +:+ k = EmptyString +:+ String "/" (seg +:+ String "/" k))
    as ->.
  { rewrite str_app_nil_l, !str_app_cons, str_app_nil_l, str_app_assoc.
    by rewrite str_app_cons, str_app_nil_l. }
  rewrite split_app by done. by rewrite split_app, Hsplit.
Qed.

(** X6 — The subscripts of [get_youtube_video_id] are always in range: the
    function raises only when [urlparse] does, and then the same
    error. *)
Theorem video_id_raises_only_parser (url : string) (b : bool) (e : exn) :
  get_youtube_video_id U url b = Raise e → Url.urlparse U url = Raise e.
Proof.
  unfold get_youtube_video_id.
  destruct (Url.urlparse U url) as [parsed|e']; simpl; [|by intros [= ->]].
  assert (∀ q k vs, Url.parse_qs_get U q k = Some vs →
          rbind (index vs 0) (λ v, Ok (Some v)) ≠ Raise e) as Hfirst.
  { intros q k vs Hvs. apply parse_qs_get_not_nil in Hvs. by destruct vs. }
  assert (∀ seg, Str.contains "/" seg = false →
          Str.startswith (path parsed) ("/" +:+ seg +:+ "/") = true →
          rbind (index (Str.split "/" (path parsed)) 1) (λ v, Ok (Some v)) ≠ Raise e ∧
          rbind (index (Str.split "/" (path parsed)) 2) (λ v, Ok (Some v)) ≠ Raise e)
    as Hseg.
  { intros seg Hno Hp. destruct (split_segment seg _ Hno Hp) as (f & r & ->). by split. }
  case_bool_decide as Hshort; [done|]. case_bool_decide as Hhost; [|done].
  destruct (if b then None else Url.parse_qs_get U (query parsed) "list") as [vs|] eqn:Hl.
  { destruct b; [done|]. intros Hr. by apply Hfirst in Hl. }
  case_bool_decide as Hwatch.
  { destruct (Url.parse_qs_get U (query parsed) "v") as [vs|] eqn:Hv; [|done].
    intros Hr. by apply Hfirst in Hv. }
  destruct (Str.startswith (path parsed) "/watch/") eqn:H1.
  { intros Hr. by apply (Hseg "watch") in Hr. }
  destruct (Str.startswith (path parsed) "/embed/") eqn:H2.
  { intros Hr. by apply (Hseg "embed") in Hr. }
  destruct (Str.startswith (path parsed) "/v/") eqn:H3; [|done].
  intros Hr. by apply (Hseg "v") in Hr.
Qed.

End VideoIdErrors.

(** ** Rejected inputs *)

Section Rejected.

Context {pyfloat : Type}.
Variable float_str : pyfloat → string.
Variable E : env.
Implicit Types (a : @args pyfloat) (w : world).



End Rejected.

(** ** A song directory without all the stems *)

Section CacheMiss.

Context {pyfloat : Type}.
Variable E : env.
Implicit Types (a : @args pyfloat) (w : world).

(** X9 — When the song directory exists and lists no file with one of the
    three endings that [get_audio_paths] looks for, the discovery is the
    preprocessing of the song, whether the files are kept or not. *)
Theorem missing_stem_forces_preprocessing a (it si id dir suffix : string) w :
  dir ∈ paths w →
  suffix ∈ ["_Instrumental.wav"; "_Vocals_Main_DeReverb.wav"; "_Vocals_Backup.wav"] →
  (∀ p file, p ∈ paths w → child_name dir p = Some file →
             Str.endswith file suffix = false) →
  resolve_discovery E a it si id dir w
  = (r ← preprocess_song E si id (is_webui a) it; ret (preprocessed r)) w.
Proof.
  intros Hdir Hsuffix Hnone. unfold resolve_discovery. rewrite bind_unfold. simpl.
  rewrite bool_decide_eq_true_2 by done. simpl.
  rewrite (bind_unfold (get_audio_paths dir)). unfold get_audio_paths at 1.
  rewrite bind_unfold. simpl.
  pose proof (audio_paths_sound dir (omap (child_name dir) (paths w))
                (omap (child_name dir) (paths w)) (None, None, None, None)) as Hfound.
  destruct (fold_left _ _ _) as [[[o i] m] b].
  destruct Hfound as (Hoi & Hi & Hm & Hb); [done| |].
  { repeat split; try done; intros [? ?]; done. }
  assert (∀ f, f ∈ omap (child_name dir) (paths w) → ends f suffix → False) as Hno.
  { intros f (p & Hp & Hc)%list_elem_of_omap He%endswith_spec.
    by rewrite (Hnone p f Hp Hc) in He. }
  rewrite !elem_of_cons in Hsuffix.
  destruct Hsuffix as [->|[->|[->|Hnil%elem_of_nil]]]; [| | |done].
  - destruct i as [x|].
    + destruct (Hi x eq_refl) as (f & Hf & _ & He). by destruct (Hno f Hf He).
    + by destruct o, m, b.
  - destruct m as [x|].
    + destruct (Hm x eq_refl) as (f & Hf & _ & He). by destruct (Hno f Hf He).
    + by destruct o, i, b.
  - destruct b as [x|].
    + destruct (Hb x eq_refl) as (f & Hf & _ & He). by destruct (Hno f Hf He).
    + by destruct o, i, m.
Qed.

End CacheMiss.

(** ** The files of a voice model *)

Section ModelFiles.

Variable E : env.
Implicit Types (w : world).

(** What the loop of [get_rvc_model] holds at its end. *)
Lemma model_files_loop (files : list string) (m i m' i' : option string) :
  fold_left
    (λ '(m, i) file,
       let ext := snd (Path.splitext file) in
       (if bool_decide (ext = ".pth") then Some file else m,
        if bool_decide (ext = ".index") then Some file else i))
    files (m, i) = (m', i') →
  (∀ f, m' = Some f → m = Some f ∨ (f ∈ files ∧ snd (Path.splitext f) = ".pth")) ∧
  (∀ f, i' = Some f → i = Some f ∨ (f ∈ files ∧ snd (Path.splitext f) = ".index")).
Proof.
  revert m i. induction files as [|file files IH]; intros m i; simpl.
  - intros [= <- <-]. split; auto.
  - intros Hfold. apply IH in Hfold as (Hm & Hi). split.
    + intros f Hf. destruct (Hm f Hf) as [Hstep|[Hin Hext]].
      * case_bool_decide as Hext; [|by left].
        injection Hstep as <-. right. split; [apply list_elem_of_here|done].
      * right. split; [by apply list_elem_of_further|done].
    + intros f Hf. destruct (Hi f Hf) as [Hstep|[Hin Hext]].
      * case_bool_decide as Hext; [|by left].
        injection Hstep as <-. right. split; [apply list_elem_of_here|done].
      * right. split; [by apply list_elem_of_further|done].
Qed.

(** X10 — [get_rvc_model] in full: it changes nothing; it raises when the
    directory of the model is missing and when the directory lists no
    file with the extension [.pth]; otherwise it returns the path of a
    listed [.pth] file, which exists, and the path of a listed [.index]
    file or the empty string. *)
Theorem get_rvc_model_cases (voice_model : string) (is_webui : bool) w :
  let model_dir := Path.join (rvc_models_dir E) voice_model in
  let listed ext p :=
    ∃ file, child_name model_dir p = Some file ∧ snd (Path.splitext file) = ext in
  (model_dir ∉ paths w →
   get_rvc_model E voice_model is_webui w
   = (Raise (exception_of is_webui
               ("Model directory " +:+ model_dir +:+ " does not exist.")), w)) ∧
  (model_dir ∈ paths w → (∀ p, p ∈ paths w → ¬ listed ".pth" p) →
   get_rvc_model E voice_model is_webui w
   = (Raise (exception_of is_webui
               ("No model file exists in " +:+ model_dir +:+ ".")), w)) ∧
  (model_dir ∈ paths w → (∃ p, p ∈ paths w ∧ listed ".pth" p) →
   ∃ model_path index_path,
     get_rvc_model E voice_model is_webui w = (Ok (model_path, index_path), w) ∧
     model_path ∈ paths w ∧ listed ".pth" model_path ∧
     (index_path = EmptyString ∨ (index_path ∈ paths w ∧ listed ".index" index_path))).
Proof.
  cbv zeta. unfold get_rvc_model. cbv zeta.
  set (model_dir := Path.join (rvc_models_dir E) voice_model).
  rewrite !bind_unfold. simpl. repeat apply conj.
  - intros Hdir. rewrite bool_decide_eq_false_2 by done. simpl.
    by destruct is_webui.
  - intros Hdir Hnone. rewrite bool_decide_eq_true_2 by done. simpl.
    rewrite bind_unfold. simpl. rewrite bind_unfold. simpl.
    pose proof (model_files_loop (omap (child_name model_dir) (paths w)) None None) as Hloop.
    destruct (fold_left _ _ _) as [[m|] i]; [|by destruct is_webui].
    destruct (Hloop _ _ eq_refl) as [Hm _].
    destruct (Hm m eq_refl) as [|[(p & Hp & Hc)%list_elem_of_omap Hext]]; [done|].
    destruct (Hnone p Hp). by exists m.
  - intros Hdir (p & Hp & file & Hc & Hext). rewrite bool_decide_eq_true_2 by done. simpl.
    rewrite bind_unfold. simpl. rewrite bind_unfold. simpl.
    pose proof (model_files_loop (omap (child_name model_dir) (paths w)) None None) as Hloop.
    pose proof (find_model_file (omap (child_name model_dir) (paths w)) (None, None))
      as Hfind.
    destruct (fold_left _ _ _) as [[m|] i].
    + destruct (Hloop _ _ eq_refl) as [Hm Hi].
      destruct (Hm m eq_refl) as [|[(q & Hq & Hqc)%list_elem_of_omap Hqext]]; [done|].
      eexists _, _. split; [done|].
      rewrite (child_name_join _ _ _ Hqc). split; [done|]. split; [by exists m|].
      destruct i as [f|]; [right|by left].
      destruct (Hi f eq_refl) as [|[(q' & Hq' & Hqc')%list_elem_of_omap Hqext']]; [done|].
      rewrite (child_name_join _ _ _ Hqc'). split; [done|]. by exists f.
    + destruct Hfind as [? ?]; [|done]. right. exists file. split; [|done].
      apply list_elem_of_omap. eauto.
Qed.

(** ** The cache of the pitch shift *)

(** X11 — A shifted file is made once: after a call that returns, the same
    call returns the same path and leaves the world as it is. *)
Theorem pitch_shift_idempotent (audio_path : string) (k : Z) w out w1 :
  pitch_shift E audio_path k w = (Ok out, w1) →
  out ∈ paths w1 ∧ pitch_shift E audio_path k w1 = (Ok out, w1).
Proof.
  intros H. pose proof (pitch_shift_inv E _ _ _ _ _ H) as ->.
  assert (shifted audio_path k ∈ paths w1) as Hout.
  { unfold pitch_shift in H. cbv zeta in H. rewrite bind_unfold in H. simpl in H.
    case_bool_decide as Hex; simpl in H.
    - by injection H as <-.
    - apply bind_ok_inv in H as ([] & w2 & H2 & [= <-]).
      apply external_ok_inv in H2 as (_ & _ & ->).
      apply written_after_call, list_elem_of_here. }
  split; [done|].
  unfold pitch_shift. cbv zeta. rewrite bind_unfold. simpl.
  fold (shifted audio_path k). by rewrite bool_decide_eq_true_2.
Qed.

End ModelFiles.

(** ** The outcome of the separation *)

Section Separation.

Variable E : env.
Implicit Types (w : world).

(** X12 — A separation that returns: the first input existed; the four
    returned paths are named after the base name of the input; and the
    paths that exist afterwards are those that existed before and the
    five outputs that are kept, the reverb residual of the second pass
    excepted. *)
Theorem separation_outcome (filename output : string) w r w' :
  separation_uvr E filename output w = (Ok r, w') →
  let out suffix :=
    Path.join output (fst (Path.splitext (Path.basename filename)) +:+ suffix) in
  r = (out "_Vocals (No Reverb).wav", out "_Instrumental.wav",
       out "_Vocals_Main_DeReverb.wav", out "_Vocals_Backup.wav") ∧
  filename ∈ paths w ∧
  ∀ p, p ∈ paths w' ↔
       (p ∈ paths w ∨
        p ∈ [out "_Instrumental.wav"; out "_Vocals.wav"; out "_Vocals (No Reverb).wav";
             out "_Vocals_Backup.wav"; out "_Vocals_Main_DeReverb.wav"])
       ∧ p ≠ out "_Vocals (Reverb).wav".
Proof.
  unfold separation_uvr, separate_pass. cbv zeta. intros H.
  apply bind_ok_inv in H as ([] & w1 & H1 & H).
  apply bind_ok_inv in H as ([] & w2 & H2 & H).
  apply bind_ok_inv in H as ([] & w3 & H3 & H).
  apply external_ok_inv in H1 as (Hin & _ & ->).
  apply external_ok_inv in H2 as (_ & _ & ->).
  apply external_ok_inv in H3 as (_ & _ & ->).
  apply bind_ok_inv in H as (ex & w4 & [= <- <-] & H).
  apply bind_ok_inv in H as ([] & w5 & H5 & [= <- <-]).
  set (base := fst (Path.splitext (Path.basename filename))) in *.
  split; [done|]. split; [apply Hin, list_elem_of_here|].
  set (w3 := after_call _ _ (after_call _ _ (after_call _ _ w))) in *.
  assert (∀ p, p ∈ paths w3 ↔
               p ∈ paths w ∨
               p ∈ [Path.join output (base +:+ "_Instrumental.wav");
                    Path.join output (base +:+ "_Vocals.wav");
                    Path.join output (base +:+ "_Vocals (No Reverb).wav");
                    Path.join output (base +:+ "_Vocals_Backup.wav");
                    Path.join output (base +:+ "_Vocals_Main_DeReverb.wav")] ∨
               p = Path.join output (base +:+ "_Vocals (Reverb).wav")) as Hw3.
  { intros p. unfold w3. rewrite !elem_of_after_call, !elem_of_cons, !elem_of_nil. tauto. }
  rewrite bool_decide_eq_true_2 in H5 by (apply Hw3; tauto). cbn [when] in H5.
  clearbody w3. intros p.
  destruct (fault E (Remove (Path.join output (base +:+ "_Vocals (Reverb).wav"))))
    as [m|] eqn:Hf.
  - by rewrite (os_remove_fault _ _ _ _ Hf) in H5.
  - rewrite (os_remove_ok _ _ _ Hf) in H5. injection H5 as <-. cbn [paths].
    rewrite elem_of_filter_ne, Hw3. tauto.
Qed.

(** ** The link that is downloaded *)

Lemma head_split (c : ascii) (s : string) :
  ∃ l, head (Str.split c s) = Some l ∧ Str.contains c l = false ∧
       (s = l ∨ ∃ rest, s = l +:+ String c rest).
Proof.
  induction s as [|a s (l & Hl & Hno & Hs)].
  - exists EmptyString. repeat split; auto.
  - simpl. destruct (Str.split c s) as [|f fs]; [done|]. injection Hl as ->.
    case_decide as Ha.
    + subst a. exists EmptyString. split; [done|]. split; [done|]. right. by exists s.
    + exists (String a l). split; [done|]. split.
      * simpl. by rewrite decide_False.
      * destruct Hs as [->|(rest & ->)]; [by left|]. right. exists rest.
        by rewrite str_app_cons.
Qed.

Lemma yt_download_logged (link : string) w r w' :
  yt_download E link w = (r, w') → YtDownload link ∈ log w'.
Proof.
  unfold yt_download. destruct (yt_filename E link); intros H;
    apply bind_inv in H as [([] & w1 & H1 & [= _ <-])|(e & H1 & _)];
    by apply external_logged in H1.
Qed.

(** X13 — For a remote song the preprocessing calls the downloader, whatever
    comes of it, with the input cut before its first ampersand. *)
Theorem download_link (song_input song_id : string) (is_webui : bool) w r w' :
  preprocess_song E song_input song_id is_webui "yt" w = (r, w') →
  ∃ link, YtDownload link ∈ log w' ∧ Str.contains "&" link = false ∧
          (song_input = link ∨ ∃ rest, song_input = link +:+ String "&" rest).
Proof.
  destruct (head_split "&" song_input) as (link & Hhead & Hno & Hcut).
  exists link. split; [|done].
  unfold preprocess_song in H. rewrite bool_decide_eq_true_2 in H by done.
  rewrite Hhead in H. cbn [default] in H.
  apply bind_inv in H as [(o & w1 & H1 & H)|(e & H1 & _)].
  - assert (YtDownload link ∈ log w1) as Hlog.
    { apply bind_inv in H1 as [([] & w0 & _ & H1)|(e & H1 & _)].
      - by apply yt_download_logged in H1.
      - by rewrite display_progress_spec in H1. }
    revert Hlog. apply (evolves_log is_discovery_call).
    revert H.
    match goal with |- ?m w1 = _ → _ =>
      assert (respects is_discovery_call m) as Hr; [|apply Hr] end.
    unfold os_makedirs.
    respects_with ltac:(first [ apply discovery_display_progress
                              | apply respects_convert_to_stereo
                              | apply respects_separation_uvr ]).
  - apply bind_inv in H1 as [([] & w0 & _ & H1)|(e' & H1 & _)].
    + by apply yt_download_logged in H1.
    + by rewrite display_progress_spec in H1.
Qed.

End Separation.

(** ** [str.replace] *)

Section Replace.

Lemma replace_go_skip (old new : string) (k : nat) (t : string) :
  Str.replace_go old new k t = Str.replace_go old new 0 (Str.drop k t).
Proof.
  revert k. induction t as [|a t IH]; intros k; [by destruct k|].
  destruct k as [|k]; [done|]. simpl. by rewrite IH.
Qed.

Lemma startswith_app (p s : string) : Str.startswith (p +:+ s) p = true.
Proof. apply startswith_spec. by exists s. Qed.

Lemma drop_app_len (p s : string) : Str.drop (Str.len p) (p +:+ s) = s.
Proof. induction p as [|a p IH]; [done|]. by rewrite str_app_cons. Qed.

(** An occurrence at the front is replaced, and the scan goes on after
    it. *)
Lemma replace_hit (old new y : string) :
  old ≠ EmptyString →
  Str.replace_go old new 0 (old +:+ y) = new +:+ Str.replace_go old new 0 y.
Proof.
  intros Hold. destruct old as [|c o]; [done|].
  pose proof (startswith_app (String c o) y) as Hstart.
  rewrite str_app_cons in *. cbn [Str.replace_go]. rewrite Hstart.
  rewrite replace_go_skip. cbn [Str.len String.length Nat.pred]. f_equal. f_equal.
  apply (drop_app_len o y).
Qed.

(** Where no occurrence begins, the text is copied. *)
Lemma replace_clear (old new x rest : string) :
  clear_of old x rest →
  Str.replace_go old new 0 (x +:+ rest) = x +:+ Str.replace_go old new 0 rest.
Proof.
  induction x as [|a x IH]; intros Hclear; [done|].
  rewrite !str_app_cons. cbn [Str.replace_go].
  pose proof (Hclear EmptyString (String a x) eq_refl) as Hfront.
  rewrite str_app_cons in Hfront. rewrite Hfront by done. f_equal.
  apply IH. intros u v -> Hv. apply (Hclear (String a u) v); [|done].
  by rewrite str_app_cons.
Qed.

(** A text without the first character of [old] is clear of it. *)
Lemma clear_of_absent (c : ascii) (o x rest : string) :
  Str.contains c x = false → clear_of (String c o) x rest.
Proof.
  intros Hno u v -> Hv. rewrite contains_app in Hno.
  apply orb_false_iff in Hno as [_ Hno].
  destruct v as [|b v]; [done|]. rewrite str_app_cons. simpl in *.
  destruct (decide (c = b)) as [->|Hne]; [|done]. by rewrite decide_True in Hno.
Qed.

Lemma replace_absent (c : ascii) (o new x : string) :
  Str.contains c x = false → Str.replace x (String c o) new = x.
Proof.
  intros Hno. unfold Str.replace.
  rewrite <- (str_app_nil_r x) at 1.
  rewrite replace_clear by by apply clear_of_absent.
  by rewrite str_app_nil_r.
Qed.

End Replace.

(** ** Names after a replacement *)

Section ReplacedNames.

Variable E : env.
Implicit Types (w : world).

Lemma rpartition_app (c : ascii) (l r : string) :
  Str.contains c r = false → Str.rpartition c (l +:+ String c r) = Some (l, r).
Proof.
  intros Hr. induction l as [|a l IH].
  - rewrite str_app_nil_l. simpl.
    destruct (Str.rpartition c r) as [[l' r']|] eqn:Hp.
    + apply rpartition_some in Hp as [-> _]. rewrite contains_app in Hr.
      simpl in Hr. rewrite decide_True in Hr by done. by rewrite orb_true_r in Hr.
    + by rewrite decide_True.
  - rewrite str_app_cons. simpl. by rewrite IH.
Qed.

Lemma basename_plain (n : string) : Str.contains "/" n = false → Path.basename n = n.
Proof.
  intros Hn. unfold Path.basename.
  destruct (Str.rpartition "/" n) as [[l r]|] eqn:Hp; [|done].
  apply rpartition_some in Hp as [-> _]. rewrite contains_app in Hn.
  simpl in Hn. by rewrite orb_true_r in Hn.
Qed.

Lemma dirpart_plain (n : string) : Str.contains "/" n = false → Path.dirpart n = EmptyString.
Proof.
  intros Hn. unfold Path.dirpart.
  destruct (Str.rpartition "/" n) as [[l r]|] eqn:Hp; [|done].
  apply rpartition_some in Hp as [-> _]. rewrite contains_app in Hn.
  simpl in Hn. by rewrite orb_true_r in Hn.
Qed.

(** The extension of a name with one dot, after a stem that is not
    made of dots only. *)
Lemma splitext_stem (stem e : string) :
  Str.contains "/" stem = false → Str.contains "/" e = false →
  Str.contains "." e = false → Str.forallb (is_char ".") stem = false →
  Path.splitext (stem +:+ String "." e) = (stem, String "." e).
Proof.
  intros Hs He Hdot Hstem. unfold Path.splitext.
  assert (Str.contains "/" (stem +:+ String "." e) = false) as Hn.
  { rewrite contains_app. simpl. by rewrite Hs, He. }
  rewrite (basename_plain _ Hn), (dirpart_plain _ Hn), rpartition_app by done.
  by rewrite Hstem, str_app_nil_l.
Qed.

(** A directory in front of a name is empty or ends with a slash. *)
Lemma as_dir_cases (d : string) :
  as_dir d = EmptyString ∨ ∃ k, as_dir d = k +:+ "/".
Proof.
  unfold as_dir. case_bool_decide as Hd; simpl; [by left|].
  destruct (Str.endswith d "/") eqn:He; [|right; by exists d].
  right. by apply endswith_spec in He.
Qed.

Lemma basename_in_dir (d n : string) :
  Str.contains "/" n = false → Path.basename (as_dir d +:+ n) = n.
Proof.
  intros Hn. destruct (as_dir_cases d) as [->|[k ->]].
  - rewrite str_app_nil_l. by apply basename_plain.
  - unfold Path.basename. rewrite str_app_assoc, str_app_cons, str_app_nil_l.
    by rewrite rpartition_app.
Qed.

(** A stem without dot that is not empty is not made of dots only. *)
Lemma not_only_dots (stem : string) :
  stem ≠ EmptyString → Str.contains "." stem = false →
  Str.forallb (is_char ".") stem = false.
Proof.
  destruct stem as [|a s]; [done|]. simpl. intros _.
  case_decide as Ha; [done|]. intros _. unfold is_char.
  by rewrite bool_decide_eq_false_2.
Qed.

(** X14 — [yt_download] on a name with one dot and one of the extensions
    [.webm], [.m4a] and [.mp3]: the returned path is the name with the
    extension [.mp3], and it is the path of the file that the
    extraction of the audio writes. *)
Theorem yt_download_path (link stem ext : string) w :
  yt_filename E link = Some (stem +:+ ext) →
  stem ≠ EmptyString → Str.contains "." stem = false → Str.contains "/" stem = false →
  ext ∈ [".webm"; ".m4a"; ".mp3"] →
  fault E (YtDownload link) = None →
  yt_download E link w
  = (Ok (Some (stem +:+ ".mp3")), after_call (YtDownload link) [stem +:+ ".mp3"] w).
Proof.
  intros Hname Hne Hdot Hslash Hext Hf. unfold yt_download. rewrite Hname.
  pose proof (not_only_dots stem Hne Hdot) as Hstem.
  assert (fst (Path.splitext (stem +:+ ext)) = stem ∧
          Str.replace (Str.replace (stem +:+ ext) ".webm" ".mp3") ".m4a" ".mp3"
          = stem +:+ ".mp3") as [-> ->].
  { unfold Str.replace. rewrite !elem_of_cons in Hext.
    destruct Hext as [->|[->|[->|Hnil%elem_of_nil]]]; [| | |done];
      (split; [by rewrite splitext_stem|]);
      rewrite (replace_clear _ _ stem) by (by apply clear_of_absent);
      cbn [Str.replace_go Str.startswith Str.len String.length Nat.pred String.append];
      repeat (rewrite ?decide_True by done; rewrite ?decide_False by done;
              cbn [Str.replace_go Str.startswith Str.len String.length Nat.pred
                   String.append]);
      rewrite (replace_clear _ _ stem) by (by apply clear_of_absent);
      cbn [Str.replace_go Str.startswith Str.len String.length Nat.pred String.append];
      repeat (rewrite ?decide_True by done; rewrite ?decide_False by done;
              cbn [Str.replace_go Str.startswith Str.len String.length Nat.pred
                   String.append]);
      done. }
  rewrite bind_unfold, external_ok; [done| |done].
  by intros p ?%elem_of_nil.
Qed.

End ReplacedNames.

(** ** The base name found again on a cache hit *)

Section CachedBaseName.

(** A text that begins with [p] once [r] follows it holds [p] whole, or
    is a part of [p] that [r] completes. *)
Lemma startswith_straddle (p v r : string) :
  Str.startswith (v +:+ r) p = true →
  (∃ b, v = p +:+ b) ∨
  (∃ j, v = Str.take j p ∧ (j < Str.len p)%nat ∧ Str.startswith r (Str.drop j p) = true).
Proof.
  revert v. induction p as [|c p IH]; intros v H; [left; by exists v|].
  destruct v as [|a v].
  - right. exists 0%nat. rewrite str_app_nil_l in H. repeat split; [|done].
    unfold Str.len. simpl. lia.
  - rewrite str_app_cons in H. simpl in H. case_decide as Hc; [subst a|done].
    destruct (IH v H) as [(b & ->)|(j & -> & Hj & Hr)].
    + left. by exists b.
    + right. exists (S j). repeat split; [|done]. unfold Str.len in *. simpl. lia.
Qed.

(** No occurrence of [_Instrumental] begins in a text without one, when
    the ending [_Instrumental.wav] follows. *)
Lemma instrumental_clear (x : string) :
  ¬ occurs "_Instrumental" x → clear_of "_Instrumental" x ("_Instrumental" +:+ ".wav").
Proof.
  intros Hno u v -> Hv.
  destruct (Str.startswith (v +:+ "_Instrumental" +:+ ".wav") "_Instrumental") eqn:Hs;
    [exfalso|done].
  apply startswith_straddle in Hs as [(b & ->)|(j & -> & Hj & Hr)].
  - apply Hno. by exists u, b.
  - do 13 (destruct j as [|j]; [by vm_compute in Hr + by vm_compute in Hv|]).
    vm_compute in Hj. lia.
Qed.

(** X15 — The loop of [get_audio_paths] on an instrumental named as
    [separation_uvr] names it, in a directory whose spelling, followed
    by the base name, holds no [_Instrumental]: the path taken for the
    original song has the same base name, so that the names of the
    conversion artifacts are those of the run that made the stems. *)
Theorem cached_base_name (song_dir base : string)
    (acc : option string * option string * option string * option string) :
  Str.contains "/" base = false →
  Str.forallb (is_char ".") base = false →
  ¬ occurs "_Instrumental" (as_dir song_dir +:+ base) →
  let file := base +:+ "_Instrumental.wav" in
  let orig := Path.join song_dir (base +:+ ".wav") in
  audio_paths_step song_dir acc file
  = (Some orig, Some (Path.join song_dir file), acc.1.2, acc.2) ∧
  fst (Path.splitext (Path.basename orig)) = base.
Proof.
  intros Hslash Hdots Hno. cbv zeta. destruct acc as [[[o i] m] b].
  unfold audio_paths_step. cbn [fst snd].
  assert (Str.endswith (base +:+ "_Instrumental.wav") "_Instrumental.wav" = true) as ->
    by (apply endswith_spec, ends_app, ends_refl).
  rewrite !join_relative by (by apply not_absolute).
  split.
  - do 3 f_equal. unfold Str.replace.
    change "_Instrumental.wav" with ("_Instrumental" +:+ ".wav").
    rewrite <- str_app_assoc.
    rewrite (replace_clear _ _ (as_dir song_dir +:+ base)) by by apply instrumental_clear.
    rewrite replace_hit by done. by rewrite str_app_assoc.
  - assert (Str.contains "/" (base +:+ ".wav") = false) as Hn.
    { rewrite contains_app. simpl. by rewrite Hslash. }
    rewrite basename_in_dir by done.
    change ".wav" with (String "." "wav"). by rewrite splitext_stem.
Qed.

End CachedBaseName.

(** ** Where files are removed *)

Section Confinement.

Context {pyfloat : Type}.
Variable float_str : pyfloat → string.
Variable E : env.
Implicit Types (a : @args pyfloat) (w : world) (l : locals).

Lemma within_join (dir n : string) :
  Str.startswith n "/" = false → within dir (Path.join dir n).
Proof. intros Hn. unfold within. rewrite join_relative by done. by eexists. Qed.

Lemma within_app (dir p t : string) : within dir p → within dir (p +:+ t).
Proof. intros [k ->]. exists (k +:+ t). by rewrite str_app_assoc. Qed.

Lemma dirpart_in_dir (k n : string) :
  Path.dirpart ((k +:+ "/") +:+ n) = (k +:+ "/") +:+ Path.dirpart n.
Proof.
  unfold Path.dirpart at 2. destruct (Str.rpartition "/" n) as [[u v]|] eqn:Hn.
  - apply rpartition_some in Hn as [-> Hv]. unfold Path.dirpart.
    rewrite <- str_app_assoc, rpartition_app by done. by rewrite !str_app_assoc.
  - apply rpartition_none in Hn. unfold Path.dirpart.
    rewrite str_app_assoc, str_app_cons, str_app_nil_l, rpartition_app by done.
    by rewrite str_app_nil_r.
Qed.

Lemma basename_after_dir (k n : string) :
  Path.basename ((k +:+ "/") +:+ n) = Path.basename n.
Proof.
  unfold Path.basename at 2. destruct (Str.rpartition "/" n) as [[u v]|] eqn:Hn.
  - apply rpartition_some in Hn as [-> Hv]. unfold Path.basename.
    by rewrite <- str_app_assoc, rpartition_app.
  - apply rpartition_none in Hn. unfold Path.basename.
    by rewrite str_app_assoc, str_app_cons, str_app_nil_l, rpartition_app.
Qed.

(** The root of a path keeps the directory in front of it. *)
Lemma within_splitext (dir p : string) :
  within dir p → within dir (fst (Path.splitext p)).
Proof.
  intros [n ->]. destruct (as_dir_cases dir) as [Hd|[k Hd]]; unfold within; rewrite Hd.
  - by eexists.
  - unfold Path.splitext. rewrite basename_after_dir, dirpart_in_dir.
    destruct (Str.rpartition "." (Path.basename n)) as [[u v]|]; [|by eexists].
    destruct (Str.forallb _ u); [by eexists|]. cbn [fst].
    rewrite str_app_assoc. by eexists.
Qed.

Lemma within_mixed (dir p : string) : within dir p → within dir (mixed p).
Proof. intros Hp. unfold mixed. by apply within_app, within_splitext. Qed.

Lemma within_shifted (dir p : string) (k : Z) : within dir p → within dir (shifted p k).
Proof. intros Hp. unfold shifted. by apply within_app, within_splitext. Qed.

Lemma child_name_relative (d p n : string) :
  child_name d p = Some n → Str.startswith n "/" = false.
Proof.
  unfold child_name. destruct (Str.startswith p _); [|done].
  destruct (bool_decide _ || Str.contains "/" _) eqn:Hn; [done|].
  intros [= <-]. apply orb_false_iff in Hn as [_ Hn].
  destruct (Str.drop _ p) as [|c s]; [done|]. simpl in *.
  destruct (decide (c = "/"%char)) as [->|Hc]; [done|]. by rewrite decide_False.
Qed.

Lemma respects_separation_within (filename output : string) :
  respects (removes_within output) (separation_uvr E filename output).
Proof.
  unfold separation_uvr, separate_pass. respects_auto.
  simpl. apply within_join, name_relative. done.
Qed.

Lemma respects_preprocess_within (si id : string) (b : bool) (it : string) :
  respects (removes_within (Path.join (output_dir E) id)) (preprocess_song E si id b it).
Proof.
  unfold preprocess_song, os_makedirs, yt_download, convert_to_stereo.
  respects_with ltac:(first [ apply respects_display_progress; by intros []
                            | apply respects_separation_within ]).
Qed.

Lemma respects_discovery_within a (it si id : string) :
  respects (removes_within (Path.join (output_dir E) id))
    (resolve_discovery E a it si id (Path.join (output_dir E) id)).
Proof.
  unfold resolve_discovery, os_makedirs.
  respects_with ltac:(first [ apply respects_preprocess_within
                            | apply respects_get_audio_paths ]).
Qed.

(** The paths bound by the discovery are spelled with the song
    directory in front. *)
Lemma resolve_discovery_within a (it si id : string) w d w' :
  let dir := Path.join (output_dir E) id in
  resolve_discovery E a it si id dir w = (Ok d, w') →
  within dir (instrumentals_path d) ∧ within dir (backup_vocals_path d) ∧
  (∀ p, main_vocals_path d = Some p → within dir p) ∧
  (∀ p, vocals_path d = Some p → within dir p).
Proof.
  cbv zeta. set (dir := Path.join (output_dir E) id).
  assert (∀ w0,
          (r ← preprocess_song E si id (is_webui a) it; ret (preprocessed r)) w0 = (Ok d, w') →
          within dir (instrumentals_path d) ∧ within dir (backup_vocals_path d) ∧
          (∀ p, main_vocals_path d = Some p → within dir p) ∧
          (∀ p, vocals_path d = Some p → within dir p)) as Hpre.
  { intros w0 H. apply bind_ok_inv in H as (r & w1 & H1 & [= <- <-]).
    apply preprocess_song_ok in H1 as (orig & l & -> & _). simpl.
    repeat split; try (intros p [= <-]); by apply within_join, name_relative. }
  unfold resolve_discovery. rewrite bind_unfold. simpl.
  destruct (bool_decide (dir ∈ paths w)) eqn:Hdir; simpl.
  - rewrite bind_unfold. unfold get_audio_paths at 1. rewrite bind_unfold. simpl.
    pose proof (audio_paths_sound dir (omap (child_name dir) (paths w))
                  (omap (child_name dir) (paths w)) (None, None, None, None)) as Hfound.
    destruct (fold_left _ _ _) as [[[o i] m] b].
    destruct Hfound as (_ & Hi & Hm & Hb); [done| |].
    { repeat split; try done; intros [? ?]; done. }
    assert (∀ f, f ∈ omap (child_name dir) (paths w) → within dir (Path.join dir f))
      as Hlisted.
    { intros f (p & _ & Hc)%list_elem_of_omap.
      by apply within_join, (child_name_relative dir p). }
    destruct o as [o|]; [|by apply Hpre].
    destruct i as [i|]; [|by apply Hpre].
    destruct m as [m|]; [|by apply Hpre].
    destruct b as [b|]; [|by apply Hpre].
    destruct (keep_files a); [by apply Hpre|].
    intros [= <- <-]. simpl.
    destruct (Hi _ eq_refl) as (fi & Hfi & -> & _).
    destruct (Hm _ eq_refl) as (fm & Hfm & -> & _).
    destruct (Hb _ eq_refl) as (fb & Hfb & -> & _).
    repeat split; try (intros p [= <-]); auto.
  - intros H. apply bind_ok_inv in H as ([] & w1 & _ & H). by apply (Hpre w1).
Qed.

(** The files that the last step lists are spelled with the song
    directory in front. *)
Lemma intermediate_files_within a (it si id : string) w l w' :
  run_stages float_str E a it si id w = (Ok l, w') →
  ∀ p, Some p ∈ intermediate_files a l → within (Path.join (output_dir E) id) p.
Proof.
  intros Hrun.
  apply run_stages_ok in Hrun
    as (w1 & Hd & _ & Hdir & Hnames & Hml & Hmb & _ & Hshift & _).
  apply resolve_discovery_within in Hd as (Hi & Hb & Hmain & Hv).
  assert (within (Path.join (output_dir E) id) (ai_vocals_path (names l)) ∧
          within (Path.join (output_dir E) id) (ai_backing_path (names l))) as [Hlead Hback].
  { rewrite Hnames, Hdir. unfold artifact_paths. simpl.
    split; by apply within_join, name_relative. }
  intros p. unfold intermediate_files. rewrite elem_of_app, !elem_of_cons.
  intros [[Hp|[Hp|[Hp|[Hp|Hp%elem_of_nil]]]]|Hp]; try done.
  - by apply Hv.
  - by apply Hmain.
  - injection Hp as ->. rewrite Hml. by apply within_mixed.
  - injection Hp as ->. rewrite Hmb. by apply within_mixed.
  - case_bool_decide as Hall; [|by apply elem_of_nil in Hp].
    destruct (Hshift Hall) as [Hsi Hsb]. rewrite Hsi, Hsb, !elem_of_cons in Hp.
    destruct Hp as [Hp|[Hp|Hp%elem_of_nil]]; [| |done];
      injection Hp as ->; by apply within_shifted.
Qed.

Lemma respects_run_stages_within a (it si id : string) :
  respects (removes_within (Path.join (output_dir E) id))
    (run_stages float_str E a it si id).
Proof.
  unfold run_stages. cbv zeta.
  apply respects_bind; [apply respects_discovery_within|]. intros d.
  apply (respects_weaken is_late_call); [by intros []|].
  apply respects_bind; [apply respects_convert_stage|]. intros _.
  apply respects_bind; [apply respects_effects_stage|]. intros [x y].
  apply respects_bind; [apply respects_shift_stage|]. intros [u v].
  apply respects_bind; [apply respects_mix_stage|]. intros _.
  apply respects_ret.
Qed.

Lemma respects_resolve_input_within a (dir : string) :
  respects (removes_within dir) (resolve_input E a).
Proof.
  unfold resolve_input, get_hash.
  respects_with ltac:(apply respects_raise_exception).
Qed.

(** X16 — Whatever the outcome of a run whose input is resolved, every path
    that it removes is spelled with the song directory in front; hence
    a path that is not, like a local input outside the song directory,
    still exists afterwards. *)
Theorem removals_confined a w (it si id : string) w1 r w' :
  song_input a ≠ EmptyString → voice_model a ≠ EmptyString →
  resolve_input E a (started (is_webui a) w) = (Ok (it, si, id), w1) →
  song_cover_pipeline float_str E a w = (r, w') →
  let dir := Path.join (output_dir E) id in
  (∃ calls, log w' = log w ++ calls ∧ Forall (removes_within dir) calls) ∧
  (∀ p, p ∈ paths w → ¬ within dir p → p ∈ paths w').
Proof.
  intros Hs Hv Hin Hrun. cbv zeta. set (dir := Path.join (output_dir E) id).
  assert (evolves (removes_within dir) w w') as (calls & Hlog & Hcalls & Hkept).
  { apply (evolves_trans _ _ (started (is_webui a) w)).
    { exists [message_call "[~] Starting AI Cover Generation Pipeline..." (is_webui a)].
      split; [done|]. split; [|done].
      constructor; [|constructor]. by destruct (is_webui a). }
    apply (evolves_trans _ _ w1); [by apply (respects_resolve_input_within a dir) in Hin|].
    rewrite pipeline_finish, (body_after_input float_str E a w it si id w1) in Hrun by done.
    assert (∀ r0 w0, (l ← run_stages float_str E a it si id; cleanup_stage E a l;; ret l) w1
                     = (r0, w0) → evolves (removes_within dir) w1 w0) as Hbody.
    { intros r0 w0 H. apply bind_inv in H as [(l & wm & Hst & H)|(e & Hst & _)];
        [|by apply respects_run_stages_within in Hst].
      apply (evolves_trans _ _ wm); [by apply respects_run_stages_within in Hst|].
      apply (evolves_weaken (is_cleanup_call (intermediate_files a l))).
      - intros [] Hc; try done. simpl in Hc.
        by apply (intermediate_files_within a it si id w1 l wm).
      - apply bind_inv in H as [([] & w2 & Hc & [= _ <-])|(e & Hc & _)];
          by apply respects_cleanup_stage in Hc. }
    unfold finish in Hrun.
    match type of Hrun with
    | match ?x with _ => _ end = _ =>
        specialize (Hbody (fst x) (snd x) (surjective_pairing x));
        destruct x as [[l|e] w0]
    end; by injection Hrun as _ <-. }
  split; [by exists calls|].
  intros p Hp Hout. apply Hkept; [done|]. intros Hrm.
  apply Hout. by apply (proj1 (list.Forall_forall _ _) Hcalls) in Hrm.
Qed.

End Confinement.

(** ** The command line *)

Section CommandLine.

Context {pyfloat : Type}.
Variable float_str : pyfloat → string.
Variable E : env.
Implicit Types (a : @args pyfloat) (w : world).

(** X17 — The command line in full. Without the folder of the voice model it
    raises at once, before any message and whatever the other
    arguments. With the folder, it is the pipeline without the web
    interface: when the pipeline returns, the path of the first cover is
    printed and nothing else happens; when the pipeline raises, the
    error is a plain exception with the same message, in the world
    that the pipeline left. *)
Theorem cli_main_cases a w :
  let rvc_dir := Path.join (rvc_models_dir E) (voice_model a) in
  (rvc_dir ∉ paths w →
   cli_main float_str E a w
   = (Raise (PyException ("The folder " +:+ rvc_dir +:+ " does not exist.")), w)) ∧
  (rvc_dir ∈ paths w →
   ∀ covers w1, song_cover_pipeline float_str E (as_cli a) w = (Ok covers, w1) →
     cli_main float_str E a w
     = (Ok tt, {| paths := paths w1;
                  log := log w1 ++ [Print ("[+] Cover generated at " +:+ covers.1)] |})) ∧
  (rvc_dir ∈ paths w →
   ∀ e w1, song_cover_pipeline float_str E (as_cli a) w = (Raise e, w1) →
     cli_main float_str E a w = (Raise (PyException (exn_msg e)), w1)).
Proof.
  cbv zeta. unfold cli_main. cbv zeta.
  rewrite (bind_ok (path_exists _) _ w _ w eq_refl).
  repeat apply conj.
  - intros Hdir. rewrite bool_decide_eq_false_2 by done. cbn [negb when].
    by rewrite (bind_raise (raise _) _ w _ w eq_refl).
  - intros Hdir [c cb] w1 Hrun. rewrite bool_decide_eq_true_2 by done. cbn [negb when].
    by rewrite (bind_ok (ret tt) _ w tt w eq_refl), (bind_ok _ _ _ _ _ Hrun).
  - intros Hdir e w1 Hrun. rewrite bool_decide_eq_true_2 by done. cbn [negb when].
    rewrite (bind_ok (ret tt) _ w tt w eq_refl), (bind_raise _ _ _ _ _ Hrun).
    rewrite pipeline_finish in Hrun. unfold finish in Hrun.
    destruct (song_cover_body _ _ _ _) as [[l|e0] w0]; [done|].
    by injection Hrun as <- <-.
Qed.

End CommandLine.

(** ** Instances *)

Lemma occurs_finds (old s : string) : occurs old s → finds old s = true.
Proof.
  assert (∀ s, finds old s = Str.startswith s old
                             || match s with
                                | String _ s' => finds old s'
                                | EmptyString => false
                                end) as Hunfold by by intros [].
  intros (a & b & ->). induction a as [|c a IH].
  - by rewrite str_app_nil_l, Hunfold, startswith_app.
  - rewrite str_app_cons, Hunfold, IH. apply orb_true_r.
Qed.

Lemma short_link_id_witness :
  get_youtube_video_id plain_urllib "https://youtu.be/SA2iWivDJiE" true
  = Ok (Some "SA2iWivDJiE").
Proof.
  refine (short_link_id plain_urllib "https" "SA2iWivDJiE" true _ _).
  - unfold link_schemes. in_list.
  - reflexivity.
Defined.

Lemma watch_link_id_witness :
  get_youtube_video_id plain_urllib "https://www.youtube.com/watch?v=SA2iWivDJiE" true
  = Ok (Some "SA2iWivDJiE").
Proof.
  refine (watch_link_id plain_urllib "https" "www.youtube.com" "SA2iWivDJiE" true _ _ _).
  - unfold link_schemes. in_list.
  - unfold youtube_hosts. in_list.
  - reflexivity.
Defined.

Lemma embed_link_id_witness :
  get_youtube_video_id plain_urllib "http://music.youtube.com/embed/SA2iWivDJiE" false
  = Ok (Some "SA2iWivDJiE").
Proof.
  refine (embed_link_id plain_urllib "http" "music.youtube.com" "/embed/" "SA2iWivDJiE"
            false _ _ _ _).
  - unfold link_schemes. in_list.
  - unfold youtube_hosts. in_list.
  - in_list.
  - reflexivity.
Defined.

Lemma watch_path_id_witness :
  get_youtube_video_id plain_urllib "https://youtube.com/watch/_oPAwA_Udwc" true
  = Ok (Some "watch").
Proof.
  refine (watch_path_id plain_urllib "https" "youtube.com" "_oPAwA_Udwc" true _ _ _).
  - unfold link_schemes. in_list.
  - unfold youtube_hosts. in_list.
  - reflexivity.
Defined.

Lemma playlist_link_id_witness :
  get_youtube_video_id plain_urllib
    "https://www.youtube.com/watch?v=SA2iWivDJiE&list=PL590L5WQmH8" false
  = Ok (Some "PL590L5WQmH8").
Proof.
  refine (playlist_link_id plain_urllib "https" "www.youtube.com" "SA2iWivDJiE"
            "PL590L5WQmH8" false _ _ _ _ _ _).
  - unfold link_schemes. in_list.
  - unfold youtube_hosts. in_list.
  - reflexivity.
  - reflexivity.
  - done.
  - done.
Defined.

Lemma video_id_raises_only_parser_witness :
  Url.urlparse plain_urllib "http://[::1" = Raise (PyException "Invalid IPv6 URL").
Proof.
  refine (video_id_raises_only_parser plain_urllib "http://[::1" true _ _).
  reflexivity.
Defined.



Lemma missing_stem_forces_preprocessing_witness :
  resolve_discovery quiet_env (alice_args 2 false) "local" "/home/u/song.wav"
    "ba80a53f981" song_dir_abc empty_dir_world
  = (r ← preprocess_song quiet_env "/home/u/song.wav" "ba80a53f981" false "local";
     ret (preprocessed r)) empty_dir_world.
Proof.
  refine (missing_stem_forces_preprocessing quiet_env (alice_args 2 false) "local"
            "/home/u/song.wav" "ba80a53f981" song_dir_abc "_Instrumental.wav"
            empty_dir_world _ _ _).
  - apply list_elem_of_In. vm_compute. tauto.
  - in_list.
  - intros p file Hp. apply list_elem_of_In in Hp. cbn [paths empty_dir_world In] in Hp.
    repeat (destruct Hp as [Hp|Hp]; [subst p; vm_compute; discriminate|]).
    destruct Hp.
Defined.

Lemma pitch_shift_idempotent_witness :
  let inst := "/app/song_output/ba80a53f981/song_Instrumental.wav" in
  let out := "/app/song_output/ba80a53f981/song_Instrumental_p2.wav" in
  let w1 := snd (pitch_shift quiet_env inst 2 separated_world) in
  out ∈ paths w1 ∧ pitch_shift quiet_env inst 2 w1 = (Ok out, w1).
Proof.
  cbv zeta.
  refine (pitch_shift_idempotent quiet_env
            "/app/song_output/ba80a53f981/song_Instrumental.wav" 2 separated_world _ _ _).
  vm_compute. reflexivity.
Defined.

Lemma separation_outcome_witness :
  "/app/song_output/ba80a53f981/song_Vocals (Reverb).wav"
  ∉ paths (snd (separation_uvr quiet_env "/home/u/song.wav" song_dir_abc empty_dir_world)).
Proof.
  intros Hin.
  apply (proj2 (proj2 (separation_outcome quiet_env "/home/u/song.wav" song_dir_abc
                         empty_dir_world
                         ("/app/song_output/ba80a53f981/song_Vocals (No Reverb).wav",
                          "/app/song_output/ba80a53f981/song_Instrumental.wav",
                          "/app/song_output/ba80a53f981/song_Vocals_Main_DeReverb.wav",
                          "/app/song_output/ba80a53f981/song_Vocals_Backup.wav")
                         (snd (separation_uvr quiet_env "/home/u/song.wav" song_dir_abc
                                 empty_dir_world))
                         ltac:(vm_compute; reflexivity)))) in Hin.
  destruct Hin as [_ Hne]. by apply Hne.
Defined.

Lemma download_link_witness :
  let x := preprocess_song quiet_env
             "https://www.youtube.com/watch?v=SA2iWivDJiE&list=PL590L5WQmH8"
             "SA2iWivDJiE" false "yt" fresh_world in
  ∃ link, YtDownload link ∈ log (snd x) ∧ Str.contains "&" link = false ∧
          ("https://www.youtube.com/watch?v=SA2iWivDJiE&list=PL590L5WQmH8" = link ∨
           ∃ rest, "https://www.youtube.com/watch?v=SA2iWivDJiE&list=PL590L5WQmH8"
                   = link +:+ String "&" rest).
Proof.
  cbv zeta.
  refine (download_link quiet_env
            "https://www.youtube.com/watch?v=SA2iWivDJiE&list=PL590L5WQmH8"
            "SA2iWivDJiE" false fresh_world _ _ _).
  vm_compute. reflexivity.
Defined.

Lemma yt_download_path_witness :
  yt_download quiet_env "https://youtu.be/SA2iWivDJiE" fresh_world
  = (Ok (Some "Title.mp3"),
     after_call (YtDownload "https://youtu.be/SA2iWivDJiE") ["Title.mp3"] fresh_world).
Proof.
  refine (yt_download_path quiet_env "https://youtu.be/SA2iWivDJiE" "Title" ".webm"
            fresh_world _ _ _ _ _ _).
  - reflexivity.
  - done.
  - reflexivity.
  - reflexivity.
  - in_list.
  - reflexivity.
Defined.

Lemma cached_base_name_witness :
  audio_paths_step song_dir_abc (None, None, None, None) "song_Instrumental.wav"
  = (Some "/app/song_output/ba80a53f981/song.wav",
     Some "/app/song_output/ba80a53f981/song_Instrumental.wav", None, None) ∧
  fst (Path.splitext (Path.basename "/app/song_output/ba80a53f981/song.wav")) = "song".
Proof.
  refine (cached_base_name song_dir_abc "song" (None, None, None, None) _ _ _).
  - reflexivity.
  - reflexivity.
  - intros Hocc%occurs_finds. by vm_compute in Hocc.
Defined.

Lemma removals_confined_witness :
  let x := song_cover_pipeline (λ s : string, s) quiet_env (alice_args 2 false)
             fresh_world in
  (∃ calls, log (snd x) = log fresh_world ++ calls ∧
            Forall (removes_within song_dir_abc) calls) ∧
  "/home/u/song.wav" ∈ paths (snd x).
Proof.
  cbv zeta.
  destruct (removals_confined (λ s : string, s) quiet_env (alice_args 2 false) fresh_world
              "local" "/home/u/song.wav" "ba80a53f981"
              {| paths := paths fresh_world;
                 log := [Print "[~] Starting AI Cover Generation Pipeline...";
                         OpenRead "/home/u/song.wav"] |}
              (fst (song_cover_pipeline (λ s : string, s) quiet_env (alice_args 2 false)
                      fresh_world))
              (snd (song_cover_pipeline (λ s : string, s) quiet_env (alice_args 2 false)
                      fresh_world)))
    as [Hcalls Hkept].
  - done.
  - done.
  - vm_compute. reflexivity.
  - vm_compute. reflexivity.
  - split; [exact Hcalls|]. apply Hkept.
    + apply list_elem_of_In. vm_compute. tauto.
    + intros Hin%startswith_spec. by vm_compute in Hin.
Defined.

(** ** A preprocessing that returns *)

Section PreprocessingReturns.

Variable E : env.
Implicit Types (w : world).

(** When no call fails and the input exists, the separation returns. *)
Lemma separation_uvr_returns (filename output : string) w :
  no_fault E → filename ∈ paths w →
  ∃ r w', separation_uvr E filename output w = (Ok r, w').
Proof.
  intros Hnf Hin. unfold separation_uvr, separate_pass. cbv zeta.
  rewrite bind_unfold, external_ok; [| |apply Hnf];
    [|by intros p ->%list_elem_of_singleton].
  rewrite bind_unfold, external_ok; [| |apply Hnf].
  2: { intros p ->%list_elem_of_singleton. apply elem_of_after_call. right. in_list. }
  rewrite bind_unfold, external_ok; [| |apply Hnf].
  2: { intros p ->%list_elem_of_singleton. apply elem_of_after_call. right. in_list. }
  rewrite bind_unfold. unfold path_exists at 1.
  destruct (bool_decide _); cbn [negb when].
  - rewrite bind_unfold, os_remove_ok by apply Hnf. by eexists _, _.
  - rewrite bind_unfold. by eexists _, _.
Qed.

(** The song directory is made when it is missing. *)
Lemma song_dir_made (dir : string) w :
  no_fault E →
  ∃ w0, when (negb (bool_decide (dir ∈ paths w))) (os_makedirs E dir) w = (Ok tt, w0) ∧
        paths_kept w w0.
Proof.
  intros Hnf. case_bool_decide as Hd; cbn [negb when].
  - exists w. split; [done|apply paths_kept_refl].
  - unfold os_makedirs. rewrite external_ok; [| |apply Hnf]; [|by intros p ?%elem_of_nil].
    eexists. split; [done|apply paths_kept_after_call].
Qed.

(** A file that exists is loaded, and converted when it is mono. *)
Lemma convert_to_stereo_returns (audio_path : string) w :
  no_fault E → audio_path ∈ paths w →
  ∃ w', convert_to_stereo E (Some audio_path) w
        = (Ok (if is_mono E audio_path
               then fst (Path.splitext audio_path) +:+ "_stereo.wav"
               else audio_path), w') ∧
        (if is_mono E audio_path
         then fst (Path.splitext audio_path) +:+ "_stereo.wav"
         else audio_path) ∈ paths w'.
Proof.
  intros Hnf Hin. unfold convert_to_stereo.
  rewrite bind_unfold, external_ok; [| |apply Hnf];
    [|by intros p ->%list_elem_of_singleton].
  destruct (is_mono E audio_path).
  - rewrite bind_unfold, external_ok; [| |apply Hnf].
    + eexists. split; [done|]. apply written_after_call, list_elem_of_here.
    + intros p ->%list_elem_of_singleton. by apply paths_kept_after_call.
  - eexists. split; [done|]. by apply paths_kept_after_call.
Qed.

(** X18 — The preprocessing of a local song that exists returns when no call
    fails: the song is taken where it is, or its stereo copy when it is
    mono, and the three stems exist afterwards. *)
Theorem preprocess_local_returns (song_input song_id : string) (is_webui : bool) w :
  no_fault E → song_input ∈ paths w →
  ∃ r w',
    preprocess_song E song_input song_id is_webui "local" w = (Ok r, w') ∧
    r.1.1.1.1.1 = (if is_mono E song_input
                   then fst (Path.splitext song_input) +:+ "_stereo.wav"
                   else song_input) ∧
    r.1.1.1.2 ∈ paths w' ∧ r.1.1.2 ∈ paths w' ∧ r.1.2 ∈ paths w' ∧ r.2 = r.1.1.2.
Proof.
  intros Hnf Hin.
  destruct (song_dir_made (Path.join (output_dir E) song_id) w Hnf) as (w0 & H0 & Hk0).
  destruct (convert_to_stereo_returns song_input w0 Hnf (Hk0 _ Hin)) as (w1 & H1 & Hex).
  set (orig := if is_mono E song_input
               then fst (Path.splitext song_input) +:+ "_stereo.wav"
               else song_input) in *.
  destruct (separation_uvr_returns orig (Path.join (output_dir E) song_id)
              {| paths := paths w1;
                 log := log w1 ++ [message_call "[~] Separating Vocals from Instrumental..."
                                     is_webui] |} Hnf Hex)
    as ([[[vnr inst] main] backup] & w' & Hsep).
  assert (preprocess_song E song_input song_id is_webui "local" w
          = (Ok (orig, vnr, inst, main, backup, main), w')) as Hpre.
  { unfold preprocess_song. cbv zeta.
    rewrite bool_decide_eq_false_2, bool_decide_eq_true_2 by done.
    rewrite (bind_ok (ret _) _ w (Some song_input) w eq_refl).
    rewrite (bind_ok (path_exists _) _ w _ w eq_refl).
    rewrite (bind_ok _ _ _ _ _ H0), (bind_ok _ _ _ _ _ H1).
    rewrite bind_unfold, display_progress_spec.
    by rewrite (bind_ok _ _ _ _ _ Hsep). }
  exists (orig, vnr, inst, main, backup, main), w'.
  split; [done|]. cbn [fst snd]. split; [done|].
  pose proof (preprocess_song_ok E _ _ _ _ _ _ _ Hpre)
    as (orig' & l & Heq & Hi & Hm & Hb & _).
  cbv zeta in Heq. injection Heq as <- -> -> -> ->. done.
Qed.

End PreprocessingReturns.

(** A stereo song that exists in a world where no call fails. *)
Lemma preprocess_local_returns_witness :
  ∃ r w',
    preprocess_song quiet_env "/home/u/song.wav" "ba80a53f981" false "local" fresh_world
    = (Ok r, w') ∧
    r.1.1.1.1.1 = (if is_mono quiet_env "/home/u/song.wav"
                   then fst (Path.splitext "/home/u/song.wav") +:+ "_stereo.wav"
                   else "/home/u/song.wav") ∧
    r.1.1.1.2 ∈ paths w' ∧ r.1.1.2 ∈ paths w' ∧ r.1.2 ∈ paths w' ∧ r.2 = r.1.1.2.
Proof.
  apply (preprocess_local_returns quiet_env "/home/u/song.wav" "ba80a53f981" false
           fresh_world).
  - by intros c.
  - in_list.
Defined.

(** ** Links accepted by the pipeline *)

Section ResolvedLinks.

Context {pyfloat : Type}.
Variable E : env.
Implicit Types (a : @args pyfloat) (w : world).

(** The parser finds the scheme of a short link and of a watch link,
    and [get_youtube_video_id] finds the identifier. *)
Lemma https_forms_parsed (url id : string) :
  video_id id → id ≠ EmptyString →
  url = "https://youtu.be/" +:+ id ∨
  (∃ host, host ∈ youtube_hosts ∧ url = "https://" +:+ host +:+ "/watch?v=" +:+ id) →
  (∃ parsed, Url.urlparse (urllib E) url = Ok parsed ∧ scheme parsed = "https") ∧
  get_youtube_video_id (urllib E) url true = Ok (Some id).
Proof.
  intros Hid Hne [->|(host & Hh & ->)].
  - split; [link_eval Hid; eexists; split; reflexivity|].
    link_eval Hid. rewrite lstrip_absent; [done|].
    revert Hid. apply forallb_impl. intros c Hc.
    apply negb_true_iff, bool_decide_eq_false_2. by apply id_char_plain.
  - unfold youtube_hosts in Hh. rewrite !elem_of_cons in Hh.
    destruct Hh as [->|[->|[->|Hh%elem_of_nil]]]; [| | |done];
      (split; [link_eval Hid; eexists; split; reflexivity|]);
      link_eval Hid; by case_bool_decide.
Qed.

(** X19 — A short link or a watch link with scheme https and an identifier
    that is not empty is taken as remote input, and the identifier is
    the song id; nothing is called. *)
Theorem https_link_resolved a w (id : string) :
  video_id id → id ≠ EmptyString →
  song_input a = "https://youtu.be/" +:+ id ∨
  (∃ host, host ∈ youtube_hosts ∧
           song_input a = "https://" +:+ host +:+ "/watch?v=" +:+ id) →
  resolve_input E a w = (Ok ("yt", song_input a, id), w).
Proof.
  intros Hid Hne Hform.
  destruct (https_forms_parsed _ _ Hid Hne Hform) as ((parsed & Hp & Hs) & Hv).
  unfold resolve_input. rewrite bind_unfold. unfold lift. rewrite Hp.
  rewrite bool_decide_eq_true_2 by done. rewrite bind_unfold. by rewrite Hv.
Qed.

End ResolvedLinks.

(** A watch link of the music host. *)
Lemma https_link_resolved_witness :
  resolve_input quiet_env (alice_args_for "https://music.youtube.com/watch?v=SA2iWivDJiE")
    fresh_world
  = (Ok ("yt", "https://music.youtube.com/watch?v=SA2iWivDJiE", "SA2iWivDJiE"), fresh_world).
Proof.
  apply (https_link_resolved quiet_env
           (alice_args_for "https://music.youtube.com/watch?v=SA2iWivDJiE") fresh_world
           "SA2iWivDJiE").
  - reflexivity.
  - done.
  - right. exists "music.youtube.com". split; [in_list|reflexivity].
Defined.
